(** * paularlott/logger: the logging contract and its backends

    A shallow embedding of the Go sources

    - the [Logger] interface and [NullLogger]          (package logger),
    - the capturing [MockLogger]                        (package logtesting),
    - the [SlogLogger] adapter with its [ConsoleHandler] (package logslog),
    - the [ZerologLogger] adapter                        (package logzerolog),
    - the service of the example application             (package main),

    together with the parts of the Go runtime and of the two logging
    engines ([log/slog], [zerolog]) that these sources call. *)

From Stdlib Require Import ZArith String Ascii List DecimalString Lia.
From stdpp Require Import gmap strings list.

Set Warnings "-register-all".
Open Scope string_scope.
Open Scope list_scope.

(** ** Processes

    A Go call returns to its caller, ends the process through [os.Exit],
    or panics.  [Proc W A] is a computation over a world [W] with that
    outcome; [bind] runs the continuation only when the first part
    returned. *)

Inductive Outcome (W A : Type) : Type :=
| Returns (a : A) (w : W)
| Exits (code : Z) (w : W)
| Panics (why : string) (w : W).
Arguments Returns {W A} a w.
Arguments Exits {W A} code w.
Arguments Panics {W A} why w.

Definition Proc (W A : Type) : Type := W -> Outcome W A.

Definition ret {W A} (a : A) : Proc W A := fun w => Returns a w.

Definition bind {W A B} (m : Proc W A) (f : A -> Proc W B) : Proc W B :=
  fun w =>
    match m w with
    | Returns a w' => f a w'
    | Exits code w' => Exits code w'
    | Panics why w' => Panics why w'
    end.

Notation "x <- m ;; k" := (bind m (fun x => k))
  (at level 100, m at next level, right associativity).
Notation "m ;;; k" := (bind m (fun _ => k))
  (at level 100, right associativity).

Definition get {W} : Proc W W := fun w => Returns w w.
Definition put {W} (w : W) : Proc W unit := fun _ => Returns tt w.
Definition modify {W} (f : W -> W) : Proc W unit := fun w => Returns tt (f w).

(** [os.Exit(code)] *)
Definition os_Exit {W A} (code : Z) : Proc W A := fun w => Exits code w.

Definition world_of {W A} (o : Outcome W A) : W :=
  match o with Returns _ w | Exits _ w | Panics _ w => w end.

Definition exit_code {W A} (o : Outcome W A) : option Z :=
  match o with Exits c _ => Some c | _ => None end.

Definition result_of {W A} (o : Outcome W A) : option A :=
  match o with Returns a _ => Some a | _ => None end.

(** ** Strings *)

Definition ESC : string := String "027"%char EmptyString.
Definition LF : string := String "010"%char EmptyString.

(** [strings.Join(elems, sep)] *)
Definition Join (elems : list string) (sep : string) : string :=
  String.concat sep elems.

(** [strconv.Itoa] / [strconv.AppendInt(.., 10)] *)
Definition itoa (n : Z) : string := NilZero.string_of_int (Z.to_int n).

Definition lower_ascii (c : ascii) : ascii :=
  let n := nat_of_ascii c in
  if (65 <=? n)%nat && (n <=? 90)%nat then ascii_of_nat (n + 32) else c.

(** [strings.ToLower].  Upper-case ASCII letters are mapped to lower case.
    Of the runes outside ASCII exactly two have an ASCII lower case:
    U+0130 (bytes C4 B0, lower case [i]) and U+212A (bytes E2 84 AA, lower
    case [k]); they are mapped as Go maps them.  Every other byte above
    127 is left as it is: Go maps such runes to runes outside ASCII again,
    which no comparison against an ASCII literal can tell apart. *)
Fixpoint ToLower (s : string) : string :=
  match s with
  | EmptyString => EmptyString
  | String c rest =>
      match nat_of_ascii c, rest with
      | 196%nat, String c2 rest2 =>
          if (nat_of_ascii c2 =? 176)%nat then String "i"%char (ToLower rest2)
          else String c (ToLower rest)
      | 226%nat, String c2 (String c3 rest3) =>
          if (nat_of_ascii c2 =? 132)%nat && (nat_of_ascii c3 =? 170)%nat
          then String "k"%char (ToLower rest3)
          else String c (ToLower rest)
      | _, _ => String (lower_ascii c) (ToLower rest)
      end
  end.

(** ** Go values passed to the logging calls *)

(** A non-nil [error], by the text its [Error()] method returns. *)
Record error : Type := mkError { Error_text : string }.

(** [time.Month] *)
Inductive Month : Type :=
| January | February | March | April | May | June
| July | August | September | October | November | December.

(** A [time.Time] as the layout verbs used by the console handler see it:
    the date and clock fields in the value's location and that location's
    zone abbreviation. *)
Record Time : Type := mkTime {
  Year : nat;
  Mon : Month;
  Day : nat;
  Hour : nat;
  Minute : nat;
  Zone : string
}.

Definition Month_abbrev (m : Month) : string :=
  match m with
  | January => "Jan" | February => "Feb" | March => "Mar" | April => "Apr"
  | May => "May" | June => "Jun" | July => "Jul" | August => "Aug"
  | September => "Sep" | October => "Oct" | November => "Nov"
  | December => "Dec"
  end.

(** Two decimal digits, zero padded (layout verbs [02], [06], [15], [04]). *)
Definition two_digits (n : nat) : string :=
  itoa (Z.of_nat ((n / 10) mod 10)) +:+ itoa (Z.of_nat (n mod 10)).

(** [t.Format("02 Jan 06 15:04 MST")] *)
Definition Time_Format (t : Time) : string :=
  two_digits (Day t) +:+ " " +:+ Month_abbrev (Mon t) +:+ " " +:+
  two_digits (Year t) +:+ " " +:+ two_digits (Hour t) +:+ ":" +:+
  two_digits (Minute t) +:+ " " +:+ Zone t.

(** ** Values of [log/slog]

    [slog.Value] with the kinds that reach the handlers here, and
    [slog.Attr].  A value of kind [KindAny] is kept as a [slog.Level] when
    that is its dynamic type (the type assertion in [ReplaceAttr] asks for
    it) and otherwise by the text [fmt] prints for it. *)

Inductive Value : Type :=
| StringValue (s : string)
| Int64Value (n : Z)
| BoolValue (b : bool)
| GroupValue (g : list Attr)
| LevelValue (l : Z)
| OtherValue (text : string)
with Attr : Type :=
| mkAttr (Key : string) (Val : Value).

Definition Key (a : Attr) : string := match a with mkAttr k _ => k end.
Definition Val (a : Attr) : Value := match a with mkAttr _ v => v end.

Inductive Kind : Type :=
| KindAny | KindBool | KindInt64 | KindString | KindGroup.

Definition Value_Kind (v : Value) : Kind :=
  match v with
  | StringValue _ => KindString
  | Int64Value _ => KindInt64
  | BoolValue _ => KindBool
  | GroupValue _ => KindGroup
  | LevelValue _ | OtherValue _ => KindAny
  end.

(** [slog.Level] and its named constants *)
Definition LevelDebug : Z := (-4)%Z.
Definition LevelInfo : Z := 0%Z.
Definition LevelWarn : Z := 4%Z.
Definition LevelError : Z := 8%Z.

(** [fmt.Sprintf("%+d", n)] *)
Definition signed (n : Z) : string :=
  if (0 <=? n)%Z then "+" +:+ itoa n else itoa n.

(** [Level.String] *)
Definition Level_String (l : Z) : string :=
  let str (base : string) (val : Z) :=
    if (val =? 0)%Z then base else base +:+ signed val in
  if (l <? LevelInfo)%Z then str "DEBUG" (l - LevelDebug)%Z
  else if (l <? LevelWarn)%Z then str "INFO" (l - LevelInfo)%Z
  else if (l <? LevelError)%Z then str "WARN" (l - LevelWarn)%Z
  else str "ERROR" (l - LevelError)%Z.

(** [Value.String]: never panics; a group prints as [fmt] prints a slice
    of [Attr], each element through [Attr.String] (key, [=], value). *)
Fixpoint Value_String (v : Value) : string :=
  match v with
  | StringValue s => s
  | Int64Value n => itoa n
  | BoolValue b => if b then "true" else "false"
  | GroupValue g =>
      "[" +:+
      Join (map (fun a => Key a +:+ "=" +:+ Value_String (Val a)) g) " "
      +:+ "]"
  | LevelValue l => Level_String l
  | OtherValue text => text
  end.

Definition Attr_String (a : Attr) : string :=
  Key a +:+ "=" +:+ Value_String (Val a).

(** [Value.isEmptyGroup] *)
Definition isEmptyGroup (v : Value) : bool :=
  match v with GroupValue [] => true | _ => false end.

(** Go's [any], as far as the loggers look into it: the dynamic type
    decides how a key/value sequence is read. *)
Inductive any : Type :=
| AString (s : string)
| AInt (n : Z)
| ABool (b : bool)
| AError (e : error)
| ALevel (l : Z)
| AAttr (a : Attr)
| AOther (text : string).

(** [slog.AnyValue] *)
Definition AnyValue (v : any) : Value :=
  match v with
  | AString s => StringValue s
  | AInt n => Int64Value n
  | ABool b => BoolValue b
  | AError e => OtherValue (Error_text e)
  | ALevel l => LevelValue l
  | AAttr a => OtherValue (Attr_String a)
  | AOther text => OtherValue text
  end.

(** [slog.Any], [slog.String] *)
Definition slog_Any (key : string) (value : any) : Attr :=
  mkAttr key (AnyValue value).
Definition slog_String (key value : string) : Attr :=
  mkAttr key (StringValue value).

Definition badKey : string := "!BADKEY".

(** [argsToAttr] turns the front of a non-empty argument list into an
    attribute and returns the rest: a string is a key and takes the next
    argument as its value, unless it is the last one; an [Attr] stands
    for itself; anything else becomes a value under [badKey]. *)
Definition argsToAttr (x : any) (rest : list any) : Attr * list any :=
  match x with
  | AString s =>
      match rest with
      | [] => (slog_String badKey s, [])
      | v :: rest' => (slog_Any s v, rest')
      end
  | AAttr a => (a, rest)
  | _ => (slog_Any badKey x, rest)
  end.

(** The loop [for len(args) > 0 { a, args = argsToAttr(args); ... }];
    every round consumes an argument, so [length args] rounds are
    enough. *)
Fixpoint argsLoop (fuel : nat) (args : list any) : list Attr :=
  match fuel, args with
  | S fuel', x :: rest =>
      let '(a, args') := argsToAttr x rest in a :: argsLoop fuel' args'
  | _, _ => []
  end.

(** [argsToAttrSlice] *)
Definition argsToAttrSlice (args : list any) : list Attr :=
  argsLoop (length args) args.

(** [slog.Record]: time, message, level and the attributes added so far. *)
Record slog_Record : Type := mkRecord {
  rTime : Time;
  rMessage : string;
  rLevel : Z;
  rAttrs : list Attr
}.

Definition NewRecord (t : Time) (level : Z) (msg : string) : slog_Record :=
  mkRecord t msg level [].

(** [Record.Add]: the attributes of [args], empty groups left out. *)
Definition Record_Add (r : slog_Record) (args : list any) : slog_Record :=
  mkRecord (rTime r) (rMessage r) (rLevel r)
    (rAttrs r ++
     List.filter (fun a => negb (isEmptyGroup (Val a))) (argsToAttrSlice args)).

(** [slog.HandlerOptions].  [ReplaceAttr] answers [None] where the Go
    closure panics. *)
Record HandlerOptions : Type := mkOptions {
  optLevel : option Z;
  optReplaceAttr : option (list string -> Attr -> option Attr)
}.

Definition LevelKey : string := "level".

(** ** The world of a writing backend

    An [io.Writer] is known by its identity; the world keeps the [Write]
    calls made so far, each with the writer it went to and the bytes it
    passed, the error every writer answers with, and the clock. *)

Inductive Writer : Type :=
| Stdout
| Sink (id : nat).

Record World : Type := mkWorld {
  now : Time;
  sinkErr : Writer -> option error;
  writes : list (Writer * string)
}.

(** [w.Write(p)]: one call, whose error (if any) is returned. *)
Definition Writer_Write (w : Writer) (p : string) : Proc World (option error) :=
  fun s => Returns (sinkErr s w) (mkWorld (now s) (sinkErr s) (writes s ++ [(w, p)])).

(** [time.Now()] *)
Definition time_Now : Proc World Time := fun s => Returns (now s) s.

(** ** The front end of [log/slog]

    [slog.Handler] is the interface a handler implements; [slog.Logger]
    holds one and builds the record of every call. *)

Class slog_Handler (H : Type) : Type := {
  Enabled : H -> Z -> bool;
  Handle : H -> slog_Record -> Proc World (option error);
  WithAttrs : H -> list Attr -> Proc World H;
  WithGroup : H -> string -> H
}.

Record slog_Logger (H : Type) : Type := mkLogger { handler : H }.
Arguments mkLogger {H} handler.
Arguments handler {H} _.

(** [Logger.Log]: nothing happens below the handler's level; otherwise
    the record is built from the clock and the arguments and handed to
    the handler, whose error is dropped. *)
Definition Logger_Log {H} `{slog_Handler H} (l : slog_Logger H)
    (level : Z) (msg : string) (args : list any) : Proc World unit :=
  if negb (Enabled (handler l) level) then ret tt
  else
    t <- time_Now ;;
    let r := Record_Add (NewRecord t level msg) args in
    _ <- Handle (handler l) r ;;
    ret tt.

(** [Logger.With] *)
Definition Logger_With {H} `{slog_Handler H} (l : slog_Logger H)
    (args : list any) : Proc World (slog_Logger H) :=
  match args with
  | [] => ret l
  | _ => h <- WithAttrs (handler l) (argsToAttrSlice args) ;; ret (mkLogger h)
  end.

(** [slog.JSONHandler] belongs to the standard library and is not part of
    these sources: it is an engine with the handler operations, about
    which nothing further is assumed. *)
Class JSONEngine : Type := {
  stdJSONHandler : Type;
  NewJSONHandler : Writer -> HandlerOptions -> stdJSONHandler;
  stdJSON_Enabled : stdJSONHandler -> Z -> bool;
  stdJSON_Handle : stdJSONHandler -> slog_Record -> Proc World (option error);
  stdJSON_WithAttrs : stdJSONHandler -> list Attr -> Proc World stdJSONHandler;
  stdJSON_WithGroup : stdJSONHandler -> string -> stdJSONHandler
}.

(** ** Package logger (the interface and the null logger) *)

Module logger.

(** Logger is the minimal interface all paularlott/* libraries accept.
    [L] is the implementing type and [W] the world its calls act on. *)
Class Logger (L W : Type) : Type := {
  Trace : L -> string -> list any -> Proc W unit;
  Debug : L -> string -> list any -> Proc W unit;
  Info : L -> string -> list any -> Proc W unit;
  Warn : L -> string -> list any -> Proc W unit;
  Error : L -> string -> list any -> Proc W unit;
  Fatal : L -> string -> list any -> Proc W unit;
  With : L -> string -> any -> Proc W L;
  WithError : L -> error -> Proc W L;
  WithGroup : L -> string -> Proc W L
}.

(** The calls of the contract, as data. *)
Inductive Emit : Type :=
| OpTrace | OpDebug | OpInfo | OpWarn | OpError | OpFatal.

Inductive Derive : Type :=
| OpWith (key : string) (value : any)
| OpWithError (err : error)
| OpWithGroup (group : string).

Definition emit {L W} `{Logger L W} (op : Emit) (l : L) (msg : string)
    (keysAndValues : list any) : Proc W unit :=
  match op with
  | OpTrace => Trace l msg keysAndValues
  | OpDebug => Debug l msg keysAndValues
  | OpInfo => Info l msg keysAndValues
  | OpWarn => Warn l msg keysAndValues
  | OpError => Error l msg keysAndValues
  | OpFatal => Fatal l msg keysAndValues
  end.

Definition derive {L W} `{Logger L W} (op : Derive) (l : L) : Proc W L :=
  match op with
  | OpWith key value => With l key value
  | OpWithError err => WithError l err
  | OpWithGroup group => WithGroup l group
  end.

(** A chain [l.With(..).WithGroup(..)...], left to right. *)
Fixpoint chain {L W} `{Logger L W} (ops : list Derive) (l : L) : Proc W L :=
  match ops with
  | [] => ret l
  | op :: ops' => l' <- derive op l ;; chain ops' l'
  end.

(** NullLogger is a no-op logger implementation *)
Inductive NullLogger : Type := mkNullLogger.

Definition NewNullLogger : NullLogger := mkNullLogger.

Section Null.
Context {W : Type}.

Definition NullLogger_Trace (n : NullLogger) (msg : string)
  (keysAndValues : list any) : Proc W unit := ret tt.
Definition NullLogger_Debug (n : NullLogger) (msg : string)
  (keysAndValues : list any) : Proc W unit := ret tt.
Definition NullLogger_Info (n : NullLogger) (msg : string)
  (keysAndValues : list any) : Proc W unit := ret tt.
Definition NullLogger_Warn (n : NullLogger) (msg : string)
  (keysAndValues : list any) : Proc W unit := ret tt.
Definition NullLogger_Error (n : NullLogger) (msg : string)
  (keysAndValues : list any) : Proc W unit := ret tt.
(** No-op: does not exit *)
Definition NullLogger_Fatal (n : NullLogger) (msg : string)
  (keysAndValues : list any) : Proc W unit := ret tt.
Definition NullLogger_With (n : NullLogger) (key : string) (value : any)
  : Proc W NullLogger := ret n.
Definition NullLogger_WithError (n : NullLogger) (err : error)
  : Proc W NullLogger := ret n.
Definition NullLogger_WithGroup (n : NullLogger) (group : string)
  : Proc W NullLogger := ret n.

#[export] Instance NullLogger_is_Logger : Logger NullLogger W := {
  Trace := NullLogger_Trace;
  Debug := NullLogger_Debug;
  Info := NullLogger_Info;
  Warn := NullLogger_Warn;
  Error := NullLogger_Error;
  Fatal := NullLogger_Fatal;
  With := NullLogger_With;
  WithError := NullLogger_WithError;
  WithGroup := NullLogger_WithGroup
}.

End Null.

End logger.

(** ** Package logslog (slog/slog.go) *)

Module logslog.

(** Custom slog level for TRACE (below DEBUG which is -4) *)
Definition LevelTrace : Z := (-8)%Z.

(** Custom slog level for FATAL (above ERROR which is 8) *)
Definition LevelFatal : Z := 10%Z.

Record Config : Type := mkConfig {
  Level : string;
  Format : string;
  Writer_ : option Writer;
  GroupFieldName : string
}.

Definition parseLevel (level : string) : Z :=
  let l := ToLower level in
  if String.eqb l "trace" then LevelTrace
  else if String.eqb l "debug" then LevelDebug
  else if String.eqb l "info" then LevelInfo
  else if String.eqb l "warn" || String.eqb l "warning" then LevelWarn
  else if String.eqb l "error" then LevelError
  else if String.eqb l "fatal" then LevelFatal
  else LevelInfo.

(** The [ReplaceAttr] closure of [New]: custom level names for TRACE and
    FATAL.  The type assertion [a.Value.Any().(slog.Level)] panics on any
    other dynamic type. *)
Definition replaceAttr (groups : list string) (a : Attr) : option Attr :=
  if String.eqb (Key a) LevelKey then
    match Val a with
    | LevelValue level =>
        if (level =? LevelTrace)%Z then Some (slog_String LevelKey "TRACE")
        else if (level =? LevelFatal)%Z then Some (slog_String LevelKey "FATAL")
        else Some a
    | _ => None
    end
  else Some a.

(** *** ConsoleHandler *)

Record ConsoleHandler : Type := mkConsoleHandler {
  opts : HandlerOptions;
  writer : Writer;
  attrs : list Attr;
  groups : list string;
  groupFieldName : string
}.

Definition NewConsoleHandler (w : Writer) (opts : option HandlerOptions)
    (groupFieldName : string) : ConsoleHandler :=
  let opts := match opts with
              | None => mkOptions None None
              | Some o => o
              end in
  mkConsoleHandler opts w [] [] groupFieldName.

Definition ConsoleHandler_Enabled (h : ConsoleHandler) (level : Z) : bool :=
  let minLevel := match optLevel (opts h) with
                  | Some l => l
                  | None => LevelInfo
                  end in
  (minLevel <=? level)%Z.

(** ANSI color codes *)
Definition getLevelColor (level : Z) : string :=
  if (level =? LevelTrace)%Z then ESC +:+ "[35m"
  else if (level =? LevelDebug)%Z then ESC +:+ "[33m"
  else if (level =? LevelInfo)%Z then ESC +:+ "[32m"
  else if (level =? LevelWarn)%Z then ESC +:+ "[33m"
  else if (level =? LevelError)%Z || (level =? LevelFatal)%Z then ESC +:+ "[31m"
  else ESC +:+ "[0m".

Definition getLevelString (level : Z) : string :=
  if (level =? LevelTrace)%Z then "TRC"
  else if (level =? LevelDebug)%Z then "DBG"
  else if (level =? LevelInfo)%Z then "INF"
  else if (level =? LevelWarn)%Z then "WRN"
  else if (level =? LevelError)%Z then "ERR"
  else if (level =? LevelFatal)%Z then "FTL"
  else "???".

(** [appendAttr]: the key gets the joined [groups] in front; a group
    value is walked attribute by attribute with its own key added to
    [groups], anything else is written as one pair. *)
Fixpoint appendAttr (buf : string) (attr : Attr) (groups : list string)
    {struct attr} : string :=
  let key := Key attr in
  let key := if (0 <? length groups)%nat
             then Join groups "." +:+ "." +:+ key else key in
  match Val attr with
  | GroupValue g =>
      (fix range (g : list Attr) (buf : string) {struct g} : string :=
         match g with
         | [] => buf
         | groupAttr :: g' =>
             range g' (appendAttr buf groupAttr (groups ++ [Key attr]))
         end) g buf
  | v =>
      let buf := buf +:+ " " +:+ ESC +:+ "[36m" in
      let buf := buf +:+ key in
      let buf := buf +:+ ESC +:+ "[0m=" in
      buf +:+ Value_String v
  end.

(** The two searches for the group in [Handle]: walk the attributes and
    stop at the first whose key is the group field, taking its text;
    [group] is what the variable holds when nothing matches. *)
Fixpoint findGroup (attrs : list Attr) (groupFieldName : string)
    (group : string) : string :=
  match attrs with
  | [] => group
  | attr :: rest =>
      if String.eqb (Key attr) groupFieldName
      then Value_String (Val attr)
      else findGroup rest groupFieldName group
  end.

(** The two loops of [Handle] that print attributes, skipping the group
    field. *)
Fixpoint appendAttrs (buf : string) (attrs : list Attr)
    (groupFieldName : string) (groups : list string) : string :=
  match attrs with
  | [] => buf
  | attr :: rest =>
      let buf := if negb (String.eqb (Key attr) groupFieldName)
                 then appendAttr buf attr groups else buf in
      appendAttrs buf rest groupFieldName groups
  end.

(** The bytes [Handle] builds in its [strings.Builder]. *)
Definition render (h : ConsoleHandler) (r : slog_Record) : string :=
  let buf := "" in
  (* Date and time with timezone *)
  let buf := buf +:+ ESC +:+ "[90m" in
  let buf := buf +:+ Time_Format (rTime r) in
  let buf := buf +:+ ESC +:+ "[0m " in
  (* Level with color *)
  let levelColor := getLevelColor (rLevel r) in
  let levelStr := getLevelString (rLevel r) in
  let buf := buf +:+ levelColor in
  let buf := buf +:+ levelStr in
  let buf := buf +:+ ESC +:+ "[0m " in
  (* Group in brackets if present *)
  let group := "" in
  let group := findGroup (attrs h) (groupFieldName h) group in
  let group := if String.eqb group ""
               then findGroup (rAttrs r) (groupFieldName h) group
               else group in
  let buf := if negb (String.eqb group "")
             then (buf +:+ ESC +:+ "[36m[") +:+ group +:+ "]" +:+ ESC +:+ "[0m "
             else buf in
  (* Message *)
  let buf := buf +:+ rMessage r in
  (* Handler-level attributes, then record attributes *)
  let buf := appendAttrs buf (attrs h) (groupFieldName h) (groups h) in
  let buf := appendAttrs buf (rAttrs r) (groupFieldName h) (groups h) in
  buf +:+ LF.

Definition ConsoleHandler_Handle (h : ConsoleHandler) (r : slog_Record)
    : Proc World (option error) :=
  Writer_Write (writer h) (render h r).

Definition ConsoleHandler_WithAttrs (h : ConsoleHandler) (attrs' : list Attr)
    : ConsoleHandler :=
  let newAttrs := attrs h ++ attrs' in
  mkConsoleHandler (opts h) (writer h) newAttrs (groups h) (groupFieldName h).

Definition ConsoleHandler_WithGroup (h : ConsoleHandler) (name : string)
    : ConsoleHandler :=
  if String.eqb name "" then h
  else
    let newGroups := groups h ++ [name] in
    mkConsoleHandler (opts h) (writer h) (attrs h) newGroups (groupFieldName h).

#[export] Instance ConsoleHandler_is_Handler : slog_Handler ConsoleHandler := {
  Enabled := ConsoleHandler_Enabled;
  Handle := ConsoleHandler_Handle;
  WithAttrs h a := ret (ConsoleHandler_WithAttrs h a);
  WithGroup := ConsoleHandler_WithGroup
}.

Section Engine.
Context {E : JSONEngine}.

(** *** JSONHandler: a wrapper around [slog.JSONHandler] *)

Record JSONHandler : Type := mkJSONHandler { inner : stdJSONHandler }.

Definition JSONHandler_Enabled (h : JSONHandler) (level : Z) : bool :=
  stdJSON_Enabled (inner h) level.

Definition JSONHandler_Handle (h : JSONHandler) (r : slog_Record)
    : Proc World (option error) :=
  stdJSON_Handle (inner h) r.

Definition JSONHandler_WithAttrs (h : JSONHandler) (attrs : list Attr)
    : Proc World JSONHandler :=
  h' <- stdJSON_WithAttrs (inner h) attrs ;; ret (mkJSONHandler h').

Definition JSONHandler_WithGroup (h : JSONHandler) (name : string)
    : JSONHandler :=
  mkJSONHandler (stdJSON_WithGroup (inner h) name).

#[export] Instance JSONHandler_is_Handler : slog_Handler JSONHandler := {
  Enabled := JSONHandler_Enabled;
  Handle := JSONHandler_Handle;
  WithAttrs := JSONHandler_WithAttrs;
  WithGroup := JSONHandler_WithGroup
}.

(** The [slog.Handler] interface value inside the logger: [New] stores
    one of the two handler types, and every call dispatches on it. *)
Inductive Handler : Type :=
| Console (h : ConsoleHandler)
| JSON (h : JSONHandler).

#[export] Instance Handler_is_Handler : slog_Handler Handler := {
  Enabled h level :=
    match h with
    | Console c => Enabled c level
    | JSON j => Enabled j level
    end;
  Handle h r :=
    match h with
    | Console c => Handle c r
    | JSON j => Handle j r
    end;
  WithAttrs h a :=
    match h with
    | Console c => c' <- WithAttrs c a ;; ret (Console c')
    | JSON j => j' <- WithAttrs j a ;; ret (JSON j')
    end;
  WithGroup h name :=
    match h with
    | Console c => Console (WithGroup c name)
    | JSON j => JSON (WithGroup j name)
    end
}.

(** *** SlogLogger wraps slog.Logger to implement the logger.Logger
    interface *)

Record SlogLogger : Type := mkSlogLogger {
  logger : slog_Logger Handler;
  groupFieldName' : string
}.

(** New creates a new SlogLogger with the given configuration *)
Definition New (cfg : Config) : SlogLogger :=
  let cfg_Writer := match Writer_ cfg with None => Stdout | Some w => w end in
  let cfg_Format := if String.eqb (Format cfg) "" then "console" else Format cfg in
  let cfg_Level := if String.eqb (Level cfg) "" then "info" else Level cfg in
  let cfg_GroupFieldName :=
    if String.eqb (GroupFieldName cfg) "" then "_group" else GroupFieldName cfg in
  let level := parseLevel cfg_Level in
  let opts := mkOptions (Some level) (Some replaceAttr) in
  let handler :=
    if String.eqb cfg_Format "json"
    then JSON (mkJSONHandler (NewJSONHandler cfg_Writer opts))
    else Console (NewConsoleHandler cfg_Writer (Some opts) cfg_GroupFieldName) in
  mkSlogLogger (mkLogger handler) cfg_GroupFieldName.

Definition SlogLogger_log (l : SlogLogger) (level : Z) (msg : string)
    (keysAndValues : list any) : Proc World unit :=
  Logger_Log (logger l) level msg keysAndValues.

Definition SlogLogger_Trace (l : SlogLogger) (msg : string)
    (keysAndValues : list any) : Proc World unit :=
  SlogLogger_log l LevelTrace msg keysAndValues.

Definition SlogLogger_Debug (l : SlogLogger) (msg : string)
    (keysAndValues : list any) : Proc World unit :=
  SlogLogger_log l LevelDebug msg keysAndValues.

Definition SlogLogger_Info (l : SlogLogger) (msg : string)
    (keysAndValues : list any) : Proc World unit :=
  SlogLogger_log l LevelInfo msg keysAndValues.

Definition SlogLogger_Warn (l : SlogLogger) (msg : string)
    (keysAndValues : list any) : Proc World unit :=
  SlogLogger_log l LevelWarn msg keysAndValues.

Definition SlogLogger_Error (l : SlogLogger) (msg : string)
    (keysAndValues : list any) : Proc World unit :=
  SlogLogger_log l LevelError msg keysAndValues.

Definition SlogLogger_Fatal (l : SlogLogger) (msg : string)
    (keysAndValues : list any) : Proc World unit :=
  SlogLogger_log l LevelFatal msg keysAndValues ;;;
  os_Exit 1.

Definition SlogLogger_With (l : SlogLogger) (key : string) (value : any)
    : Proc World SlogLogger :=
  lg <- Logger_With (logger l) [AString key; value] ;;
  ret (mkSlogLogger lg (groupFieldName' l)).

Definition SlogLogger_WithError (l : SlogLogger) (err : error)
    : Proc World SlogLogger :=
  lg <- Logger_With (logger l) [AString "error"; AError err] ;;
  ret (mkSlogLogger lg (groupFieldName' l)).

Definition SlogLogger_WithGroup (l : SlogLogger) (group : string)
    : Proc World SlogLogger :=
  lg <- Logger_With (logger l) [AString (groupFieldName' l); AString group] ;;
  ret (mkSlogLogger lg (groupFieldName' l)).

#[export] Instance SlogLogger_is_Logger : logger.Logger SlogLogger World := {
  logger.Trace := SlogLogger_Trace;
  logger.Debug := SlogLogger_Debug;
  logger.Info := SlogLogger_Info;
  logger.Warn := SlogLogger_Warn;
  logger.Error := SlogLogger_Error;
  logger.Fatal := SlogLogger_Fatal;
  logger.With := SlogLogger_With;
  logger.WithError := SlogLogger_WithError;
  logger.WithGroup := SlogLogger_WithGroup
}.

End Engine.

End logslog.

(** ** Package logtesting (testing/mock.go)

    [MockLogger] values are used through pointers, their [Entries] are
    slices over backing arrays and their [attrs] are maps: all three are
    references in Go, so the embedding keeps them in a store.  A pointer
    is an index into [loggers], a slice names its backing array by an
    index into [arrays], a map is an index into [maps], and [cells] holds
    the variables whose address a call hands out. *)

Module logtesting.

(** A slice header: backing array, length, capacity. *)
Record slice : Type := mkSlice { array : nat; len : nat; cap : nat }.

(** A map value: [None] is the nil map. *)
Definition mapref : Type := option nat.

(** LogEntry represents a single log entry *)
Record LogEntry : Type := mkLogEntry {
  Level : string;
  Message : string;
  KeysAndValues : list any;
  Attrs : mapref;
  Group : string
}.

(** The zero value of [LogEntry], which fills the unused part of a
    backing array. *)
Definition zeroEntry : LogEntry := mkLogEntry "" "" [] None "".

(** MockLogger is a logger implementation that captures log calls for
    testing (the mutex has no part in a sequential run). *)
Record MockLogger : Type := mkMockLogger {
  Entries : slice;
  attrs : mapref;
  group : string
}.

Record Store : Type := mkStore {
  loggers : list MockLogger;
  arrays : list (list LogEntry);
  maps : list (gmap string any);
  cells : list LogEntry
}.

Definition emptyStore : Store := mkStore [] [] [] [].

Definition nilDeref : string :=
  "invalid memory address or nil pointer dereference".
Definition outOfRange : string := "index out of range".

(** *** Memory operations of the Go runtime *)

Definition loadLogger (m : nat) : Proc Store MockLogger :=
  fun s => match loggers s !! m with
           | Some ml => Returns ml s
           | None => Panics nilDeref s
           end.

Definition storeLogger (m : nat) (ml : MockLogger) : Proc Store unit :=
  fun s => Returns tt
    (mkStore (<[m := ml]> (loggers s)) (arrays s) (maps s) (cells s)).

Definition newLogger (ml : MockLogger) : Proc Store nat :=
  fun s => Returns (length (loggers s))
    (mkStore (loggers s ++ [ml]) (arrays s) (maps s) (cells s)).

(** A fresh map with the given content. *)
Definition makeMap (content : gmap string any) : Proc Store mapref :=
  fun s => Returns (Some (length (maps s)))
    (mkStore (loggers s) (arrays s) (maps s ++ [content]) (cells s)).

(** The content of a map; ranging over the nil map finds nothing. *)
Definition mapContent (s : Store) (r : mapref) : gmap string any :=
  match r with
  | Some a => default ∅ (maps s !! a)
  | None => ∅
  end.

Definition readMap (r : mapref) : Proc Store (gmap string any) :=
  fun s => Returns (mapContent s r) s.

(** [r[key] = value]; assignment to an entry in the nil map panics. *)
Definition mapAssign (r : mapref) (key : string) (value : any)
    : Proc Store unit :=
  fun s => match r with
           | Some a =>
               Returns tt
                 (mkStore (loggers s) (arrays s)
                    (<[a := <[key := value]> (mapContent s r)]> (maps s))
                    (cells s))
           | None => Panics "assignment to entry in nil map" s
           end.

(** A fresh backing array. *)
Definition makeArray (data : list LogEntry) : Proc Store nat :=
  fun s => Returns (length (arrays s))
    (mkStore (loggers s) (arrays s ++ [data]) (maps s) (cells s)).

Definition arrayData (s : Store) (a : nat) : list LogEntry :=
  default [] (arrays s !! a).

(** The elements a slice shows: the first [len] slots of its array. *)
Definition sliceElems (s : Store) (sl : slice) : list LogEntry :=
  take (len sl) (arrayData s (array sl)).

Definition readSlice (sl : slice) : Proc Store (list LogEntry) :=
  fun s => Returns (sliceElems s sl) s.

Definition writeSlot (a i : nat) (e : LogEntry) : Proc Store unit :=
  fun s => Returns tt
    (mkStore (loggers s) (<[a := <[i := e]> (arrayData s a)]> (arrays s))
       (maps s) (cells s)).

(** The capacity [growslice] asks for when one element no longer fits
    (the allocator may round it up to a size class, which it does not do
    for the capacities 1, 2, 4, 8 and 16 of this element type). *)
Definition growcap (oldCap newLen : nat) : nat :=
  let doublecap := oldCap + oldCap in
  if (doublecap <? newLen)%nat then newLen
  else if (oldCap <? 256)%nat then doublecap
  else oldCap + (oldCap + 3 * 256) / 4.

(** [append(sl, e)]: with room left the element is written into the
    shared backing array just behind the slice; without, the elements
    move to a new, larger array.  The result is the new header. *)
Definition append (sl : slice) (e : LogEntry) : Proc Store slice :=
  if (len sl <? cap sl)%nat then
    writeSlot (array sl) (len sl) e ;;;
    ret (mkSlice (array sl) (len sl + 1) (cap sl))
  else
    old <- readSlice sl ;;
    let newcap := growcap (cap sl) (len sl + 1) in
    a <- makeArray (old ++ [e] ++ replicate (newcap - (len sl + 1)) zeroEntry) ;;
    ret (mkSlice a (len sl + 1) newcap).

(** A new variable holding [e], and its address. *)
Definition newCell (e : LogEntry) : Proc Store nat :=
  fun s => Returns (length (cells s))
    (mkStore (loggers s) (arrays s) (maps s) (cells s ++ [e])).

(** [*p = e] for a pointer handed out by [newCell]. *)
Definition storeCell (p : nat) (e : LogEntry) : Proc Store unit :=
  fun s => Returns tt
    (mkStore (loggers s) (arrays s) (maps s) (<[p := e]> (cells s))).

Definition loadCell (p : nat) : Proc Store LogEntry :=
  fun s => match cells s !! p with
           | Some e => Returns e s
           | None => Panics nilDeref s
           end.

(** *** The mock logger *)

(** New creates a new MockLogger *)
Definition New : Proc Store nat :=
  a <- makeArray [] ;;
  r <- makeMap ∅ ;;
  newLogger (mkMockLogger (mkSlice a 0 0) r "").

Definition MockLogger_log (m : nat) (level msg : string)
    (keysAndValues : list any) : Proc Store unit :=
  ml <- loadLogger m ;;
  (* Copy attrs *)
  content <- readMap (attrs ml) ;;
  attrs' <- makeMap content ;;
  entries <- append (Entries ml)
               (mkLogEntry level msg keysAndValues attrs' (group ml)) ;;
  storeLogger m (mkMockLogger entries (attrs ml) (group ml)).

Definition MockLogger_Trace (m : nat) (msg : string) (kvs : list any)
  : Proc Store unit := MockLogger_log m "trace" msg kvs.
Definition MockLogger_Debug (m : nat) (msg : string) (kvs : list any)
  : Proc Store unit := MockLogger_log m "debug" msg kvs.
Definition MockLogger_Info (m : nat) (msg : string) (kvs : list any)
  : Proc Store unit := MockLogger_log m "info" msg kvs.
Definition MockLogger_Warn (m : nat) (msg : string) (kvs : list any)
  : Proc Store unit := MockLogger_log m "warn" msg kvs.
Definition MockLogger_Error (m : nat) (msg : string) (kvs : list any)
  : Proc Store unit := MockLogger_log m "error" msg kvs.
Definition MockLogger_Fatal (m : nat) (msg : string) (kvs : list any)
  : Proc Store unit := MockLogger_log m "fatal" msg kvs.

Definition MockLogger_With (m : nat) (key : string) (value : any)
    : Proc Store nat :=
  ml <- loadLogger m ;;
  content <- readMap (attrs ml) ;;
  newAttrs <- makeMap (<[key := value]> content) ;;
  newLogger (mkMockLogger (Entries ml) newAttrs (group ml)).

Definition MockLogger_WithError (m : nat) (err : error) : Proc Store nat :=
  MockLogger_With m "error" (AString (Error_text err)).

Definition MockLogger_WithGroup (m : nat) (group' : string) : Proc Store nat :=
  ml <- loadLogger m ;;
  content <- readMap (attrs ml) ;;
  newAttrs <- makeMap content ;;
  newLogger (mkMockLogger (Entries ml) newAttrs group').

(** Reset clears all captured log entries *)
Definition MockLogger_Reset (m : nat) : Proc Store unit :=
  ml <- loadLogger m ;;
  a <- makeArray [] ;;
  storeLogger m (mkMockLogger (mkSlice a 0 0) (attrs ml) (group ml)).

(** GetEntries returns a copy of all log entries *)
Definition MockLogger_GetEntries (m : nat) : Proc Store (list LogEntry) :=
  ml <- loadLogger m ;;
  readSlice (Entries ml).

(** HasEntry checks if an entry with the given level and message exists *)
Definition MockLogger_HasEntry (m : nat) (level message : string)
    : Proc Store bool :=
  ml <- loadLogger m ;;
  entries <- readSlice (Entries ml) ;;
  ret (existsb (fun entry => String.eqb (Level entry) level
                             && String.eqb (Message entry) message) entries).

(** CountEntries returns the number of log entries with the given level *)
Definition MockLogger_CountEntries (m : nat) (level : string)
    : Proc Store nat :=
  ml <- loadLogger m ;;
  entries <- readSlice (Entries ml) ;;
  ret (fold_left (fun count entry =>
                    if String.eqb (Level entry) level then count + 1 else count)
         entries 0).

(** LastEntry returns the last log entry, or nil if no entries *)
Definition MockLogger_LastEntry (m : nat) : Proc Store (option nat) :=
  ml <- loadLogger m ;;
  if (len (Entries ml) =? 0)%nat then ret None
  else
    fun s =>
      match arrayData s (array (Entries ml)) !! (len (Entries ml) - 1) with
      | Some entry => (p <- newCell entry ;; ret (Some p)) s
      | None => Panics outOfRange s
      end.

#[export] Instance MockLogger_is_Logger : logger.Logger nat Store := {
  logger.Trace := MockLogger_Trace;
  logger.Debug := MockLogger_Debug;
  logger.Info := MockLogger_Info;
  logger.Warn := MockLogger_Warn;
  logger.Error := MockLogger_Error;
  logger.Fatal := MockLogger_Fatal;
  logger.With := MockLogger_With;
  logger.WithError := MockLogger_WithError;
  logger.WithGroup := MockLogger_WithGroup
}.

End logtesting.

(** ** Package logzerolog (the zerolog adapter)

    zerolog is an engine outside these sources.  What the adapter uses
    of it is kept: a logger has a minimum level and a context of bound
    fields; a leveled call opens an event, or the nil event below the
    minimum level; fields are added to the event in call order; [Msg]
    sends the event off.  What the engine then prints (and the time
    stamp it adds on the way) is not modelled: the world records the
    event that was sent. *)

Module logzerolog.

(** [zerolog.Level] *)
Definition TraceLevel : Z := (-1)%Z.
Definition DebugLevel : Z := 0%Z.
Definition InfoLevel : Z := 1%Z.
Definition WarnLevel : Z := 2%Z.
Definition ErrorLevel : Z := 3%Z.
Definition FatalLevel : Z := 4%Z.
Definition PanicLevel : Z := 5%Z.

Definition Field : Type := (string * any)%type.

(** [zerolog.Logger]: the output it was created on (and whether through a
    [ConsoleWriter]), its level and its context. *)
Record zerolog_Logger : Type := mkZerolog {
  out : Writer;
  console : bool;
  level : Z;
  context : list Field
}.

(** An event that was sent: where to, at which level, with which fields
    (context first) and message. *)
Record Sent : Type := mkSent {
  sentTo : Writer;
  sentConsole : bool;
  sentLevel : Z;
  sentFields : list Field;
  sentMessage : string
}.

Definition ZWorld : Type := list Sent.

(** [*zerolog.Event]: [None] is the nil event of a disabled level, on
    which every method does nothing. *)
Record EventData : Type := mkEvent {
  evLogger : zerolog_Logger;
  evLevel : Z;
  evFields : list Field
}.
Definition Event : Type := option EventData.

(** [l.Trace()], [l.Debug()], ...: [newEvent] *)
Definition newEvent (l : zerolog_Logger) (lvl : Z) : Event :=
  if (level l <=? lvl)%Z then Some (mkEvent l lvl []) else None.

(** [e.Interface(key, value)] *)
Definition Event_Interface (e : Event) (key : string) (value : any) : Event :=
  match e with
  | Some d => Some (mkEvent (evLogger d) (evLevel d) (evFields d ++ [(key, value)]))
  | None => None
  end.

(** [e.Msg(msg)] *)
Definition Event_Msg (e : Event) (msg : string) : Proc ZWorld unit :=
  match e with
  | Some d =>
      modify (fun w => w ++ [mkSent (out (evLogger d)) (console (evLogger d))
                               (evLevel d)
                               (context (evLogger d) ++ evFields d) msg])
  | None => ret tt
  end.

(** [l.With().Interface(key, value).Logger()] and its relatives: a copy
    of the logger whose context has one more field. *)
Definition withField (l : zerolog_Logger) (f : Field) : zerolog_Logger :=
  mkZerolog (out l) (console l) (level l) (context l ++ [f]).

(** ZerologLogger wraps zerolog.Logger to implement the logger.Logger
    interface *)
Record ZerologLogger : Type := mkZerologLogger { logger : zerolog_Logger }.

Record Config : Type := mkConfig {
  Level : string;
  Format : string;
  Writer_ : option Writer
}.

Definition parseLevel (level : string) : Z :=
  let l := ToLower level in
  if String.eqb l "trace" then TraceLevel
  else if String.eqb l "debug" then DebugLevel
  else if String.eqb l "info" then InfoLevel
  else if String.eqb l "warn" || String.eqb l "warning" then WarnLevel
  else if String.eqb l "error" then ErrorLevel
  else if String.eqb l "fatal" then FatalLevel
  else if String.eqb l "panic" then PanicLevel
  else InfoLevel.

(** New creates a new ZerologLogger with the given configuration *)
Definition New (cfg : Config) : ZerologLogger :=
  let cfg_Writer := match Writer_ cfg with None => Stdout | Some w => w end in
  let cfg_Format := if String.eqb (Format cfg) "" then "console" else Format cfg in
  let cfg_Level := if String.eqb (Level cfg) "" then "info" else Level cfg in
  let level := parseLevel cfg_Level in
  mkZerologLogger
    (mkZerolog cfg_Writer (String.eqb cfg_Format "console") level []).

(** The loop of [log] over the key/value pairs: [i] advances by two, a
    pair is looked at only when its value exists ([i+1 < len]), and a key
    that is not a string is passed over. *)
Fixpoint addPairs (event : Event) (keysAndValues : list any) : Event :=
  match keysAndValues with
  | k :: v :: rest =>
      let event := match k with
                   | AString key => Event_Interface event key v
                   | _ => event
                   end in
      addPairs event rest
  | _ => event
  end.

Definition ZerologLogger_log (event : Event) (msg : string)
    (keysAndValues : list any) : Proc ZWorld unit :=
  Event_Msg (addPairs event keysAndValues) msg.

Definition ZerologLogger_Trace (l : ZerologLogger) (msg : string)
    (keysAndValues : list any) : Proc ZWorld unit :=
  ZerologLogger_log (newEvent (logger l) TraceLevel) msg keysAndValues.

Definition ZerologLogger_Debug (l : ZerologLogger) (msg : string)
    (keysAndValues : list any) : Proc ZWorld unit :=
  ZerologLogger_log (newEvent (logger l) DebugLevel) msg keysAndValues.

Definition ZerologLogger_Info (l : ZerologLogger) (msg : string)
    (keysAndValues : list any) : Proc ZWorld unit :=
  ZerologLogger_log (newEvent (logger l) InfoLevel) msg keysAndValues.

Definition ZerologLogger_Warn (l : ZerologLogger) (msg : string)
    (keysAndValues : list any) : Proc ZWorld unit :=
  ZerologLogger_log (newEvent (logger l) WarnLevel) msg keysAndValues.

Definition ZerologLogger_Error (l : ZerologLogger) (msg : string)
    (keysAndValues : list any) : Proc ZWorld unit :=
  ZerologLogger_log (newEvent (logger l) ErrorLevel) msg keysAndValues.

Definition ZerologLogger_With (l : ZerologLogger) (key : string) (value : any)
    : ZerologLogger :=
  mkZerologLogger (withField (logger l) (key, value)).

Definition ZerologLogger_WithError (l : ZerologLogger) (err : error)
    : ZerologLogger :=
  mkZerologLogger (withField (logger l) ("error", AError err)).

Definition ZerologLogger_WithGroup (l : ZerologLogger) (group : string)
    : ZerologLogger :=
  mkZerologLogger (withField (logger l) ("group", AString group)).

(** The five leveled calls the adapter defines. *)
Inductive Leveled : Type := LTrace | LDebug | LInfo | LWarn | LError.

Definition levelOf (op : Leveled) : Z :=
  match op with
  | LTrace => TraceLevel | LDebug => DebugLevel | LInfo => InfoLevel
  | LWarn => WarnLevel | LError => ErrorLevel
  end.

Definition leveled (op : Leveled) (l : ZerologLogger) (msg : string)
    (keysAndValues : list any) : Proc ZWorld unit :=
  match op with
  | LTrace => ZerologLogger_Trace l msg keysAndValues
  | LDebug => ZerologLogger_Debug l msg keysAndValues
  | LInfo => ZerologLogger_Info l msg keysAndValues
  | LWarn => ZerologLogger_Warn l msg keysAndValues
  | LError => ZerologLogger_Error l msg keysAndValues
  end.

End logzerolog.

(** ** Package main of the example application

    The part of the example that takes a logger from its caller: the
    service that accepts the [logger.Logger] interface. *)

Module example.

Section Service.
Context {L W : Type} `{logger.Logger L W}.

(** The [logger.Logger] interface value the service holds: the
    [NullLogger] that [NewUserService] puts in the place of nil, or a
    logger of the caller's type. *)
Inductive Iface : Type :=
| INull (n : logger.NullLogger)
| IGiven (l : L).

#[export] Instance Iface_is_Logger : logger.Logger Iface W := {
  logger.Trace i msg kvs :=
    match i with
    | INull n => logger.NullLogger_Trace n msg kvs
    | IGiven l => logger.Trace l msg kvs
    end;
  logger.Debug i msg kvs :=
    match i with
    | INull n => logger.NullLogger_Debug n msg kvs
    | IGiven l => logger.Debug l msg kvs
    end;
  logger.Info i msg kvs :=
    match i with
    | INull n => logger.NullLogger_Info n msg kvs
    | IGiven l => logger.Info l msg kvs
    end;
  logger.Warn i msg kvs :=
    match i with
    | INull n => logger.NullLogger_Warn n msg kvs
    | IGiven l => logger.Warn l msg kvs
    end;
  logger.Error i msg kvs :=
    match i with
    | INull n => logger.NullLogger_Error n msg kvs
    | IGiven l => logger.Error l msg kvs
    end;
  logger.Fatal i msg kvs :=
    match i with
    | INull n => logger.NullLogger_Fatal n msg kvs
    | IGiven l => logger.Fatal l msg kvs
    end;
  logger.With i key value :=
    match i with
    | INull n => n' <- logger.NullLogger_With n key value ;; ret (INull n')
    | IGiven l => l' <- logger.With l key value ;; ret (IGiven l')
    end;
  logger.WithError i err :=
    match i with
    | INull n => n' <- logger.NullLogger_WithError n err ;; ret (INull n')
    | IGiven l => l' <- logger.WithError l err ;; ret (IGiven l')
    end;
  logger.WithGroup i group :=
    match i with
    | INull n => n' <- logger.NullLogger_WithGroup n group ;; ret (INull n')
    | IGiven l => l' <- logger.WithGroup l group ;; ret (IGiven l')
    end
}.

(** Example: A service that accepts the logger interface *)
Record UserService : Type := mkUserService { log : Iface }.

(** [log] is [None] for the nil interface value. *)
Definition NewUserService (log : option L) : Proc W UserService :=
  let log := match log with
             | None => INull logger.NewNullLogger
             | Some l => IGiven l
             end in
  l <- logger.WithGroup log "user-service" ;;
  ret (mkUserService l).

(** [fmt.Errorf("invalid user ID")] *)
Definition invalidUserID : error := mkError "invalid user ID".

Definition Login (s : UserService) (userID : Z) (username : string)
    : Proc W (option error) :=
  logger.Info (log s) "user logging in"
    [AString "user_id"; AInt userID; AString "username"; AString username] ;;;
  (* Simulate error *)
  if (userID =? 0)%Z then
    let err := invalidUserID in
    l <- logger.WithError (log s) err ;;
    logger.Error l "login failed" [] ;;;
    ret (Some err)
  else
    logger.Info (log s) "login successful" [AString "user_id"; AInt userID] ;;;
    ret None.

End Service.

Arguments Iface : clear implicits.
Arguments UserService : clear implicits.

End example.

(** * Specification-side definitions

    The definitions below do not come from the sources: they say, in the
    words of the specification, what the code above is compared with. *)

(** One printed pair: a space, the key in cyan, [=], the value's text. *)
Definition pairText (path : list string) (v : Value) : string :=
  " " +:+ ESC +:+ "[36m" +:+ Join path "." +:+ ESC +:+ "[0m=" +:+ Value_String v.

(** The leaves of an attribute: every value below it that is not itself a
    group, with the names on the way to it, outermost first and its own
    key last. *)
Fixpoint leaves (path : list string) (a : Attr) {struct a}
    : list (list string * Value) :=
  match Val a with
  | GroupValue g =>
      (fix each (g : list Attr) : list (list string * Value) :=
         match g with
         | [] => []
         | x :: g' => leaves (path ++ [Key a]) x ++ each g'
         end) g
  | v => [(path ++ [Key a], v)]
  end.

Definition leavesOf (path : list string) (attrs : list Attr)
    : list (list string * Value) :=
  flat_map (leaves path) attrs.

Definition pairsText (ps : list (list string * Value)) : string :=
  String.concat "" (map (fun p => pairText (fst p) (snd p)) ps).

(** A piece of text between a colour code and the reset code. *)
Definition sgr (code : string) (text : string) : string :=
  ESC +:+ "[" +:+ code +:+ "m" +:+ text +:+ ESC +:+ "[0m".

(** The visible text of a line: what is left when every colour sequence
    (ESC, then everything up to and including the next [m]) is taken
    out. *)
Fixpoint visibleFrom (inside : bool) (s : string) : string :=
  match s with
  | EmptyString => EmptyString
  | String c rest =>
      if inside then
        if Ascii.eqb c "m"%char then visibleFrom false rest
        else visibleFrom true rest
      else if Ascii.eqb c "027"%char then visibleFrom true rest
      else String c (visibleFrom false rest)
  end.

Definition visibleText (s : string) : string := visibleFrom false s.

(** The first attribute bound under a key. *)
Definition firstUnder (key : string) (attrs : list Attr) : option Attr :=
  List.find (fun a => String.eqb (Key a) key) attrs.

Definition textUnder (key : string) (attrs : list Attr) : string :=
  match firstUnder key attrs with
  | Some a => Value_String (Val a)
  | None => ""
  end.

(** The group as the specification locates it: among the handler-level
    attributes first and, only if none of them matches, among the
    call-time attributes; the first match wins. *)
Definition locatedGroup (groupFieldName : string)
    (handlerAttrs callAttrs : list Attr) : option string :=
  match firstUnder groupFieldName handlerAttrs with
  | Some a => Some (Value_String (Val a))
  | None =>
      match firstUnder groupFieldName callAttrs with
      | Some a => Some (Value_String (Val a))
      | None => None
      end
  end.

(** The group with an empty text counting as no group: the text of the
    first handler-level match, and when that is empty or missing, the
    text of the first call-time match. *)
Definition shownGroup (groupFieldName : string)
    (handlerAttrs callAttrs : list Attr) : string :=
  if String.eqb (textUnder groupFieldName handlerAttrs) ""
  then textUnder groupFieldName callAttrs
  else textUnder groupFieldName handlerAttrs.

(** The bracketed group, with the space that follows it. *)
Definition bracket (name : string) : string :=
  sgr "36" ("[" +:+ name +:+ "]") +:+ " ".

Definition bracketIfAny (name : string) : string :=
  if String.eqb name "" then "" else bracket name.

(** Timestamp and level code, each followed by a space. *)
Definition lineHead (t : Time) (level : Z) : string :=
  sgr "90" (Time_Format t) +:+ " " +:+
  (logslog.getLevelColor level +:+ logslog.getLevelString level +:+ ESC +:+ "[0m")
  +:+ " ".

Definition notUnder (key : string) (a : Attr) : bool :=
  negb (String.eqb (Key a) key).

(** The pairs printed for a list of attributes: those under the group
    field are left out, the others are flattened. *)
Definition attrsText (groupFieldName : string) (groups : list string)
    (attrs : list Attr) : string :=
  pairsText (leavesOf groups (List.filter (notUnder groupFieldName) attrs)).

(** A console line around a given group segment. *)
Definition lineWith (groupText : string) (h : logslog.ConsoleHandler)
    (r : slog_Record) : string :=
  lineHead (rTime r) (rLevel r) +:+ groupText +:+ rMessage r +:+
  attrsText (logslog.groupFieldName h) (logslog.groups h) (logslog.attrs h) +:+
  attrsText (logslog.groupFieldName h) (logslog.groups h) (rAttrs r) +:+ LF.

(** The line as the specification's lookup would have it. *)
Definition claimedLine (h : logslog.ConsoleHandler) (r : slog_Record) : string :=
  lineWith
    (match locatedGroup (logslog.groupFieldName h) (logslog.attrs h) (rAttrs r) with
     | Some name => bracket name
     | None => ""
     end) h r.

(** The line with the group the handler shows. *)
Definition shownLine (h : logslog.ConsoleHandler) (r : slog_Record) : string :=
  lineWith
    (bracketIfAny (shownGroup (logslog.groupFieldName h) (logslog.attrs h) (rAttrs r)))
    h r.

(** The world after one more [Write] call. *)
Definition wrote (w : World) (to : Writer) (p : string) : World :=
  mkWorld (now w) (sinkErr w) (writes w ++ [(to, p)]).

(** *** What [New] makes of a configuration *)

Definition cfgWriter (cfg : logslog.Config) : Writer :=
  match logslog.Writer_ cfg with None => Stdout | Some w => w end.

(** The minimum level: parsed from the level string, [info] when the
    string is absent. *)
Definition cfgMinLevel (cfg : logslog.Config) : Z :=
  logslog.parseLevel
    (if String.eqb (logslog.Level cfg) "" then "info" else logslog.Level cfg).

Definition cfgGroupField (cfg : logslog.Config) : string :=
  if String.eqb (logslog.GroupFieldName cfg) "" then "_group"
  else logslog.GroupFieldName cfg.

(** Every format but [json] selects the console handler. *)
Definition cfgConsole (cfg : logslog.Config) : bool :=
  negb (String.eqb (logslog.Format cfg) "json").

Definition cfgOptions (cfg : logslog.Config) : HandlerOptions :=
  mkOptions (Some (cfgMinLevel cfg)) (Some logslog.replaceAttr).

Definition cfgHandler (cfg : logslog.Config) : logslog.ConsoleHandler :=
  logslog.NewConsoleHandler (cfgWriter cfg) (Some (cfgOptions cfg))
    (cfgGroupField cfg).

(** A logger over a console handler, as [New] and the derivations build
    it. *)
Definition consoleLogger {E : JSONEngine} (h : logslog.ConsoleHandler)
    : logslog.SlogLogger :=
  logslog.mkSlogLogger (mkLogger (logslog.Console h)) (logslog.groupFieldName h).

(** The attribute a derivation binds. *)
Definition boundAttr (groupFieldName : string) (op : logger.Derive) : Attr :=
  match op with
  | logger.OpWith key value => slog_Any key value
  | logger.OpWithError err => slog_Any "error" (AError err)
  | logger.OpWithGroup group => mkAttr groupFieldName (StringValue group)
  end.

(** The handler after a chain of derivations. *)
Definition bindAll (h : logslog.ConsoleHandler) (ops : list logger.Derive)
    : logslog.ConsoleHandler :=
  logslog.mkConsoleHandler (logslog.opts h) (logslog.writer h)
    (logslog.attrs h ++ map (boundAttr (logslog.groupFieldName h)) ops)
    (logslog.groups h) (logslog.groupFieldName h).

Definition emitLevel (op : logger.Emit) : Z :=
  match op with
  | logger.OpTrace => logslog.LevelTrace
  | logger.OpDebug => LevelDebug
  | logger.OpInfo => LevelInfo
  | logger.OpWarn => LevelWarn
  | logger.OpError => LevelError
  | logger.OpFatal => logslog.LevelFatal
  end.

(** A derivation that does not bind the group field. *)
Definition keepsOut (groupFieldName : string) (op : logger.Derive) : bool :=
  notUnder groupFieldName (boundAttr groupFieldName op).

(** The name of the earliest [WithGroup] call of a chain. *)
Fixpoint earliestGroup (ops : list logger.Derive) : option string :=
  match ops with
  | [] => None
  | logger.OpWithGroup group :: _ => Some group
  | _ :: ops' => earliestGroup ops'
  end.

(** The level names [parseLevel] knows. *)
Definition levelNames : list string :=
  ["trace"; "debug"; "info"; "warn"; "warning"; "error"; "fatal"].

(** The level string [New] parses: [info] when the field is empty. *)
Definition cfgLevelString (cfg : logslog.Config) : string :=
  if String.eqb (logslog.Level cfg) "" then "info" else logslog.Level cfg.

(** The standard library's handler returns or panics; it does not end
    the process. *)
Definition engineNeverExits (E : JSONEngine) : Prop :=
  (forall h r w, exit_code (stdJSON_Handle h r w) = None)
  /\ (forall h a w, exit_code (stdJSON_WithAttrs h a w) = None).

(** The pairs of a key/value sequence as the specification reads it: a
    pair whose key is not a string is skipped, and so is a key left
    without a value at the end. *)
Fixpoint wellFormedPairs (keysAndValues : list any) : list (string * any) :=
  match keysAndValues with
  | AString key :: v :: rest => (key, v) :: wellFormedPairs rest
  | _ :: _ :: rest => wellFormedPairs rest
  | _ => []
  end.

(** The same reading, as attributes. *)
Definition wellFormedAttrs (keysAndValues : list any) : list Attr :=
  map (fun p => slog_Any (fst p) (snd p)) (wellFormedPairs keysAndValues).

(** The default zerolog configuration. *)
Definition defaultZConfig : logzerolog.Config := logzerolog.mkConfig "" "" None.

(** The record [Logger.Log] builds for a call. *)
Definition recordOf (w : World) (level : Z) (msg : string) (args : list any)
    : slog_Record :=
  Record_Add (NewRecord (now w) level msg) args.

(** *** The capturing backend *)

(** A slice is well formed in a store when its backing array exists and
    has room for its capacity. *)
Definition wfSlice (s : logtesting.Store) (sl : logtesting.slice) : Prop :=
  logtesting.array sl < length (logtesting.arrays s)
  /\ logtesting.len sl <= logtesting.cap sl
  /\ logtesting.cap sl <= length (logtesting.arrayData s (logtesting.array sl)).

(** A map value is well formed when it is nil or exists in the store. *)
Definition wfMap (s : logtesting.Store) (r : logtesting.mapref) : Prop :=
  match r with
  | Some a => a < length (logtesting.maps s)
  | None => True
  end.

(** [s'] has everything [s] has, unchanged, and possibly more loggers
    and maps. *)
Definition extends (s s' : logtesting.Store) : Prop :=
  (exists L, logtesting.loggers s' = logtesting.loggers s ++ L)
  /\ (exists M, logtesting.maps s' = logtesting.maps s ++ M)
  /\ logtesting.arrays s' = logtesting.arrays s
  /\ logtesting.cells s' = logtesting.cells s.

(** What an emission through the logger at [m] leaves alone: the other
    loggers, the well-formedness of slices, and the existing maps. *)
Definition logFrame (s s' : logtesting.Store) (m : nat) : Prop :=
  (forall m', m' <> m -> logtesting.loggers s' !! m' = logtesting.loggers s !! m')
  /\ (forall sl, wfSlice s sl -> wfSlice s' sl)
  /\ (forall r, wfMap s r ->
        wfMap s' r /\ logtesting.mapContent s' r = logtesting.mapContent s r).

(** What an assertion reads from an entry: its fields, with the content
    of its attribute map. *)
Definition entryView (s : logtesting.Store) (e : logtesting.LogEntry)
    : string * string * list any * gmap string any * string :=
  (logtesting.Level e, logtesting.Message e, logtesting.KeysAndValues e,
   logtesting.mapContent s (logtesting.Attrs e), logtesting.Group e).

(** The attribute a derivation adds to the mock logger's map. *)
Definition bindInto (content : gmap string any) (op : logger.Derive)
    : gmap string any :=
  match op with
  | logger.OpWith key value => <[key := value]> content
  | logger.OpWithError err => <["error" := AString (Error_text err)]> content
  | logger.OpWithGroup _ => content
  end.

(** The store after [New()] on the empty store: one logger at address 0. *)
Definition freshMockStore : logtesting.Store :=
  world_of (logtesting.New logtesting.emptyStore).

(** [m := New(); c := m.With("a", 1); c.Info("x"); m.Info("y")], then
    the queries on either logger for the other's entry. *)
Definition parentAndChild : Proc logtesting.Store (bool * bool * nat * nat) :=
  m <- logtesting.New ;;
  c <- logtesting.MockLogger_With m "a" (AInt 1) ;;
  logtesting.MockLogger_Info c "x" [] ;;;
  logtesting.MockLogger_Info m "y" [] ;;;
  parentSeesX <- logtesting.MockLogger_HasEntry m "info" "x" ;;
  childSeesY <- logtesting.MockLogger_HasEntry c "info" "y" ;;
  parentCount <- logtesting.MockLogger_CountEntries m "info" ;;
  childCount <- logtesting.MockLogger_CountEntries c "info" ;;
  ret (parentSeesX, childSeesY, parentCount, childCount).

(** Three entries leave room for a fourth in the backing array.  Then
    [a := m.With("a", 1); b := m.With("b", 2); a.Info("x"); b.Info("y")]
    and [a.LastEntry()]: message and attributes of what [a] shows last. *)
Definition siblingsShareSlot
    : Proc logtesting.Store (option (string * list (string * any))) :=
  m <- logtesting.New ;;
  logtesting.MockLogger_Info m "1" [] ;;;
  logtesting.MockLogger_Info m "2" [] ;;;
  logtesting.MockLogger_Info m "3" [] ;;;
  a <- logtesting.MockLogger_With m "a" (AInt 1) ;;
  b <- logtesting.MockLogger_With m "b" (AInt 2) ;;
  logtesting.MockLogger_Info a "x" [] ;;;
  logtesting.MockLogger_Info b "y" [] ;;;
  p <- logtesting.MockLogger_LastEntry a ;;
  match p with
  | Some p =>
      e <- logtesting.loadCell p ;;
      content <- logtesting.readMap (logtesting.Attrs e) ;;
      ret (Some (logtesting.Message e, map_to_list content))
  | None => ret None
  end.

(** [m := New(); m.Info("x"); e := m.LastEntry(); e.Attrs["k"] = 1]:
    the captured entries as an assertion reads them, before and after
    the assignment. *)
Definition writeThroughLastEntry
    : Proc logtesting.Store
        (list (string * string * list any * list (string * any) * string)
         * list (string * string * list any * list (string * any) * string)) :=
  let views :=
    (entries <- logtesting.MockLogger_GetEntries 0 ;;
     s <- get ;;
     ret (map (fun e => let '(l, m, k, a, g) := entryView s e in
                        (l, m, k, map_to_list a, g)) entries)) in
  m <- logtesting.New ;;
  logtesting.MockLogger_Info m "x" [] ;;;
  before <- views ;;
  p <- logtesting.MockLogger_LastEntry m ;;
  match p with
  | Some p =>
      e <- logtesting.loadCell p ;;
      logtesting.mapAssign (logtesting.Attrs e) "k" (AInt 1) ;;;
      after <- views ;;
      ret (before, after)
  | None => ret (before, before)
  end.

(** *** Concrete values for the examples *)

Definition exampleTime : Time := mkTime 2025 October 15 12 23 "AWST".

Definition exampleWorld : World := mkWorld exampleTime (fun _ => None) [].

(** An engine to run examples with; the console format never reaches it. *)
Definition exampleEngine : JSONEngine := {|
  stdJSONHandler := unit;
  NewJSONHandler := fun _ _ => tt;
  stdJSON_Enabled := fun _ _ => false;
  stdJSON_Handle := fun _ _ => ret None;
  stdJSON_WithAttrs := fun _ _ => ret tt;
  stdJSON_WithGroup := fun _ _ => tt
|}.

Definition defaultConfig : logslog.Config := logslog.mkConfig "" "" None "".

(** A handler to which the empty group name was bound, and a record that
    brings a group of its own. *)
Definition emptyGroupHandler : logslog.ConsoleHandler :=
  logslog.mkConsoleHandler (mkOptions (Some LevelInfo) None) Stdout
    [mkAttr "_group" (StringValue "")] [] "_group".

Definition groupedRecord : slog_Record :=
  mkRecord exampleTime "m" LevelInfo [mkAttr "_group" (StringValue "x")].

(** The store after [m := New(); m.Info("x")]. *)
Definition oneEntryStore : logtesting.Store :=
  world_of ((m <- logtesting.New ;; logtesting.MockLogger_Info m "x" [])
              logtesting.emptyStore).

(** A handler bound to the group [svc], one without any attribute, and a
    record without attributes. *)
Definition svcHandler : logslog.ConsoleHandler :=
  logslog.mkConsoleHandler (mkOptions (Some LevelInfo) None) Stdout
    [mkAttr "_group" (StringValue "svc")] [] "_group".

Definition plainHandler : logslog.ConsoleHandler :=
  logslog.mkConsoleHandler (mkOptions (Some LevelInfo) None) Stdout [] [] "_group".

Definition plainRecord : slog_Record := mkRecord exampleTime "m" LevelInfo [].

(** *** Runs of calls through one logger *)

(** The level a method of the contract stands for in a captured entry:
    its own name in lower case. *)
Definition levelName (op : logger.Emit) : string :=
  match op with
  | logger.OpTrace => "trace"
  | logger.OpDebug => "debug"
  | logger.OpInfo => "info"
  | logger.OpWarn => "warn"
  | logger.OpError => "error"
  | logger.OpFatal => "fatal"
  end.

(** One emission: the method, the message and the key/value sequence. *)
Definition Call : Type := (logger.Emit * string * list any)%type.

(** The calls of a list, one after the other, through the same logger. *)
Fixpoint emitAll {L W} `{logger.Logger L W} (calls : list Call) (l : L)
    : Proc W unit :=
  match calls with
  | [] => ret tt
  | (op, msg, kvs) :: calls' =>
      logger.emit op l msg kvs ;;; emitAll calls' l
  end.

(** What an assertion should read from the entry of a call made through
    a logger whose attributes are [content] and whose group is [g]. *)
Definition callView (content : gmap string any) (g : string) (c : Call)
    : string * string * list any * gmap string any * string :=
  let '(op, msg, kvs) := c in (levelName op, msg, kvs, content, g).

(** The number of entries of a level, and whether an entry of a level
    with a message is there, as one reads them off a list of entries. *)
Definition atLevel (level : string) (e : logtesting.LogEntry) : bool :=
  String.eqb (logtesting.Level e) level.

Definition isEntry (level message : string) (e : logtesting.LogEntry) : bool :=
  String.eqb (logtesting.Level e) level
  && String.eqb (logtesting.Message e) message.

Definition callAt (level : string) (c : Call) : bool :=
  String.eqb (levelName (fst (fst c))) level.

Definition callIs (level message : string) (c : Call) : bool :=
  String.eqb (levelName (fst (fst c))) level && String.eqb (snd (fst c)) message.



(** A slice that an append behind [behind] does not reach: it lies over
    another array, or ends at or before the place appended to. *)
Definition outOfReach (behind sl : logtesting.slice) : Prop :=
  logtesting.array sl <> logtesting.array behind
  \/ logtesting.len sl <= logtesting.len behind.

(** The group a chain of derivations ends with: the name of its last
    [WithGroup], or the receiver's group when it has none. *)
Definition lastGroup (ops : list logger.Derive) (g : string) : string :=
  fold_left (fun g op => match op with
                         | logger.OpWithGroup g' => g'
                         | _ => g
                         end) ops g.

(** The key and the value a derivation binds in the capturing backend,
    if it binds one. *)
Definition mockBinding (op : logger.Derive) : option (string * any) :=
  match op with
  | logger.OpWith key value => Some (key, value)
  | logger.OpWithError err => Some ("error", AString (Error_text err))
  | logger.OpWithGroup _ => None
  end.

(** The value the last derivation binding [key] gave it, [v] if none did. *)
Definition lastBound (key : string) (ops : list logger.Derive)
    (v : option any) : option any :=
  fold_left (fun v op => match mockBinding op with
                         | Some (k, x) => if String.eqb k key then Some x else v
                         | None => v
                         end) ops v.

(** [m.log(level, msg, kvs...); e := m.LastEntry(); e.Attrs[key] = value]
    and the entry [e] the returned pointer leads to. *)
Definition writeIntoLastEntry (m : nat) (level msg : string) (kvs : list any)
    (key : string) (value : any)
    : Proc logtesting.Store (option logtesting.LogEntry) :=
  logtesting.MockLogger_log m level msg kvs ;;;
  p <- logtesting.MockLogger_LastEntry m ;;
  match p with
  | Some p =>
      e <- logtesting.loadCell p ;;
      logtesting.mapAssign (logtesting.Attrs e) key value ;;;
      ret (Some e)
  | None => ret None
  end.

(** *** Level names and key/value sequences *)

(** A string of ASCII bytes only, and a string with its upper-case ASCII
    letters turned to lower case. *)
Fixpoint asciiOnly (s : string) : bool :=
  match s with
  | EmptyString => true
  | String c rest => (nat_of_ascii c <? 128)%nat && asciiOnly rest
  end.

Fixpoint foldCase (s : string) : string :=
  match s with
  | EmptyString => EmptyString
  | String c rest => String (lower_ascii c) (foldCase rest)
  end.

(** The method of the contract behind a leveled call of the zerolog
    adapter. *)
Definition leveledEmit (op : logzerolog.Leveled) : logger.Emit :=
  match op with
  | logzerolog.LTrace => logger.OpTrace
  | logzerolog.LDebug => logger.OpDebug
  | logzerolog.LInfo => logger.OpInfo
  | logzerolog.LWarn => logger.OpWarn
  | logzerolog.LError => logger.OpError
  end.

(** The level string the zerolog [New] parses, its writer and whether
    it writes through a console writer. *)
Definition zcfgLevelString (cfg : logzerolog.Config) : string :=
  if String.eqb (logzerolog.Level cfg) "" then "info" else logzerolog.Level cfg.

Definition zcfgWriter (cfg : logzerolog.Config) : Writer :=
  match logzerolog.Writer_ cfg with None => Stdout | Some w => w end.

Definition zcfgConsole (cfg : logzerolog.Config) : bool :=
  String.eqb (logzerolog.Format cfg) ""
  || String.eqb (logzerolog.Format cfg) "console".


(** A derivation on the zerolog adapter, and the field it binds. *)
Definition zderive (l : logzerolog.ZerologLogger) (op : logger.Derive)
    : logzerolog.ZerologLogger :=
  match op with
  | logger.OpWith key value => logzerolog.ZerologLogger_With l key value
  | logger.OpWithError err => logzerolog.ZerologLogger_WithError l err
  | logger.OpWithGroup group => logzerolog.ZerologLogger_WithGroup l group
  end.

Definition zfield (op : logger.Derive) : logzerolog.Field :=
  match op with
  | logger.OpWith key value => (key, value)
  | logger.OpWithError err => ("error", AError err)
  | logger.OpWithGroup group => ("group", AString group)
  end.

(** A record with other attributes. *)
Definition withAttrs (r : slog_Record) (attrs : list Attr) : slog_Record :=
  mkRecord (rTime r) (rMessage r) (rLevel r) attrs.

(** *** The console line without its colours *)

(** A text without the escape byte. *)
Fixpoint escFree (s : string) : bool :=
  match s with
  | EmptyString => true
  | String c rest => negb (Ascii.eqb c "027"%char) && escFree rest
  end.

(** One pair, and the pairs of a list, as they read on the terminal. *)
Definition plainPair (path : list string) (v : Value) : string :=
  " " +:+ Join path "." +:+ "=" +:+ Value_String v.

Definition plainPairs (ps : list (list string * Value)) : string :=
  String.concat "" (map (fun p => plainPair (fst p) (snd p)) ps).

(** The pairs a handler prints for a record: its own, then the
    record's. *)
Definition linePairs (h : logslog.ConsoleHandler) (r : slog_Record)
    : list (list string * Value) :=
  leavesOf (logslog.groups h)
    (List.filter (notUnder (logslog.groupFieldName h)) (logslog.attrs h))
  ++ leavesOf (logslog.groups h)
       (List.filter (notUnder (logslog.groupFieldName h)) (rAttrs r)).

(** The line as it reads on the terminal: time, level code, the group in
    brackets if there is one, the message, the pairs. *)
Definition plainLine (h : logslog.ConsoleHandler) (r : slog_Record) : string :=
  let g := shownGroup (logslog.groupFieldName h) (logslog.attrs h) (rAttrs r) in
  Time_Format (rTime r) +:+ " " +:+ logslog.getLevelString (rLevel r) +:+ " " +:+
  (if String.eqb g "" then "" else "[" +:+ g +:+ "] ") +:+
  rMessage r +:+ plainPairs (linePairs h r) +:+ LF.

(** None of the texts that go into the line holds an escape byte. *)
Definition escFreeLine (h : logslog.ConsoleHandler) (r : slog_Record) : bool :=
  escFree (Zone (rTime r))
  && escFree (shownGroup (logslog.groupFieldName h) (logslog.attrs h) (rAttrs r))
  && escFree (rMessage r)
  && forallb (fun p => escFree (Join (fst p) ".")
                       && escFree (Value_String (snd p)))
       (linePairs h r).

(** Whether a logger of the slog backend writes through the console
    handler. *)
Definition isConsole {E : JSONEngine} (l : logslog.SlogLogger) : bool :=
  match handler (logslog.logger l) with
  | logslog.Console _ => true
  | logslog.JSON _ => false
  end.

(** *** More concrete values for the examples *)

(** The store after [m := New(); m.Info("1"); m.Info("2"); m.Info("3")]:
    the logger's backing array of four slots holds three entries. *)
Definition threeEntryStore : logtesting.Store :=
  world_of ((m <- logtesting.New ;;
             logtesting.MockLogger_Info m "1" [] ;;;
             logtesting.MockLogger_Info m "2" [] ;;;
             logtesting.MockLogger_Info m "3" []) logtesting.emptyStore).

(** The store after [m := New(); m.Info("x"); n := New()]. *)
Definition twoLoggerStore : logtesting.Store :=
  world_of ((m <- logtesting.New ;;
             logtesting.MockLogger_Info m "x" [] ;;;
             logtesting.New) logtesting.emptyStore).

(** Induction over an attribute and, through a group value, over the
    attributes inside it. *)
Section AttrInduction.
Variable P : Attr -> Prop.
Hypothesis Hleaf : forall k v, Value_Kind v <> KindGroup -> P (mkAttr k v).
Hypothesis Hgroup : forall k g, Forall P g -> P (mkAttr k (GroupValue g)).

Fixpoint Attr_nested_ind (a : Attr) : P a :=
  match a with
  | mkAttr k v =>
      match v as v0 return P (mkAttr k v0) with
      | GroupValue g =>
          Hgroup k g
            ((fix all (g : list Attr) : Forall P g :=
                match g with
                | [] => @List.Forall_nil _ P
                | x :: g' => @List.Forall_cons _ P x g' (Attr_nested_ind x) (all g')
                end) g)
      | StringValue s => Hleaf k (StringValue s) ltac:(discriminate)
      | Int64Value n => Hleaf k (Int64Value n) ltac:(discriminate)
      | BoolValue b => Hleaf k (BoolValue b) ltac:(discriminate)
      | LevelValue l => Hleaf k (LevelValue l) ltac:(discriminate)
      | OtherValue t => Hleaf k (OtherValue t) ltac:(discriminate)
      end
  end.

End AttrInduction.

(** * Theorems *)

#[local] Arguments String.eqb : simpl never.

Section Strings.

Lemma append_cons (c : ascii) (s t : string) :
  String c s +:+ t = String c (s +:+ t).
Proof. reflexivity. Qed.

Lemma append_nil_l (s : string) : "" +:+ s = s.
Proof. reflexivity. Qed.

Lemma append_nil_r (s : string) : s +:+ "" = s.
Proof.
  induction s as [|c s IH]; [reflexivity | rewrite append_cons; now f_equal].
Qed.

Lemma append_assoc (a b c : string) : (a +:+ b) +:+ c = a +:+ (b +:+ c).
Proof.
  induction a as [|x a IH]; [reflexivity | rewrite !append_cons; now f_equal].
Qed.

Lemma concat_empty_cons (x : string) (xs : list string) :
  String.concat "" (x :: xs) = x +:+ String.concat "" xs.
Proof.
  destruct xs as [|y ys]; simpl; [now rewrite append_nil_r | reflexivity].
Qed.

Lemma concat_empty_app (xs ys : list string) :
  String.concat "" (xs ++ ys) = String.concat "" xs +:+ String.concat "" ys.
Proof.
  induction xs as [|x xs IH]; [reflexivity |].
  change ((x :: xs) ++ ys) with (x :: (xs ++ ys)).
  now rewrite !concat_empty_cons, IH, append_assoc.
Qed.

Lemma Join_snoc (groups : list string) (key : string) :
  groups <> [] ->
  Join (groups ++ [key]) "." = Join groups "." +:+ "." +:+ key.
Proof.
  unfold Join. induction groups as [|g groups IH]; [congruence | intros _].
  destruct groups as [|g' groups']; simpl; [reflexivity |].
  simpl in IH. rewrite IH by congruence. now rewrite !append_assoc.
Qed.

End Strings.

(** Bring both sides of an equation between concatenations to the same
    shape: literals are pushed, character by character, onto what
    follows them. *)
Ltac norm_str :=
  unfold sgr, ESC, LF;
  repeat (rewrite ?append_assoc, ?append_cons, ?append_nil_l).


(** ** The console renderer: nested groups *)

Section Flattening.
Import logslog.

Lemma Join_path (groups : list string) (key : string) :
  (if (0 <? length groups)%nat then Join groups "." +:+ "." +:+ key else key)
  = Join (groups ++ [key]) ".".
Proof.
  destruct groups as [|g groups]; [reflexivity |].
  change (0 <? length (g :: groups))%nat with true. cbv iota.
  symmetry. now apply Join_snoc.
Qed.

Lemma pairsText_cons (p : list string * Value) ps :
  pairsText (p :: ps) = pairText (fst p) (snd p) +:+ pairsText ps.
Proof. unfold pairsText. simpl map. apply concat_empty_cons. Qed.

Lemma pairsText_app ps qs :
  pairsText (ps ++ qs) = pairsText ps +:+ pairsText qs.
Proof. unfold pairsText. rewrite map_app. apply concat_empty_app. Qed.

Lemma appendAttr_leaf buf k v groups :
  Value_Kind v <> KindGroup ->
  appendAttr buf (mkAttr k v) groups = buf +:+ pairText (groups ++ [k]) v.
Proof.
  intros Hk. unfold pairText. rewrite <- Join_path.
  destruct v; try (exfalso; apply Hk; reflexivity);
    simpl; rewrite !append_assoc; reflexivity.
Qed.

Lemma leaves_leaf k v path :
  Value_Kind v <> KindGroup -> leaves path (mkAttr k v) = [(path ++ [k], v)].
Proof.
  intros Hk. destruct v; try reflexivity. exfalso; apply Hk; reflexivity.
Qed.

Lemma leaves_group k g path :
  leaves path (mkAttr k (GroupValue g)) = leavesOf (path ++ [k]) g.
Proof.
  unfold leavesOf. simpl. induction g as [|x g IH]; [reflexivity |].
  simpl. now rewrite IH.
Qed.

Lemma appendAttr_leaves attr :
  forall buf groups,
    appendAttr buf attr groups = buf +:+ pairsText (leaves groups attr).
Proof.
  induction attr as [k v Hk | k g IH] using Attr_nested_ind; intros buf groups.
  - rewrite appendAttr_leaf, leaves_leaf by assumption.
    rewrite pairsText_cons. unfold pairsText. simpl.
    now rewrite append_nil_r.
  - rewrite leaves_group. simpl.
    revert buf. induction IH as [|x g Hx _ IHg]; intros buf.
    + unfold leavesOf, pairsText. simpl. now rewrite append_nil_r.
    + rewrite Hx, IHg. unfold leavesOf. simpl flat_map.
      now rewrite pairsText_app, append_assoc.
Qed.

Lemma leaves_not_group attr :
  forall path,
    Forall (fun p => Value_Kind (snd p) <> KindGroup) (leaves path attr).
Proof.
  induction attr as [k v Hk | k g IH] using Attr_nested_ind; intros path.
  - rewrite leaves_leaf by assumption. repeat constructor. exact Hk.
  - rewrite leaves_group. unfold leavesOf.
    induction IH as [|x g Hx _ IHg]; simpl; [constructor |].
    apply Forall_app. split; [apply Hx | apply IHg].
Qed.

(** C7.  [appendAttr] never prints a group-valued attribute as a pair of
    its own: what it adds to the buffer is one pair per leaf below the
    attribute, in order, each under the dot-joined path of the enclosing
    group names followed by the leaf's key; a leaf two groups deep is
    printed as [outer.inner.key=value]. *)
Theorem appendAttr_flattens_groups (buf : string) (attr : Attr)
    (groups : list string) :
  appendAttr buf attr groups = buf +:+ pairsText (leaves groups attr)
  /\ Forall (fun p => Value_Kind (snd p) <> KindGroup) (leaves groups attr)
  /\ (forall key g, attr = mkAttr key (GroupValue g) ->
        leaves groups attr = leavesOf (groups ++ [key]) g)
  /\ (forall outer inner key v,
        Value_Kind v <> KindGroup ->
        appendAttr buf
          (mkAttr outer (GroupValue [mkAttr inner (GroupValue [mkAttr key v])]))
          []
        = buf +:+ " " +:+ ESC +:+ "[36m" +:+
          outer +:+ "." +:+ inner +:+ "." +:+ key +:+
          ESC +:+ "[0m=" +:+ Value_String v).
Proof.
  split; [apply appendAttr_leaves |].
  split; [apply leaves_not_group |].
  split; [intros key g ->; apply leaves_group |].
  intros outer inner key v Hv.
  rewrite appendAttr_leaves.
  destruct v; try (exfalso; apply Hv; reflexivity);
    unfold pairsText, pairText, Join; simpl;
    rewrite ?append_nil_r, ?append_assoc; reflexivity.
Qed.

(** The flattening at a concrete attribute:
    [db = {conn = {host = "h", port = 5432}}] under the handler group
    [app]. *)
Lemma appendAttr_flattens_groups_witness :
  logslog.appendAttr "msg"
    (mkAttr "db" (GroupValue [mkAttr "conn"
       (GroupValue [mkAttr "host" (StringValue "h");
                    mkAttr "port" (Int64Value 5432)])])) ["app"]
  = "msg" +:+ " " +:+ ESC +:+ "[36mapp.db.conn.host" +:+ ESC +:+ "[0m=h"
          +:+ " " +:+ ESC +:+ "[36mapp.db.conn.port" +:+ ESC +:+ "[0m=5432"
  /\ leaves ["app"]
       (mkAttr "db" (GroupValue [mkAttr "conn"
          (GroupValue [mkAttr "host" (StringValue "h");
                       mkAttr "port" (Int64Value 5432)])]))
     = [(["app"; "db"; "conn"; "host"], StringValue "h");
        (["app"; "db"; "conn"; "port"], Int64Value 5432)]
  /\ logslog.appendAttr ""
       (mkAttr "outer" (GroupValue [mkAttr "inner"
          (GroupValue [mkAttr "key" (StringValue "value")])])) []
     = " " +:+ ESC +:+ "[36mouter.inner.key" +:+ ESC +:+ "[0m=value".
Proof.
  destruct (appendAttr_flattens_groups "msg"
      (mkAttr "db" (GroupValue [mkAttr "conn"
         (GroupValue [mkAttr "host" (StringValue "h");
                      mkAttr "port" (Int64Value 5432)])])) ["app"])
      as (H1 & _ & H3 & _).
  split; [rewrite H1; vm_compute; reflexivity |].
  split; [rewrite (H3 _ _ eq_refl); vm_compute; reflexivity |].
  destruct (appendAttr_flattens_groups "" (mkAttr "x" (StringValue "")) [])
    as (_ & _ & _ & H).
  rewrite (H "outer" "inner" "key" (StringValue "value")).
  - vm_compute. reflexivity.
  - discriminate.
Defined.

End Flattening.

(** ** The console renderer: the line and its group *)

Section ConsoleLine.
Import logslog.

Lemma findGroup_first attrs gfn group :
  findGroup attrs gfn group =
  match firstUnder gfn attrs with
  | Some a => Value_String (Val a)
  | None => group
  end.
Proof.
  unfold firstUnder.
  induction attrs as [|a attrs IH]; simpl; [reflexivity |].
  destruct (String.eqb (Key a) gfn); [reflexivity | exact IH].
Qed.

Lemma appendAttrs_text attrs :
  forall buf gfn groups,
    appendAttrs buf attrs gfn groups = buf +:+ attrsText gfn groups attrs.
Proof.
  unfold attrsText, leavesOf.
  induction attrs as [|a attrs IH]; intros buf gfn groups; simpl.
  - unfold pairsText. simpl. now rewrite append_nil_r.
  - rewrite IH. unfold notUnder.
    destruct (String.eqb (Key a) gfn); simpl; [reflexivity |].
    now rewrite appendAttr_leaves, pairsText_app, append_assoc.
Qed.

Lemma findGroup_shownGroup gfn hattrs rattrs :
  (let group := findGroup hattrs gfn "" in
   if String.eqb group "" then findGroup rattrs gfn group else group)
  = shownGroup gfn hattrs rattrs.
Proof.
  cbv zeta. unfold shownGroup, textUnder. rewrite !findGroup_first.
  destruct (firstUnder gfn hattrs) as [a|].
  - destruct (String.eqb (Value_String (Val a)) "") eqn:He; [| reflexivity].
    apply String.eqb_eq in He. rewrite He.
    now destruct (firstUnder gfn rattrs).
  - rewrite String.eqb_refl. now destruct (firstUnder gfn rattrs).
Qed.

Lemma render_shownLine h r : render h r = shownLine h r.
Proof.
  unfold render, shownLine, lineWith, lineHead.
  cbv zeta. rewrite !appendAttrs_text.
  pose proof (findGroup_shownGroup (groupFieldName h) (attrs h) (rAttrs r)) as Hg.
  cbv zeta in Hg. rewrite Hg. clear Hg.
  unfold bracketIfAny, bracket.
  destruct (String.eqb (shownGroup (groupFieldName h) (attrs h) (rAttrs r)) "");
    simpl negb; cbv iota; norm_str; reflexivity.
Qed.

Lemma Handle_writes_line h r w :
  ConsoleHandler_Handle h r w
  = Returns (sinkErr w (writer h)) (wrote w (writer h) (shownLine h r)).
Proof.
  unfold ConsoleHandler_Handle, Writer_Write, wrote.
  now rewrite render_shownLine.
Qed.

(** C6 (as amended).  [Handle] makes one [Write] call with one line:
    timestamp, level code, then the bracketed group if there is one,
    then the message and the pairs.  The group is the text of the first
    handler-level attribute under the group field; the call-time
    attributes are consulted when that text is empty, whether because no
    handler-level attribute matches or because the first match is empty,
    and then their first match decides.  An empty group is not
    displayed. *)
Theorem Handle_locates_group (h : ConsoleHandler) (r : slog_Record) (w : World) :
  let gfn := groupFieldName h in
  let g := shownGroup gfn (attrs h) (rAttrs r) in
  ConsoleHandler_Handle h r w
  = Returns (sinkErr w (writer h))
      (wrote w (writer h)
         (lineHead (rTime r) (rLevel r) +:+ bracketIfAny g +:+ rMessage r +:+
          attrsText gfn (groups h) (attrs h) +:+
          attrsText gfn (groups h) (rAttrs r) +:+ LF))
  /\ (forall a, firstUnder gfn (attrs h) = Some a ->
        Value_String (Val a) <> "" ->
        g = Value_String (Val a) /\ bracketIfAny g = bracket g)
  /\ (firstUnder gfn (attrs h) = None ->
        g = textUnder gfn (rAttrs r))
  /\ (forall a, firstUnder gfn (attrs h) = Some a ->
        Value_String (Val a) = "" ->
        g = textUnder gfn (rAttrs r))
  /\ (g = "" -> bracketIfAny g = "").
Proof.
  cbv zeta. split; [apply Handle_writes_line |].
  unfold shownGroup, textUnder, bracketIfAny.
  repeat split.
  - rewrite H. apply String.eqb_neq in H0. now rewrite H0.
  - rewrite H. apply String.eqb_neq in H0. now rewrite !H0.
  - intros ->. reflexivity.
  - intros a -> ->. reflexivity.
  - intros ->. reflexivity.
Qed.

(** The lookup at a handler bound to group [svc], at one bound to the
    empty group and at one bound to none, each with a record that names a
    group of its own; and at a handler and a record without any group. *)
Lemma Handle_locates_group_witness :
  (shownGroup "_group" (attrs svcHandler) (rAttrs groupedRecord) = "svc"
   /\ bracketIfAny "svc" = bracket "svc")
  /\ shownGroup "_group" (attrs plainHandler) (rAttrs groupedRecord) = "x"
  /\ shownGroup "_group" (attrs emptyGroupHandler) (rAttrs groupedRecord) = "x"
  /\ bracketIfAny (shownGroup "_group" (attrs plainHandler) (rAttrs plainRecord))
     = "".
Proof.
  split; [| split; [| split]].
  - destruct (Handle_locates_group svcHandler groupedRecord exampleWorld)
      as (_ & H & _).
    destruct (H (mkAttr "_group" (StringValue "svc")) eq_refl) as [H1 H2].
    + vm_compute. discriminate.
    + split; [exact H1 |].
      change (shownGroup (groupFieldName svcHandler) (attrs svcHandler)
                (rAttrs groupedRecord)) with "svc" in H2.
      exact H2.
  - destruct (Handle_locates_group plainHandler groupedRecord exampleWorld)
      as (_ & _ & H & _).
    exact (H eq_refl).
  - destruct (Handle_locates_group emptyGroupHandler groupedRecord exampleWorld)
      as (_ & _ & _ & H & _).
    exact (H (mkAttr "_group" (StringValue "")) eq_refl eq_refl).
  - destruct (Handle_locates_group plainHandler plainRecord exampleWorld)
      as (_ & _ & _ & _ & H).
    exact (H eq_refl).
Defined.

(** C6, counterexample.  With the empty name bound at handler level, a
    handler-level match exists, yet the line displays the call-time
    group [x]; the lookup of the specification would not have consulted
    the call-time attributes. *)
Lemma Handle_group_lookup_counterexample :
  firstUnder "_group" (attrs emptyGroupHandler)
    = Some (mkAttr "_group" (StringValue ""))
  /\ locatedGroup "_group" (attrs emptyGroupHandler) (rAttrs groupedRecord)
     = Some ""
  /\ world_of (ConsoleHandler_Handle emptyGroupHandler groupedRecord exampleWorld)
     = wrote exampleWorld Stdout
         (lineWith (bracket "x") emptyGroupHandler groupedRecord)
  /\ render emptyGroupHandler groupedRecord
     <> claimedLine emptyGroupHandler groupedRecord.
Proof.
  split; [reflexivity |]. split; [reflexivity |]. split; [reflexivity |].
  apply String.eqb_neq. vm_compute. reflexivity.
Qed.

End ConsoleLine.

(** ** The slog backend over the console handler *)

Section ConsoleBackend.
Import logslog.
Context {E : JSONEngine}.

Lemma New_console cfg :
  cfgConsole cfg = true -> New cfg = consoleLogger (cfgHandler cfg).
Proof.
  unfold cfgConsole, New, consoleLogger, cfgHandler, cfgOptions, cfgMinLevel,
    cfgGroupField, cfgWriter.
  intros Hc. apply negb_true_iff in Hc.
  destruct (String.eqb (Format cfg) "") eqn:Hf.
  - reflexivity.
  - now rewrite Hc.
Qed.

Lemma New_json cfg :
  cfgConsole cfg = false ->
  New cfg = mkSlogLogger
              (mkLogger (JSON (mkJSONHandler
                 (NewJSONHandler (cfgWriter cfg) (cfgOptions cfg)))))
              (cfgGroupField cfg).
Proof.
  unfold cfgConsole, New, cfgOptions, cfgMinLevel, cfgGroupField, cfgWriter.
  intros Hc. apply negb_false_iff in Hc.
  apply String.eqb_eq in Hc. rewrite Hc. reflexivity.
Qed.

Lemma bindAll_nil h : bindAll h [] = h.
Proof. destruct h. unfold bindAll. simpl. now rewrite app_nil_r. Qed.

Lemma bindAll_cons h op ops :
  bindAll (bindAll h [op]) ops = bindAll h (op :: ops).
Proof. unfold bindAll. simpl. now rewrite <- app_assoc. Qed.

Lemma derive_console h op w :
  logger.derive op (consoleLogger h) w
  = Returns (consoleLogger (bindAll h [op])) w.
Proof. destruct op; reflexivity. Qed.

Lemma chain_console ops :
  forall h w,
    logger.chain ops (consoleLogger h) w
    = Returns (consoleLogger (bindAll h ops)) w.
Proof.
  induction ops as [|op ops IH]; intros h w; simpl.
  - unfold ret. now rewrite bindAll_nil.
  - unfold bind. rewrite derive_console, IH. now rewrite bindAll_cons.
Qed.

Lemma log_console h level msg kvs w :
  SlogLogger_log (consoleLogger h) level msg kvs w
  = Returns tt
      (if ConsoleHandler_Enabled h level
       then wrote w (writer h) (shownLine h (recordOf w level msg kvs))
       else w).
Proof.
  unfold SlogLogger_log, Logger_Log, consoleLogger. simpl.
  destruct (ConsoleHandler_Enabled h level); simpl; [| reflexivity].
  unfold bind, time_Now. rewrite Handle_writes_line. reflexivity.
Qed.

Lemma Enabled_bindAll h ops level :
  ConsoleHandler_Enabled (bindAll h ops) level = ConsoleHandler_Enabled h level.
Proof. reflexivity. Qed.

Lemma Enabled_cfg cfg level :
  ConsoleHandler_Enabled (cfgHandler cfg) level = (cfgMinLevel cfg <=? level)%Z.
Proof. reflexivity. Qed.

End ConsoleBackend.

(** ** The console round trip *)

Section RoundTrip.
Import logslog.
Context {E : JSONEngine}.

(** C5.  With level [info] and format [console], [Info("server started",
    "port", 8080)] on the logger obtained by [WithGroup("svc")] makes
    exactly one [Write] call, and its buffer is one line: the timestamp,
    [INF], [[svc]], the message and [port=8080], separated by single
    spaces, each coloured piece between its colour code and the reset
    code, and the newline.  (The group field may have any name but
    [port], which would turn the pair itself into the group.) *)
Theorem console_round_trip (cfg : Config) (w : World) :
  Level cfg = "info" ->
  Format cfg = "console" ->
  GroupFieldName cfg <> "port" ->
  (l <- SlogLogger_WithGroup (New cfg) "svc" ;;
   SlogLogger_Info l "server started" [AString "port"; AInt 8080]) w
  = Returns tt
      (wrote w (cfgWriter cfg)
         (sgr "90" (Time_Format (now w)) +:+ " " +:+
          sgr "32" "INF" +:+ " " +:+
          sgr "36" "[svc]" +:+ " " +:+
          "server started" +:+ " " +:+
          sgr "36" "port" +:+ "=8080" +:+ LF)).
Proof.
  intros Hl Hf Hg.
  assert (Hc : cfgConsole cfg = true) by (unfold cfgConsole; now rewrite Hf).
  rewrite (New_console cfg Hc).
  change (SlogLogger_WithGroup (consoleLogger (cfgHandler cfg)) "svc")
    with (logger.derive (logger.OpWithGroup "svc") (consoleLogger (cfgHandler cfg))).
  unfold bind at 1. rewrite derive_console.
  unfold SlogLogger_Info. rewrite log_console, Enabled_bindAll, Enabled_cfg.
  assert (Hm : cfgMinLevel cfg = LevelInfo)
    by (unfold cfgMinLevel; rewrite Hl; reflexivity).
  rewrite Hm. change (LevelInfo <=? LevelInfo)%Z with true. cbv iota.
  f_equal. f_equal.
  assert (Hp : String.eqb "port" (cfgGroupField cfg) = false).
  { apply String.eqb_neq. unfold cfgGroupField.
    destruct (String.eqb (GroupFieldName cfg) ""); congruence. }
  unfold shownLine, lineWith, lineHead, shownGroup, textUnder, firstUnder,
    attrsText, notUnder, recordOf.
  simpl. rewrite String.eqb_refl. simpl. rewrite Hp. simpl.
  unfold bracketIfAny, bracket, pairsText, pairText, Join. simpl.
  norm_str. reflexivity.
Qed.

End RoundTrip.

(** The round trip under the default group field, on standard output,
    and the visible text of the line. *)
Lemma console_round_trip_witness :
  (l <- @logslog.SlogLogger_WithGroup exampleEngine
          (@logslog.New exampleEngine (logslog.mkConfig "info" "console" None ""))
          "svc" ;;
   @logslog.SlogLogger_Info exampleEngine l "server started"
     [AString "port"; AInt 8080]) exampleWorld
  = Returns tt
      (mkWorld exampleTime (fun _ => None)
         [(Stdout,
           ESC +:+ "[90m15 Oct 25 12:23 AWST" +:+ ESC +:+ "[0m " +:+
           ESC +:+ "[32mINF" +:+ ESC +:+ "[0m " +:+
           ESC +:+ "[36m[svc]" +:+ ESC +:+ "[0m server started " +:+
           ESC +:+ "[36mport" +:+ ESC +:+ "[0m=8080" +:+ LF)])
  /\ visibleText
       (sgr "90" (Time_Format exampleTime) +:+ " " +:+
        sgr "32" "INF" +:+ " " +:+
        sgr "36" "[svc]" +:+ " " +:+
        "server started" +:+ " " +:+
        sgr "36" "port" +:+ "=8080" +:+ LF)
     = "15 Oct 25 12:23 AWST INF [svc] server started port=8080" +:+ LF.
Proof.
  split; [| vm_compute; reflexivity].
  rewrite (@console_round_trip exampleEngine
             (logslog.mkConfig "info" "console" None "") exampleWorld
             eq_refl eq_refl).
  - vm_compute. reflexivity.
  - simpl. discriminate.
Defined.

(** ** Chains of [WithGroup] *)

Section ChainedGroups.
Import logslog.
Context {E : JSONEngine}.

Lemma firstUnder_app_skip gfn xs ys :
  forallb (notUnder gfn) xs = true ->
  firstUnder gfn (xs ++ ys) = firstUnder gfn ys.
Proof.
  unfold firstUnder, notUnder.
  induction xs as [|x xs IH]; simpl; [reflexivity |].
  intros H. apply andb_true_iff in H as [Hx Hxs].
  apply negb_true_iff in Hx. rewrite Hx. now apply IH.
Qed.

Lemma filter_all_kept gfn xs :
  forallb (notUnder gfn) xs = true -> List.filter (notUnder gfn) xs = xs.
Proof.
  induction xs as [|x xs IH]; simpl; [reflexivity |].
  intros H. apply andb_true_iff in H as [Hx Hxs].
  rewrite Hx. f_equal. now apply IH.
Qed.

Lemma forallb_bound gfn ops :
  forallb (notUnder gfn) (map (boundAttr gfn) ops) = forallb (keepsOut gfn) ops.
Proof. induction ops as [|op ops IH]; simpl; [reflexivity | now rewrite IH]. Qed.

Lemma filter_bound gfn ops :
  List.filter (notUnder gfn) (map (boundAttr gfn) ops)
  = map (boundAttr gfn) (List.filter (keepsOut gfn) ops).
Proof.
  induction ops as [|op ops IH]; simpl; [reflexivity |].
  unfold keepsOut at 1. destruct (notUnder gfn (boundAttr gfn op)); simpl;
    now rewrite IH.
Qed.

Lemma group_attr_under gfn g :
  notUnder gfn (mkAttr gfn (StringValue g)) = false.
Proof. unfold notUnder. simpl. now rewrite String.eqb_refl. Qed.

(** C9 (as amended).  Along a chain in which [WithGroup(g1)], with [g1]
    not empty, is the earliest call that binds the group field (no
    earlier [With] or [WithError] binds that key), every call binds its
    own handler-level attribute, and an emission writes the line whose
    bracket is [g1] and whose pairs are those of the calls that do not
    bind the group field, followed by the call-time pairs outside the
    group field: the names of the later [WithGroup] calls contribute
    nothing to the line. *)
Theorem chained_groups_show_earliest (cfg : Config)
    (pre post : list logger.Derive) (g1 : string)
    (level : Z) (msg : string) (kvs : list any) (w : World) :
  let gfn := cfgGroupField cfg in
  let ops := pre ++ logger.OpWithGroup g1 :: post in
  cfgConsole cfg = true ->
  forallb (keepsOut gfn) pre = true ->
  g1 <> "" ->
  (cfgMinLevel cfg <=? level)%Z = true ->
  (l <- logger.chain ops (New cfg) ;; SlogLogger_log l level msg kvs) w
  = Returns tt
      (wrote w (cfgWriter cfg)
         (lineHead (now w) level +:+ bracket g1 +:+ msg +:+
          pairsText (leavesOf []
             (map (boundAttr gfn) (pre ++ List.filter (keepsOut gfn) post))) +:+
          attrsText gfn [] (rAttrs (recordOf w level msg kvs)) +:+ LF))
  /\ (exists l, logger.chain ops (New cfg) w = Returns l w
        /\ l = consoleLogger (bindAll (cfgHandler cfg) ops)
        /\ attrs (bindAll (cfgHandler cfg) ops) = map (boundAttr gfn) ops
        /\ forall g, In (logger.OpWithGroup g) ops ->
             In (mkAttr gfn (StringValue g)) (attrs (bindAll (cfgHandler cfg) ops))).
Proof.
  intros gfn ops Hc Hpre Hg1 Hen.
  rewrite (New_console cfg Hc).
  split.
  - unfold bind. rewrite chain_console, log_console, Enabled_bindAll, Enabled_cfg.
    rewrite Hen. f_equal. f_equal.
    unfold shownLine, lineWith. simpl attrs. simpl groupFieldName. simpl groups.
    fold gfn. unfold ops. rewrite map_app. simpl map.
    assert (Hpre' : forallb (notUnder gfn) (map (boundAttr gfn) pre) = true)
      by now rewrite forallb_bound.
    assert (Hs : shownGroup gfn
                   (map (boundAttr gfn) pre ++
                    mkAttr gfn (StringValue g1) :: map (boundAttr gfn) post)
                   (rAttrs (recordOf w level msg kvs)) = g1).
    { unfold shownGroup, textUnder. rewrite firstUnder_app_skip by assumption.
      unfold firstUnder. simpl. rewrite String.eqb_refl. simpl.
      apply String.eqb_neq in Hg1. now rewrite Hg1. }
    rewrite Hs. unfold bracketIfAny.
    apply String.eqb_neq in Hg1. rewrite Hg1.
    unfold attrsText at 1.
    rewrite List.filter_app. simpl List.filter. rewrite group_attr_under.
    rewrite filter_all_kept by assumption.
    rewrite filter_bound, <- map_app.
    reflexivity.
  - exists (consoleLogger (bindAll (cfgHandler cfg) ops)).
    split; [apply chain_console |]. split; [reflexivity |].
    split; [reflexivity |].
    intros g Hin. simpl. fold gfn.
    apply in_map_iff. exists (logger.OpWithGroup g). split; [reflexivity | exact Hin].
Qed.

End ChainedGroups.

(** The chain [WithGroup("a").With("k", 1).WithGroup("b")] followed by
    [Info("m")]: the line shows [[a]] and the pair [k=1], and no [b]. *)
Lemma chained_groups_show_earliest_witness :
  (l <- @logger.chain _ _ (@logslog.SlogLogger_is_Logger exampleEngine)
          [logger.OpWithGroup "a"; logger.OpWith "k" (AInt 1);
           logger.OpWithGroup "b"]
          (@logslog.New exampleEngine defaultConfig) ;;
   @logslog.SlogLogger_log exampleEngine l LevelInfo "m" []) exampleWorld
  = Returns tt
      (mkWorld exampleTime (fun _ => None)
         [(Stdout,
           ESC +:+ "[90m15 Oct 25 12:23 AWST" +:+ ESC +:+ "[0m " +:+
           ESC +:+ "[32mINF" +:+ ESC +:+ "[0m " +:+
           ESC +:+ "[36m[a]" +:+ ESC +:+ "[0m m " +:+
           ESC +:+ "[36mk" +:+ ESC +:+ "[0m=1" +:+ LF)]).
Proof.
  destruct (@chained_groups_show_earliest exampleEngine defaultConfig
              [] [logger.OpWith "k" (AInt 1); logger.OpWithGroup "b"] "a"
              LevelInfo "m" [] exampleWorld eq_refl eq_refl) as [H _].
  - discriminate.
  - reflexivity.
  - simpl app in H. rewrite H. vm_compute. reflexivity.
Defined.

(** C9, counterexample.  [WithGroup("").WithGroup("b")] followed by
    [Info("m", "_group", "z")]: the earliest [WithGroup] name is empty,
    and the bracket shows the call-time value [z], which no [WithGroup]
    call named. *)
Lemma chained_groups_counterexample :
  earliestGroup [logger.OpWithGroup ""; logger.OpWithGroup "b"] = Some ""
  /\ (l <- @logger.chain _ _ (@logslog.SlogLogger_is_Logger exampleEngine)
            [logger.OpWithGroup ""; logger.OpWithGroup "b"]
            (@logslog.New exampleEngine defaultConfig) ;;
      @logslog.SlogLogger_Info exampleEngine l "m"
        [AString "_group"; AString "z"]) exampleWorld
     = Returns tt
         (wrote exampleWorld Stdout
            (lineHead exampleTime LevelInfo +:+ bracket "z" +:+ "m" +:+ LF))
  /\ lineHead exampleTime LevelInfo +:+ bracket "z" +:+ "m" +:+ LF
     <> lineHead exampleTime LevelInfo +:+ bracket "" +:+ "m" +:+ LF
  /\ lineHead exampleTime LevelInfo +:+ bracket "z" +:+ "m" +:+ LF
     <> lineHead exampleTime LevelInfo +:+ "m" +:+ LF.
Proof.
  split; [reflexivity |]. split; [vm_compute; reflexivity |].
  split; apply String.eqb_neq; vm_compute; reflexivity.
Qed.

(** ** The level gate *)

Section LevelGate.
Import logslog.
Context {E : JSONEngine}.

Lemma parseLevel_fatal s :
  parseLevel s = LevelFatal <-> ToLower s = "fatal".
Proof.
  unfold parseLevel. split.
  - repeat match goal with
           | |- context [String.eqb ?a ?b] =>
               destruct (String.eqb_spec a b)
           end; simpl; try discriminate; auto.
  - intros ->. reflexivity.
Qed.

Lemma parseLevel_unknown s :
  Forall (fun name => ToLower s <> name) levelNames -> parseLevel s = LevelInfo.
Proof.
  unfold levelNames, parseLevel. intros H.
  repeat match goal with
         | H : Forall _ (_ :: _) |- _ => inversion H; subst; clear H
         end.
  repeat match goal with
         | |- context [String.eqb ?a ?b] =>
             destruct (String.eqb_spec a b); try congruence
         end.
  reflexivity.
Qed.

Lemma parseLevel_range s :
  In (parseLevel s)
     [LevelTrace; LevelDebug; LevelInfo; LevelWarn; LevelError; LevelFatal].
Proof.
  unfold parseLevel.
  repeat match goal with
         | |- context [String.eqb ?a ?b] => destruct (String.eqb a b)
         end; simpl; auto 10.
Qed.

Lemma emit_console_world h op msg kvs w :
  world_of (logger.emit op (consoleLogger h) msg kvs w)
  = if ConsoleHandler_Enabled h (emitLevel op)
    then wrote w (writer h) (shownLine h (recordOf w (emitLevel op) msg kvs))
    else w.
Proof.
  destruct op; simpl;
    unfold SlogLogger_Trace, SlogLogger_Debug, SlogLogger_Info,
      SlogLogger_Warn, SlogLogger_Error, SlogLogger_Fatal, bind;
    rewrite log_console; reflexivity.
Qed.

Lemma wrote_length w to p :
  length (writes (wrote w to p)) = S (length (writes w)).
Proof. unfold wrote. simpl. rewrite length_app. simpl. lia. Qed.

(** C2 (as amended).  Let [M] be the level parsed from the configured
    level string, [info] when the string is absent or not a level name.
    On a logger made by [New] with the console format, and on every
    logger derived from it, an emission at level [L] makes one [Write]
    call if [M <= L] and none otherwise.  Under the default
    configuration a [Trace] emission is suppressed.  An [Error] emission
    is written under every configuration except the level [fatal] (in
    any letter case), which [parseLevel] places above [error].  (With
    the json format, [M] is the [Level] option handed to the standard
    library's handler.) *)
Theorem level_gate (cfg : Config) (ops : list logger.Derive)
    (op : logger.Emit) (msg : string) (kvs : list any) (w : World) :
  let M := parseLevel (cfgLevelString cfg) in
  (cfgConsole cfg = true ->
   exists l,
      logger.chain ops (New cfg) w = Returns l w
      /\ world_of (logger.emit op l msg kvs w)
         = (if (M <=? emitLevel op)%Z
            then wrote w (cfgWriter cfg)
                   (shownLine (bindAll (cfgHandler cfg) ops)
                      (recordOf w (emitLevel op) msg kvs))
            else w)
      /\ (length (writes (world_of (logger.emit op l msg kvs w)))
          = S (length (writes w)) <-> (M <= emitLevel op)%Z)
      /\ (~ (M <= emitLevel op)%Z ->
          world_of (logger.emit op l msg kvs w) = w))
  /\ (cfgConsole cfg = false ->
      New cfg
      = mkSlogLogger
          (mkLogger (JSON (mkJSONHandler
             (NewJSONHandler (cfgWriter cfg)
                (mkOptions (Some M) (Some replaceAttr))))))
          (cfgGroupField cfg))
  /\ (Level cfg = "" -> M = LevelInfo)
  /\ (Forall (fun name => ToLower (Level cfg) <> name) levelNames ->
      M = LevelInfo)
  /\ (M = LevelInfo -> (M <=? emitLevel logger.OpTrace)%Z = false)
  /\ ((M <=? emitLevel logger.OpError)%Z = true
      <-> ToLower (cfgLevelString cfg) <> "fatal").
Proof.
  intros M. split; [| split; [| split; [| split; [| split]]]].
  - intros Hc. exists (consoleLogger (bindAll (cfgHandler cfg) ops)).
    rewrite (New_console cfg Hc). split; [apply chain_console |].
    rewrite emit_console_world, Enabled_bindAll, Enabled_cfg.
    change (cfgMinLevel cfg) with M.
    split; [reflexivity |].
    destruct (M <=? emitLevel op)%Z eqn:HM.
    + apply Z.leb_le in HM. split; [| lia].
      split; [intros _; exact HM | intros _; apply wrote_length].
    + apply Z.leb_gt in HM. split; [| reflexivity].
      split; [intros Hlen; lia | intros Hle; lia].
  - intros Hc. exact (New_json cfg Hc).
  - unfold M, cfgLevelString. intros ->. reflexivity.
  - unfold M, cfgLevelString. intros Hn.
    destruct (String.eqb (Level cfg) ""); [reflexivity |].
    now apply parseLevel_unknown.
  - intros ->. reflexivity.
  - rewrite <- parseLevel_fatal. fold M.
    pose proof (parseLevel_range (cfgLevelString cfg)) as Hr. fold M in Hr.
    simpl in Hr.
    destruct Hr as [<- | [<- | [<- | [<- | [<- | [<- | []]]]]]];
      (split; [intros H; try discriminate H; vm_compute in H; discriminate
              | intros H; try reflexivity; exfalso; apply H; reflexivity]).
Qed.

End LevelGate.

(** The level gate under the default configuration: [Info] is written, [Trace]
    is not; the level of an empty or unknown level string; what [New]
    builds for the json format. *)
Lemma level_gate_witness :
  writes (world_of (@logslog.SlogLogger_Info exampleEngine
            (@logslog.New exampleEngine defaultConfig) "m" [] exampleWorld))
  = [(Stdout, lineHead exampleTime LevelInfo +:+ "m" +:+ LF)]
  /\ world_of (@logslog.SlogLogger_Trace exampleEngine
       (@logslog.New exampleEngine defaultConfig) "m" [] exampleWorld)
     = exampleWorld
  /\ logslog.parseLevel (cfgLevelString defaultConfig) = LevelInfo
  /\ logslog.parseLevel
       (cfgLevelString (logslog.mkConfig "verbose" "" None "")) = LevelInfo
  /\ @logslog.New exampleEngine (logslog.mkConfig "WARN" "json" None "")
     = @logslog.mkSlogLogger exampleEngine
         (mkLogger (@logslog.JSON exampleEngine
            (@logslog.mkJSONHandler exampleEngine
               (@NewJSONHandler exampleEngine Stdout
                  (mkOptions (Some LevelWarn) (Some logslog.replaceAttr))))))
         "_group"
  /\ (LevelInfo <=? emitLevel logger.OpTrace)%Z = false
  /\ (logslog.parseLevel (cfgLevelString defaultConfig)
      <=? emitLevel logger.OpError)%Z = true.
Proof.
  split; [| split; [| split; [| split; [| split; [| split]]]]].
  - destruct (@level_gate exampleEngine defaultConfig [] logger.OpInfo "m" []
                exampleWorld) as [H _].
    destruct (H eq_refl) as (l & Hl & Hw & _).
    injection Hl as <-.
    refine (eq_trans (f_equal writes Hw) _). vm_compute. reflexivity.
  - destruct (@level_gate exampleEngine defaultConfig [] logger.OpTrace "m" []
                exampleWorld) as [H _].
    destruct (H eq_refl) as (l & Hl & _ & _ & Hn).
    injection Hl as <-. apply Hn.
    intros Hle. vm_compute in Hle. apply Hle. reflexivity.
  - destruct (@level_gate exampleEngine defaultConfig [] logger.OpInfo "m" []
                exampleWorld) as (_ & _ & H & _).
    exact (H eq_refl).
  - destruct (@level_gate exampleEngine (logslog.mkConfig "verbose" "" None "")
                [] logger.OpInfo "m" [] exampleWorld) as (_ & _ & _ & H & _).
    apply H. unfold levelNames. repeat constructor; discriminate.
  - destruct (@level_gate exampleEngine (logslog.mkConfig "WARN" "json" None "")
                [] logger.OpInfo "m" [] exampleWorld) as (_ & H & _).
    exact (H eq_refl).
  - destruct (@level_gate exampleEngine defaultConfig [] logger.OpInfo "m" []
                exampleWorld) as (_ & _ & _ & _ & H & _).
    exact (H eq_refl).
  - destruct (@level_gate exampleEngine defaultConfig [] logger.OpInfo "m" []
                exampleWorld) as (_ & _ & _ & _ & _ & H).
    apply H. discriminate.
Defined.

(** C2, counterexample.  Configured with level [fatal], an [Error]
    emission is suppressed: it makes no [Write] call. *)
Lemma error_suppressed_counterexample :
  logslog.parseLevel "fatal" = logslog.LevelFatal
  /\ (LevelError < logslog.LevelFatal)%Z
  /\ world_of (@logslog.SlogLogger_Error exampleEngine
       (@logslog.New exampleEngine (logslog.mkConfig "fatal" "" None ""))
       "boom" [] exampleWorld)
     = exampleWorld
  /\ ~ (exists p,
          writes (world_of (@logslog.SlogLogger_Error exampleEngine
            (@logslog.New exampleEngine (logslog.mkConfig "fatal" "" None ""))
            "boom" [] exampleWorld))
          = writes exampleWorld ++ [p]).
Proof.
  split; [reflexivity |]. split; [reflexivity |]. split; [reflexivity |].
  intros [p Hp]. vm_compute in Hp. discriminate Hp.
Qed.

(** ** Fatal *)

Section FatalExits.
Import logslog.
Context {E : JSONEngine}.

Lemma Fatal_after_log (l : SlogLogger) msg kvs w :
  SlogLogger_Fatal l msg kvs w
  = match SlogLogger_log l LevelFatal msg kvs w with
    | Returns _ w' => Exits 1 w'
    | Exits code w' => Exits code w'
    | Panics why w' => Panics why w'
    end.
Proof. reflexivity. Qed.

Lemma cfgMinLevel_le_fatal cfg : (cfgMinLevel cfg <=? LevelFatal)%Z = true.
Proof.
  unfold cfgMinLevel.
  pose proof (parseLevel_range
    (if String.eqb (Level cfg) "" then "info" else Level cfg)) as Hr.
  simpl in Hr.
  destruct Hr as [<- | [<- | [<- | [<- | [<- | [<- | []]]]]]]; reflexivity.
Qed.

Lemma log_never_exits (Hne : engineNeverExits E) (l : SlogLogger) level msg kvs w :
  exit_code (SlogLogger_log l level msg kvs w) = None.
Proof.
  destruct l as [[[c | j]] gfn]; unfold SlogLogger_log, Logger_Log; simpl.
  - destruct (ConsoleHandler_Enabled c level); reflexivity.
  - destruct (JSONHandler_Enabled j level); simpl; [| reflexivity].
    unfold bind, time_Now, JSONHandler_Handle.
    destruct Hne as [Hh _]. specialize (Hh (inner j) (recordOf w level msg kvs) w).
    unfold recordOf in Hh.
    destruct (stdJSON_Handle _ _ w); simpl in *; congruence.
Qed.

Lemma derive_never_exits (Hne : engineNeverExits E) (l : SlogLogger) d w :
  exit_code (logger.derive d l w) = None.
Proof.
  destruct Hne as [_ Ha].
  destruct l as [[[c | j]] gfn]; destruct d; simpl;
    unfold SlogLogger_With, SlogLogger_WithError, SlogLogger_WithGroup,
      Logger_With, bind; simpl; try reflexivity;
    unfold bind, JSONHandler_WithAttrs, bind;
    match goal with
    | |- context [stdJSON_WithAttrs ?h ?a ?w] =>
        specialize (Ha h a w); destruct (stdJSON_WithAttrs h a w)
    end; simpl in *; congruence.
Qed.

(** C8.  [Fatal] on the slog backend is the emission followed by
    [os.Exit(1)]: the process ends only once the emission has returned,
    in the world the emission left, with status 1.  On a logger made by
    [New] with the console format (and on any logger derived from it)
    the emission is never below the minimum level, so the world at exit
    holds the [Write] call of the fatal line whatever error the writer
    answered.  No other call of the contract ends the process, given
    that the standard library's json handler does not.  On the null
    logger [Fatal] returns and leaves the world as it was. *)
Theorem Fatal_emits_then_exits (cfg : Config) (ops : list logger.Derive)
    (msg : string) (kvs : list any) (w : World) :
  (forall (l : SlogLogger),
      SlogLogger_Fatal l msg kvs w
      = match SlogLogger_log l LevelFatal msg kvs w with
        | Returns _ w' => Exits 1 w'
        | Exits code w' => Exits code w'
        | Panics why w' => Panics why w'
        end)
  /\ (cfgConsole cfg = true ->
      exists l,
        logger.chain ops (New cfg) w = Returns l w
        /\ SlogLogger_log l LevelFatal msg kvs w
           = Returns tt
               (wrote w (cfgWriter cfg)
                  (shownLine (bindAll (cfgHandler cfg) ops)
                     (recordOf w LevelFatal msg kvs)))
        /\ SlogLogger_Fatal l msg kvs w
           = Exits 1
               (wrote w (cfgWriter cfg)
                  (shownLine (bindAll (cfgHandler cfg) ops)
                     (recordOf w LevelFatal msg kvs))))
  /\ (1 <> 0)%Z
  /\ (engineNeverExits E ->
      forall (l : SlogLogger),
        (forall op, op <> logger.OpFatal ->
           exit_code (logger.emit op l msg kvs w) = None)
        /\ (forall d, exit_code (logger.derive d l w) = None))
  /\ (forall (W : Type) (n : logger.NullLogger) (s : W),
        logger.NullLogger_Fatal n "x" [] s = Returns tt s
        /\ logger.NullLogger_Fatal n msg kvs s = Returns tt s).
Proof.
  split; [intros l; apply Fatal_after_log |].
  split.
  { intros Hc. exists (consoleLogger (bindAll (cfgHandler cfg) ops)).
    rewrite (New_console cfg Hc). split; [apply chain_console |].
    assert (Hlog : SlogLogger_log (consoleLogger (bindAll (cfgHandler cfg) ops))
                     LevelFatal msg kvs w
                   = Returns tt
                       (wrote w (cfgWriter cfg)
                          (shownLine (bindAll (cfgHandler cfg) ops)
                             (recordOf w LevelFatal msg kvs)))).
    { rewrite log_console, Enabled_bindAll, Enabled_cfg, cfgMinLevel_le_fatal.
      reflexivity. }
    split; [exact Hlog |].
    rewrite Fatal_after_log, Hlog. reflexivity. }
  split; [discriminate |].
  split.
  { intros Hne l. split.
    - intros op Hop.
      destruct op; try congruence; simpl;
        unfold SlogLogger_Trace, SlogLogger_Debug, SlogLogger_Info,
          SlogLogger_Warn, SlogLogger_Error;
        now apply log_never_exits.
    - intros d. now apply derive_never_exits. }
  intros W n s. split; reflexivity.
Qed.

End FatalExits.

(** [Fatal("shutting down")] under the default configuration, on a
    writer that fails: the line is handed to the writer, then the
    process exits with status 1. *)
Lemma Fatal_emits_then_exits_witness :
  @logslog.SlogLogger_Fatal exampleEngine
    (@logslog.New exampleEngine defaultConfig) "shutting down" []
    (mkWorld exampleTime (fun _ => Some (mkError "broken pipe")) [])
  = Exits 1
      (mkWorld exampleTime (fun _ => Some (mkError "broken pipe"))
         [(Stdout,
           ESC +:+ "[90m15 Oct 25 12:23 AWST" +:+ ESC +:+ "[0m " +:+
           ESC +:+ "[31mFTL" +:+ ESC +:+ "[0m shutting down" +:+ LF)])
  /\ exit_code (@logslog.SlogLogger_Error exampleEngine
                  (@logslog.New exampleEngine defaultConfig) "x" []
                  exampleWorld) = None.
Proof.
  pose (w := mkWorld exampleTime (fun _ => Some (mkError "broken pipe")) []).
  split.
  - destruct (@Fatal_emits_then_exits exampleEngine defaultConfig []
                "shutting down" [] w) as (_ & H & _).
    destruct (H eq_refl) as (l & Hl & _ & Hf).
    injection Hl as <-. simpl bindAll in Hf.
    etransitivity; [exact Hf |]. vm_compute. reflexivity.
  - destruct (@Fatal_emits_then_exits exampleEngine defaultConfig []
                "x" [] exampleWorld) as (_ & _ & _ & H & _).
    assert (Hne : engineNeverExits exampleEngine)
      by (split; intros; reflexivity).
    destruct (H Hne (@logslog.New exampleEngine defaultConfig)) as [He _].
    apply (He logger.OpError). discriminate.
Defined.

(** ** Malformed key/value sequences *)

Section Malformed.

Lemma pair_induction {A} (P : list A -> Prop) :
  P [] -> (forall x, P [x]) -> (forall x y l, P l -> P (x :: y :: l)) ->
  forall l, P l.
Proof.
  intros H0 H1 H2 l.
  enough (P l /\ forall x, P (x :: l)) by tauto.
  induction l as [|y l [IHl IHx]]; split; auto.
Qed.

Lemma addPairs_fields kvs :
  forall d,
    logzerolog.addPairs (Some d) kvs
    = Some (logzerolog.mkEvent (logzerolog.evLogger d) (logzerolog.evLevel d)
              (logzerolog.evFields d ++ wellFormedPairs kvs)).
Proof.
  induction kvs as [| x | x y l IH] using pair_induction; intros d.
  - simpl. rewrite app_nil_r. now destruct d.
  - simpl. destruct x; rewrite app_nil_r; now destruct d.
  - destruct x; simpl; rewrite IH; simpl; rewrite <- ?app_assoc; reflexivity.
Qed.

Lemma addPairs_nil kvs : logzerolog.addPairs None kvs = None.
Proof.
  induction kvs as [| x | x y l IH] using pair_induction; try reflexivity.
  destruct x; simpl; exact IH.
Qed.

Lemma leveled_sends op l msg kvs (w : logzerolog.ZWorld) :
  logzerolog.leveled op l msg kvs w
  = Returns tt
      (if (logzerolog.level (logzerolog.logger l) <=? logzerolog.levelOf op)%Z
       then w ++ [logzerolog.mkSent
                    (logzerolog.out (logzerolog.logger l))
                    (logzerolog.console (logzerolog.logger l))
                    (logzerolog.levelOf op)
                    (logzerolog.context (logzerolog.logger l)
                     ++ wellFormedPairs kvs)
                    msg]
       else w).
Proof.
  destruct op; simpl;
    unfold logzerolog.ZerologLogger_Trace, logzerolog.ZerologLogger_Debug,
      logzerolog.ZerologLogger_Info, logzerolog.ZerologLogger_Warn,
      logzerolog.ZerologLogger_Error, logzerolog.ZerologLogger_log,
      logzerolog.newEvent;
    match goal with
    | |- context [(?a <=? ?b)%Z] => destruct (a <=? b)%Z
    end;
    rewrite ?addPairs_fields, ?addPairs_nil; reflexivity.
Qed.

Lemma argsToAttr_length x rest :
  length (snd (argsToAttr x rest)) <= length rest.
Proof. destruct x; simpl; try lia. destruct rest; simpl; lia. Qed.

Lemma argsLoop_fuel fuel1 :
  forall fuel2 args,
    length args <= fuel1 -> length args <= fuel2 ->
    argsLoop fuel1 args = argsLoop fuel2 args.
Proof.
  induction fuel1 as [|f1 IH]; intros fuel2 args H1 H2.
  - destruct args; [| simpl in H1; lia]. now destruct fuel2.
  - destruct args as [|x rest]; [now destruct fuel2 |].
    destruct fuel2 as [|f2]; [simpl in H2; lia |].
    simpl. pose proof (argsToAttr_length x rest) as Hl.
    destruct (argsToAttr x rest) as [a args']. simpl in *.
    f_equal. apply IH; lia.
Qed.

Lemma argsToAttrSlice_step x rest :
  argsToAttrSlice (x :: rest)
  = fst (argsToAttr x rest) :: argsToAttrSlice (snd (argsToAttr x rest)).
Proof.
  unfold argsToAttrSlice. simpl.
  pose proof (argsToAttr_length x rest) as Hl.
  destruct (argsToAttr x rest) as [a args']. simpl in *.
  f_equal. apply argsLoop_fuel; lia.
Qed.

Import logslog.
Context {E : JSONEngine}.

Lemma emit_console_returns h op msg kvs w :
  op <> logger.OpFatal ->
  logger.emit op (consoleLogger h) msg kvs w
  = Returns tt
      (if logslog.ConsoleHandler_Enabled h (emitLevel op)
       then wrote w (logslog.writer h)
              (shownLine h (recordOf w (emitLevel op) msg kvs))
       else w).
Proof.
  intros Hop. destruct op; try congruence; simpl;
    unfold logslog.SlogLogger_Trace, logslog.SlogLogger_Debug,
      logslog.SlogLogger_Info, logslog.SlogLogger_Warn,
      logslog.SlogLogger_Error;
    apply log_console.
Qed.

(** C4 (as amended).  Neither backend raises an error on a malformed
    key/value sequence, and the record for the message is still emitted
    when its level is enabled.  The zerolog adapter skips a pair whose
    key is not a string and a key left over at the end, so
    [Info("x", "onlykey")] sends an event with no call-time field.  The
    slog adapter hands the sequence to [slog.Logger.Log] unchanged, which
    keeps what the specification would skip: a string left over at the
    end and any element that is neither a string nor an attribute become
    attributes of their own under the key [!BADKEY], so
    [Info("x", "onlykey")] emits the message with the one attribute
    [!BADKEY=onlykey]. *)
Theorem malformed_pairs_tolerated (msg : string) (kvs : list any) :
  (forall op l (w : logzerolog.ZWorld),
      logzerolog.leveled op l msg kvs w
      = Returns tt
          (if (logzerolog.level (logzerolog.logger l) <=? logzerolog.levelOf op)%Z
           then w ++ [logzerolog.mkSent
                        (logzerolog.out (logzerolog.logger l))
                        (logzerolog.console (logzerolog.logger l))
                        (logzerolog.levelOf op)
                        (logzerolog.context (logzerolog.logger l)
                         ++ wellFormedPairs kvs)
                        msg]
           else w))
  /\ wellFormedPairs [AString "onlykey"] = []
  /\ (forall cfg ops op w,
        cfgConsole cfg = true -> op <> logger.OpFatal ->
        exists l,
          logger.chain ops (logslog.New cfg) w = Returns l w
          /\ logger.emit op l msg kvs w
             = Returns tt
                 (if (cfgMinLevel cfg <=? emitLevel op)%Z
                  then wrote w (cfgWriter cfg)
                         (shownLine (bindAll (cfgHandler cfg) ops)
                            (mkRecord (now w) msg (emitLevel op)
                               (List.filter
                                  (fun a => negb (isEmptyGroup (Val a)))
                                  (argsToAttrSlice kvs))))
                  else w))
  /\ (forall key v rest,
        argsToAttrSlice (AString key :: v :: rest)
        = slog_Any key v :: argsToAttrSlice rest)
  /\ (forall key, argsToAttrSlice [AString key] = [slog_String badKey key])
  /\ (forall a rest, argsToAttrSlice (AAttr a :: rest) = a :: argsToAttrSlice rest)
  /\ (forall x rest,
        (forall s, x <> AString s) -> (forall a, x <> AAttr a) ->
        argsToAttrSlice (x :: rest) = slog_Any badKey x :: argsToAttrSlice rest)
  /\ rAttrs (Record_Add (NewRecord exampleTime LevelInfo "x") [AString "onlykey"])
     = [mkAttr "!BADKEY" (StringValue "onlykey")].
Proof.
  split; [intros; apply leveled_sends |].
  split; [reflexivity |].
  split.
  { intros cfg ops op w Hc Hop.
    exists (consoleLogger (bindAll (cfgHandler cfg) ops)).
    rewrite (New_console cfg Hc). split; [apply chain_console |].
    rewrite emit_console_returns by assumption.
    rewrite Enabled_bindAll, Enabled_cfg. reflexivity. }
  split; [intros; now rewrite argsToAttrSlice_step |].
  split; [reflexivity |].
  split; [intros; now rewrite argsToAttrSlice_step |].
  split; [| reflexivity].
  intros x rest Hs Ha. rewrite argsToAttrSlice_step.
  destruct x; try reflexivity; [exfalso; eapply Hs | exfalso; eapply Ha];
    reflexivity.
Qed.

End Malformed.

(** [Info("x", "onlykey")] on zerolog sends the message without fields;
    [Info("x", 7, "onlykey")] on slog writes the message with two
    [!BADKEY] attributes. *)
Lemma malformed_pairs_tolerated_witness :
  logzerolog.ZerologLogger_Info (logzerolog.New defaultZConfig) "x"
    [AString "onlykey"] []
  = Returns tt [logzerolog.mkSent Stdout true logzerolog.InfoLevel [] "x"]
  /\ @logslog.SlogLogger_Info exampleEngine
       (@logslog.New exampleEngine defaultConfig) "x"
       [AInt 7; AString "onlykey"] exampleWorld
     = Returns tt
         (wrote exampleWorld Stdout
            (lineHead exampleTime LevelInfo +:+ "x" +:+
             pairText ["!BADKEY"] (Int64Value 7) +:+
             pairText ["!BADKEY"] (StringValue "onlykey") +:+ LF))
  /\ argsToAttrSlice [AInt 7; AString "k"; AString "v"]
     = slog_Any badKey (AInt 7) :: argsToAttrSlice [AString "k"; AString "v"].
Proof.
  split; [| split].
  - destruct (@malformed_pairs_tolerated exampleEngine "x" [AString "onlykey"])
      as (H & _).
    exact (H logzerolog.LInfo (logzerolog.New defaultZConfig) []).
  - destruct (@malformed_pairs_tolerated exampleEngine "x"
                [AInt 7; AString "onlykey"]) as (_ & _ & H & _).
    destruct (H defaultConfig [] logger.OpInfo exampleWorld eq_refl)
      as (l & Hl & He); [discriminate |].
    injection Hl as <-.
    refine (eq_trans He _). vm_compute. reflexivity.
  - destruct (@malformed_pairs_tolerated exampleEngine "x" [])
      as (_ & _ & _ & _ & _ & _ & H & _).
    apply H; discriminate.
Defined.

(** C4, counterexample.  On the slog backend [Info("x", "onlykey")]
    emits a record with one attribute, not with none, and the line shows
    it. *)
Lemma slog_onlykey_counterexample :
  wellFormedAttrs [AString "onlykey"] = []
  /\ rAttrs (recordOf exampleWorld LevelInfo "x" [AString "onlykey"])
     = [mkAttr "!BADKEY" (StringValue "onlykey")]
  /\ rAttrs (recordOf exampleWorld LevelInfo "x" [AString "onlykey"])
     <> wellFormedAttrs [AString "onlykey"]
  /\ @logslog.SlogLogger_Info exampleEngine
       (@logslog.New exampleEngine defaultConfig) "x" [AString "onlykey"]
       exampleWorld
     = Returns tt
         (wrote exampleWorld Stdout
            (lineHead exampleTime LevelInfo +:+ "x" +:+
             pairText ["!BADKEY"] (StringValue "onlykey") +:+ LF))
  /\ lineHead exampleTime LevelInfo +:+ "x" +:+
     pairText ["!BADKEY"] (StringValue "onlykey") +:+ LF
     <> lineHead exampleTime LevelInfo +:+ "x" +:+ LF.
Proof.
  split; [reflexivity |]. split; [reflexivity |].
  split; [discriminate |].
  split; [vm_compute; reflexivity |].
  apply String.eqb_neq. vm_compute. reflexivity.
Qed.

(** ** The capturing backend: entries of derived loggers *)

Section MockEntries.
Import logtesting.

Lemma lookup_snoc {A} (l : list A) (x : A) : (l ++ [x]) !! length l = Some x.
Proof. rewrite lookup_app_r by lia. now rewrite Nat.sub_diag. Qed.

Lemma With_run s m ml key value :
  loggers s !! m = Some ml ->
  MockLogger_With m key value s
  = Returns (length (loggers s))
      (mkStore
         (loggers s ++ [mkMockLogger (Entries ml) (Some (length (maps s))) (group ml)])
         (arrays s)
         (maps s ++ [<[key := value]> (mapContent s (attrs ml))])
         (cells s)).
Proof.
  intros H. unfold MockLogger_With, bind, loadLogger. now rewrite H.
Qed.

Lemma WithGroup_run s m ml g :
  loggers s !! m = Some ml ->
  MockLogger_WithGroup m g s
  = Returns (length (loggers s))
      (mkStore
         (loggers s ++ [mkMockLogger (Entries ml) (Some (length (maps s))) g])
         (arrays s)
         (maps s ++ [mapContent s (attrs ml)])
         (cells s)).
Proof.
  intros H. unfold MockLogger_WithGroup, bind, loadLogger. now rewrite H.
Qed.

(** What every derivation does: a new logger at a fresh address, with
    the receiver's slice header and a fresh map. *)
Lemma derive_run s m ml d :
  loggers s !! m = Some ml ->
  logger.derive d m s
  = Returns (length (loggers s))
      (mkStore
         (loggers s ++
          [mkMockLogger (Entries ml) (Some (length (maps s)))
             (match d with logger.OpWithGroup g => g | _ => group ml end)])
         (arrays s)
         (maps s ++ [bindInto (mapContent s (attrs ml)) d])
         (cells s)).
Proof.
  intros H. destruct d; simpl.
  - now apply With_run.
  - unfold MockLogger_WithError. now apply With_run.
  - now apply WithGroup_run.
Qed.

(** C3 (what the code does).  A derived logger gets a copy of the
    receiver's slice header, and an emission replaces only the header of
    the logger it goes through.  So after [c := m.With...()], an entry
    emitted through [c] is not among the entries [m] shows, and an entry
    emitted through [m] is not among those [c] shows: either logger
    still shows exactly the entries [m] had when [c] was derived. *)
Theorem derived_logger_entries_not_shared (s : Store) (m : nat)
    (ml : MockLogger) (d : logger.Derive) (level msg : string)
    (kvs : list any) :
  loggers s !! m = Some ml ->
  array (Entries ml) < length (arrays s) ->
  result_of ((c <- logger.derive d m ;;
              MockLogger_log c level msg kvs ;;;
              MockLogger_GetEntries m) s)
  = Some (sliceElems s (Entries ml))
  /\ result_of ((c <- logger.derive d m ;;
                 MockLogger_log m level msg kvs ;;;
                 MockLogger_GetEntries c) s)
     = Some (sliceElems s (Entries ml)).
Proof.
  intros H Ha.
  assert (Hm : m < length (loggers s)) by (eapply lookup_lt_Some; eauto).
  split.
  - unfold bind at 1. rewrite (derive_run s m ml d H).
    unfold MockLogger_log, bind, loadLogger. simpl loggers.
    rewrite lookup_snoc. simpl. unfold append. simpl.
    destruct (len (Entries ml) <? cap (Entries ml))%nat eqn:Hlt; simpl;
      unfold MockLogger_GetEntries, bind, loadLogger; simpl;
      rewrite list_lookup_insert_ne by lia;
      rewrite lookup_app_l by lia; rewrite H; simpl;
      unfold sliceElems, arrayData; simpl.
    + rewrite list_lookup_insert_eq by lia. simpl.
      now rewrite take_insert_ge by lia.
    + now rewrite lookup_app_l by lia.
  - unfold bind at 1. rewrite (derive_run s m ml d H).
    unfold MockLogger_log, bind, loadLogger. simpl loggers.
    rewrite lookup_app_l by lia. rewrite H. simpl. unfold append. simpl.
    destruct (len (Entries ml) <? cap (Entries ml))%nat eqn:Hlt; simpl;
      unfold MockLogger_GetEntries, bind, loadLogger; simpl;
      rewrite list_lookup_insert_ne by lia;
      rewrite lookup_snoc; simpl;
      unfold sliceElems, arrayData; simpl.
    + rewrite list_lookup_insert_eq by lia. simpl.
      now rewrite take_insert_ge by lia.
    + now rewrite lookup_app_l by lia.
Qed.

End MockEntries.

(** [m := New(); c := m.With("a", 1); c.Info("x"); m.Info("y")]: [m]
    has no entry [x], [c] has no entry [y], each counts one entry. *)
Lemma derived_logger_entries_not_shared_witness :
  result_of (parentAndChild logtesting.emptyStore) = Some (false, false, 1, 1)
  /\ result_of
       ((m <- logtesting.New ;;
         c <- @logger.derive _ _ logtesting.MockLogger_is_Logger
                (logger.OpWith "a" (AInt 1)) m ;;
         logtesting.MockLogger_log c "info" "x" [] ;;;
         logtesting.MockLogger_GetEntries m) logtesting.emptyStore)
     = Some [].
Proof.
  split; [vm_compute; reflexivity |].
  pose (s := world_of (logtesting.New logtesting.emptyStore)).
  destruct (derived_logger_entries_not_shared s 0
              (logtesting.mkMockLogger (logtesting.mkSlice 0 0 0) (Some 0) "")
              (logger.OpWith "a" (AInt 1)) "info" "x" [] eq_refl)
    as [H _].
  - simpl. lia.
  - exact H.
Defined.

(** Beyond not sharing: while the common backing array has room, loggers
    derived from the same parent append into the same slot, and the
    later emission replaces the earlier one.  After [a.Info("x")] and
    [b.Info("y")], the last entry [a] shows is [b]'s. *)
Lemma siblings_append_into_the_same_slot :
  result_of (siblingsShareSlot logtesting.emptyStore)
  = Some (Some ("y", [("b", AInt 2)])).
Proof. vm_compute. reflexivity. Qed.

(** ** The capturing backend: LastEntry *)

Section MockLastEntry.
Import logtesting.

Lemma LastEntry_empty s m ml :
  loggers s !! m = Some ml -> len (Entries ml) = 0 ->
  MockLogger_LastEntry m s = Returns None s.
Proof.
  intros H H0. unfold MockLogger_LastEntry, bind, loadLogger.
  rewrite H, H0. reflexivity.
Qed.

Lemma LastEntry_copy s m ml e :
  loggers s !! m = Some ml -> len (Entries ml) <> 0 ->
  arrayData s (array (Entries ml)) !! (len (Entries ml) - 1) = Some e ->
  MockLogger_LastEntry m s
  = Returns (Some (length (cells s)))
      (mkStore (loggers s) (arrays s) (maps s) (cells s ++ [e])).
Proof.
  intros H H0 He. unfold MockLogger_LastEntry, bind, loadLogger. rewrite H.
  apply Nat.eqb_neq in H0. rewrite H0, He. reflexivity.
Qed.

Lemma LastEntry_not_nil s m ml :
  loggers s !! m = Some ml -> len (Entries ml) <> 0 ->
  MockLogger_LastEntry m s <> Returns None s.
Proof.
  intros H H0. unfold MockLogger_LastEntry, bind, loadLogger. rewrite H.
  apply Nat.eqb_neq in H0. rewrite H0.
  destruct (arrayData s (array (Entries ml)) !! (len (Entries ml) - 1));
    simpl; discriminate.
Qed.

Lemma extends_refl s : extends s s.
Proof.
  repeat split; try (exists []; now rewrite app_nil_r).
Qed.

Lemma extends_trans s1 s2 s3 : extends s1 s2 -> extends s2 s3 -> extends s1 s3.
Proof.
  intros ([L1 HL1] & [M1 HM1] & Ha1 & Hc1) ([L2 HL2] & [M2 HM2] & Ha2 & Hc2).
  repeat split; try congruence.
  - exists (L1 ++ L2). rewrite HL2, HL1. now rewrite app_assoc.
  - exists (M1 ++ M2). rewrite HM2, HM1. now rewrite app_assoc.
Qed.

Lemma extends_logger s s' m ml :
  extends s s' -> loggers s !! m = Some ml -> loggers s' !! m = Some ml.
Proof.
  intros ([L HL] & _) H. rewrite HL. now apply lookup_app_l_Some.
Qed.

Lemma extends_map s s' r :
  extends s s' -> wfMap s r -> wfMap s' r /\ mapContent s' r = mapContent s r.
Proof.
  intros (_ & [M HM] & _) H. destruct r as [a|]; simpl in *; [| easy].
  rewrite HM. split; [rewrite length_app; lia |].
  now rewrite lookup_app_l.
Qed.

Lemma extends_slice s s' sl : extends s s' -> wfSlice s sl -> wfSlice s' sl.
Proof.
  intros (_ & _ & Ha & _) H. unfold wfSlice, arrayData in *. now rewrite Ha.
Qed.

Lemma derive_extends s m ml d :
  loggers s !! m = Some ml ->
  extends s
    (mkStore
       (loggers s ++
        [mkMockLogger (Entries ml) (Some (length (maps s)))
           (match d with logger.OpWithGroup g => g | _ => group ml end)])
       (arrays s)
       (maps s ++ [bindInto (mapContent s (attrs ml)) d])
       (cells s)).
Proof. intros _. repeat split; simpl; eauto. Qed.

Lemma chain_mock ops :
  forall s m ml,
    loggers s !! m = Some ml -> wfMap s (attrs ml) ->
    exists c s1 mlc,
      logger.chain ops m s = Returns c s1
      /\ extends s s1
      /\ loggers s1 !! c = Some mlc
      /\ wfMap s1 (attrs mlc)
      /\ mapContent s1 (attrs mlc)
         = fold_left bindInto ops (mapContent s (attrs ml))
      /\ Entries mlc = Entries ml
      /\ (ops = [] -> c = m)
      /\ (ops <> [] -> length (loggers s) <= c).
Proof.
  induction ops as [|d ops IH]; intros s m ml H Hw.
  - exists m, s, ml. simpl. unfold ret.
    split; [reflexivity |]. split; [apply extends_refl |].
    split; [exact H |]. split; [exact Hw |].
    split; [reflexivity |]. split; [reflexivity |].
    split; [reflexivity | congruence].
  - simpl. unfold bind. rewrite (derive_run s m ml d H).
    set (s' := mkStore _ _ _ _).
    pose (child := mkMockLogger (Entries ml) (Some (length (maps s)))
                     (match d with logger.OpWithGroup g => g | _ => group ml end)).
    assert (Hc : loggers s' !! length (loggers s) = Some child)
      by apply lookup_snoc.
    assert (Hwc : wfMap s' (attrs child))
      by (simpl; rewrite length_app; simpl; lia).
    destruct (IH s' (length (loggers s)) child Hc Hwc)
      as (c & s1 & mlc & Hr & He & Hl & Hwm & Hm & Hent & Hnil & Hcons).
    exists c, s1, mlc. rewrite Hr.
    split; [reflexivity |].
    split; [eapply extends_trans; [| exact He]; exact (derive_extends s m ml d H) |].
    split; [exact Hl |]. split; [exact Hwm |].
    split; [rewrite Hm; f_equal; subst s' child; simpl; now rewrite lookup_snoc |].
    split; [exact Hent |].
    split; [discriminate |].
    intros _. destruct ops as [|d' ops'].
    + rewrite Hnil by reflexivity. lia.
    + assert (Hlen : length (loggers s') <= c) by (apply Hcons; discriminate).
      subst s'. simpl in Hlen. rewrite length_app in Hlen. simpl in Hlen. lia.
Qed.

Lemma log_view s m ml level msg kvs :
  loggers s !! m = Some ml -> wfSlice s (Entries ml) ->
  exists s' e,
    (MockLogger_log m level msg kvs ;;; MockLogger_LastEntry m) s
    = Returns (Some (length (cells s))) s'
    /\ cells s' !! length (cells s) = Some e
    /\ entryView s' e = (level, msg, kvs, mapContent s (attrs ml), group ml)
    /\ logFrame s s' m.
Proof.
  intros H (Ha & Hlc & Hcd).
  assert (Hm : m < length (loggers s)) by (eapply lookup_lt_Some; eauto).
  unfold bind at 1. unfold MockLogger_log, bind, loadLogger. rewrite H. simpl.
  unfold append. simpl.
  destruct (len (Entries ml) <? cap (Entries ml))%nat eqn:Hlt; simpl.
  - apply Nat.ltb_lt in Hlt.
    erewrite LastEntry_copy; cycle 1.
    + simpl. now apply list_lookup_insert_eq.
    + simpl. lia.
    + simpl. unfold arrayData at 1. simpl.
      rewrite list_lookup_insert_eq by lia. simpl.
      replace (len (Entries ml) + 1 - 1) with (len (Entries ml)) by lia.
      apply list_lookup_insert_eq. unfold arrayData in *. simpl. lia.
    + eexists. eexists. split; [reflexivity |]. simpl. split; [apply lookup_snoc |].
      split; [unfold entryView; simpl; now rewrite lookup_snoc |].
      unfold logFrame. simpl. split; [| split].
      * intros m' Hne. now rewrite list_lookup_insert_ne by congruence.
      * intros sl (Hs1 & Hs2 & Hs3). unfold wfSlice, arrayData in *. simpl.
        rewrite length_insert. split; [exact Hs1 |]. split; [exact Hs2 |].
        destruct (Nat.eq_dec (array sl) (array (Entries ml))) as [Heq | Hneq].
        -- rewrite Heq in *. rewrite list_lookup_insert_eq by lia. simpl.
           now rewrite length_insert.
        -- now rewrite list_lookup_insert_ne by congruence.
      * intros [a|] Hr; simpl in *; [| easy].
        rewrite length_app. split; [lia |]. now rewrite lookup_app_l.
  - apply Nat.ltb_ge in Hlt.
    erewrite LastEntry_copy; cycle 1.
    + simpl. now apply list_lookup_insert_eq.
    + simpl. lia.
    + simpl. unfold arrayData at 1. simpl.
      rewrite lookup_snoc. simpl.
      replace (len (Entries ml) + 1 - 1) with (len (Entries ml)) by lia.
      unfold sliceElems. simpl.
      rewrite lookup_app_r; rewrite length_take; unfold arrayData in *;
        simpl in *; [| lia].
      replace (len (Entries ml) - _) with 0 by lia. reflexivity.
    + eexists. eexists. split; [reflexivity |]. simpl. split; [apply lookup_snoc |].
      split; [unfold entryView; simpl; now rewrite lookup_snoc |].
      unfold logFrame. simpl. split; [| split].
      * intros m' Hne. now rewrite list_lookup_insert_ne by congruence.
      * intros sl (Hs1 & Hs2 & Hs3). unfold wfSlice, arrayData in *. simpl.
        rewrite length_app. split; [lia |]. split; [exact Hs2 |].
        now rewrite lookup_app_l.
      * intros [a|] Hr; simpl in *; [| easy].
        rewrite length_app. split; [lia |]. now rewrite lookup_app_l.
Qed.

(** C10 (as amended).  [LastEntry] returns nil exactly when the
    receiver's entry slice is empty, as it is after [New] and after
    [Reset]; otherwise it returns the address of a new variable holding
    a copy of the slice's last element, which immediately after an
    emission through the receiver is the entry just appended.  Assigning
    to that variable leaves every captured sequence as it was.  The copy
    is shallow: its [Attrs] is the same map as the captured entry's. *)
Theorem LastEntry_returns_shallow_copy (s : Store) (m : nat) (ml : MockLogger) :
  loggers s !! m = Some ml ->
  (MockLogger_LastEntry m s = Returns None s <-> len (Entries ml) = 0)
  /\ (forall e,
        len (Entries ml) <> 0 ->
        arrayData s (array (Entries ml)) !! (len (Entries ml) - 1) = Some e ->
        MockLogger_LastEntry m s
        = Returns (Some (length (cells s)))
            (mkStore (loggers s) (arrays s) (maps s) (cells s ++ [e])))
  /\ result_of ((m' <- New ;; MockLogger_LastEntry m') s) = Some None
  /\ result_of ((MockLogger_Reset m ;;; MockLogger_LastEntry m) s) = Some None
  /\ (wfSlice s (Entries ml) ->
      forall level msg kvs,
      exists s' e,
        (MockLogger_log m level msg kvs ;;; MockLogger_LastEntry m) s
        = Returns (Some (length (cells s))) s'
        /\ cells s' !! length (cells s) = Some e
        /\ entryView s' e = (level, msg, kvs, mapContent s (attrs ml), group ml))
  /\ (forall p e' m',
        result_of (MockLogger_GetEntries m' (world_of (storeCell p e' s)))
        = result_of (MockLogger_GetEntries m' s)
        /\ forall e, entryView (world_of (storeCell p e' s)) e = entryView s e).
Proof.
  intros H.
  assert (Hm : m < length (loggers s)) by (eapply lookup_lt_Some; eauto).
  split.
  { split.
    - intros Hn. destruct (Nat.eq_dec (len (Entries ml)) 0) as [|Hne]; [easy |].
      exfalso. eapply LastEntry_not_nil; eauto.
    - now apply LastEntry_empty. }
  split; [intros e; now apply LastEntry_copy |].
  split.
  { unfold bind, New, bind, makeArray, makeMap, newLogger. simpl.
    rewrite (LastEntry_empty _ _
               (mkMockLogger (mkSlice (length (arrays s)) 0 0)
                  (Some (length (maps s))) ""));
      [reflexivity | exact (lookup_snoc _ _) | reflexivity]. }
  split.
  { unfold bind, MockLogger_Reset, bind, loadLogger. rewrite H. simpl.
    rewrite (LastEntry_empty _ _
               (mkMockLogger (mkSlice (length (arrays s)) 0 0)
                  (attrs ml) (group ml)));
      [reflexivity | simpl; now apply list_lookup_insert_eq | reflexivity]. }
  split.
  { intros Hwf level msg kvs.
    destruct (log_view s m ml level msg kvs H Hwf) as (s' & e & Hr & Hc & Hv & _).
    now exists s', e. }
  intros p e' m'. split; [| reflexivity].
  unfold MockLogger_GetEntries, bind, loadLogger. simpl.
  destruct (loggers s !! m'); reflexivity.
Qed.

End MockLastEntry.

(** [LastEntry] on a new logger, after one emission through it, and on
    the store that holds one entry. *)
Lemma LastEntry_returns_shallow_copy_witness :
  logtesting.MockLogger_LastEntry 0 freshMockStore = Returns None freshMockStore
  /\ (exists s' e,
       (logtesting.MockLogger_log 0 "info" "x" [] ;;;
        logtesting.MockLogger_LastEntry 0) freshMockStore
       = Returns (Some (length (logtesting.cells freshMockStore))) s'
       /\ logtesting.cells s' !! length (logtesting.cells freshMockStore) = Some e
       /\ entryView s' e
          = ("info", "x", [], logtesting.mapContent freshMockStore (Some 0), ""))
  /\ logtesting.MockLogger_LastEntry 0 oneEntryStore
     = Returns (Some 0)
         (logtesting.mkStore (logtesting.loggers oneEntryStore)
            (logtesting.arrays oneEntryStore) (logtesting.maps oneEntryStore)
            [logtesting.mkLogEntry "info" "x" [] (Some 1) ""]).
Proof.
  destruct (LastEntry_returns_shallow_copy freshMockStore 0
              (logtesting.mkMockLogger (logtesting.mkSlice 0 0 0) (Some 0) "")
              eq_refl) as (Hnil & _ & _ & _ & Hlog & _).
  split; [apply Hnil; reflexivity |].
  split; [apply (Hlog ltac:(unfold wfSlice; simpl; lia) "info" "x" []) |].
  destruct (LastEntry_returns_shallow_copy oneEntryStore 0
              (logtesting.mkMockLogger (logtesting.mkSlice 1 1 1) (Some 0) "")
              eq_refl) as (_ & Hcopy & _).
  apply (Hcopy (logtesting.mkLogEntry "info" "x" [] (Some 1) "")).
  - simpl. lia.
  - reflexivity.
Defined.

(** C10, counterexample.  [m.Info("x"); e := m.LastEntry();
    e.Attrs["k"] = 1]: the entry captured by [m] now shows the attribute
    [k], so writing through the returned entry did alter what the
    captured sequence shows. *)
Lemma LastEntry_shares_attrs_counterexample :
  result_of (writeThroughLastEntry logtesting.emptyStore)
  = Some ([("info", "x", [], [], "")],
          [("info", "x", [], [("k", AInt 1)], "")])
  /\ [("info", "x", @nil any, @nil (string * any), "")]
     <> [("info", "x", [], [("k", AInt 1)], "")].
Proof. split; [vm_compute; reflexivity | discriminate]. Qed.

(** ** Derivation leaves the receiver alone *)

Section Isolation.
Context {E : JSONEngine}.

Lemma null_chain {W} ops (n : logger.NullLogger) (w : W) :
  @logger.chain _ _ logger.NullLogger_is_Logger ops n w = Returns n w.
Proof.
  induction ops as [|d ops IH]; [reflexivity |].
  simpl. unfold bind. destruct d; simpl; exact IH.
Qed.

Lemma mock_siblings s m ml level msg kvs :
  logtesting.loggers s !! m = Some ml ->
  wfMap s (logtesting.attrs ml) ->
  wfSlice s (logtesting.Entries ml) ->
  exists a b s2 s3 s4 ea eb,
    (a <- logtesting.MockLogger_With m "a" (AInt 1) ;;
     b <- logtesting.MockLogger_With m "b" (AInt 2) ;;
     ret (a, b)) s = Returns (a, b) s2
    /\ a <> b
    /\ (logtesting.MockLogger_log a level msg kvs ;;;
        logtesting.MockLogger_LastEntry a) s2
       = Returns (Some (length (logtesting.cells s2))) s3
    /\ logtesting.cells s3 !! length (logtesting.cells s2) = Some ea
    /\ entryView s3 ea
       = (level, msg, kvs,
          <["a" := AInt 1]> (logtesting.mapContent s (logtesting.attrs ml)),
          logtesting.group ml)
    /\ (logtesting.MockLogger_log b level msg kvs ;;;
        logtesting.MockLogger_LastEntry b) s3
       = Returns (Some (length (logtesting.cells s3))) s4
    /\ logtesting.cells s4 !! length (logtesting.cells s3) = Some eb
    /\ entryView s4 eb
       = (level, msg, kvs,
          <["b" := AInt 2]> (logtesting.mapContent s (logtesting.attrs ml)),
          logtesting.group ml).
Proof.
  intros H Hwm Hws.
  pose (P := logtesting.mapContent s (logtesting.attrs ml)).
  pose (A := logtesting.mkMockLogger (logtesting.Entries ml)
               (Some (length (logtesting.maps s))) (logtesting.group ml)).
  pose (s1 := logtesting.mkStore (logtesting.loggers s ++ [A])
                (logtesting.arrays s)
                (logtesting.maps s ++ [<["a" := AInt 1]> P])
                (logtesting.cells s)).
  assert (H1 : logtesting.loggers s1 !! m = Some ml)
    by (simpl; now apply lookup_app_l_Some).
  assert (HP1 : logtesting.mapContent s1 (logtesting.attrs ml) = P).
  { destruct (logtesting.attrs ml) as [r|] eqn:Hr; simpl in *; [| reflexivity].
    unfold P. simpl. now rewrite lookup_app_l. }
  pose (B := logtesting.mkMockLogger (logtesting.Entries ml)
               (Some (length (logtesting.maps s1))) (logtesting.group ml)).
  pose (s2 := logtesting.mkStore (logtesting.loggers s1 ++ [B])
                (logtesting.arrays s1)
                (logtesting.maps s1 ++ [<["b" := AInt 2]> P])
                (logtesting.cells s1)).
  assert (Hab : (a <- logtesting.MockLogger_With m "a" (AInt 1) ;;
                 b <- logtesting.MockLogger_With m "b" (AInt 2) ;;
                 ret (a, b)) s
                = Returns (length (logtesting.loggers s),
                           length (logtesting.loggers s1)) s2).
  { unfold bind. rewrite (With_run s m ml "a" (AInt 1) H). fold P A s1.
    rewrite (With_run s1 m ml "b" (AInt 2) H1). rewrite HP1. reflexivity. }
  assert (Ha2 : logtesting.loggers s2 !! length (logtesting.loggers s) = Some A).
  { simpl. rewrite lookup_app_l by (rewrite length_app; simpl; lia).
    apply lookup_snoc. }
  assert (Hb2 : logtesting.loggers s2 !! length (logtesting.loggers s1) = Some B)
    by apply lookup_snoc.
  assert (Hws2 : wfSlice s2 (logtesting.Entries ml)) by exact Hws.
  destruct (log_view s2 _ A level msg kvs Ha2 Hws2)
    as (s3 & ea & Hr3 & Hc3 & Hv3 & Hf3 & Hfs3 & Hfm3).
  assert (Hne : length (logtesting.loggers s1) <> length (logtesting.loggers s))
    by (simpl; rewrite length_app; simpl; lia).
  assert (Hb3 : logtesting.loggers s3 !! length (logtesting.loggers s1) = Some B)
    by (rewrite Hf3 by exact Hne; exact Hb2).
  destruct (log_view s3 _ B level msg kvs Hb3 (Hfs3 _ Hws2))
    as (s4 & eb & Hr4 & Hc4 & Hv4 & _).
  exists (length (logtesting.loggers s)), (length (logtesting.loggers s1)),
    s2, s3, s4, ea, eb.
  split; [exact Hab |]. split; [congruence |].
  split; [exact Hr3 |]. split; [exact Hc3 |].
  split.
  { rewrite Hv3. repeat f_equal. simpl.
    rewrite lookup_app_l by (rewrite length_app; simpl; lia).
    now rewrite lookup_snoc. }
  split; [exact Hr4 |]. split; [exact Hc4 |].
  rewrite Hv4. repeat f_equal.
  assert (Hwb : wfMap s2 (logtesting.attrs B))
    by (simpl; rewrite !length_app; simpl; lia).
  destruct (Hfm3 _ Hwb) as [_ ->]. simpl. now rewrite lookup_snoc.
Qed.

Lemma zerolog_With_fields l key value op msg kvs (w : logzerolog.ZWorld) :
  logzerolog.leveled op (logzerolog.ZerologLogger_With l key value) msg kvs w
  = Returns tt
      (if (logzerolog.level (logzerolog.logger l) <=? logzerolog.levelOf op)%Z
       then w ++ [logzerolog.mkSent
                    (logzerolog.out (logzerolog.logger l))
                    (logzerolog.console (logzerolog.logger l))
                    (logzerolog.levelOf op)
                    (logzerolog.context (logzerolog.logger l)
                     ++ [(key, value)] ++ wellFormedPairs kvs)
                    msg]
       else w).
Proof. rewrite leveled_sends. simpl. now rewrite <- app_assoc. Qed.

(** C1.  On every backend a derivation returns a logger of its own and
    leaves the receiver with the attributes it had.

    - Null: every derivation returns the receiver, which binds nothing,
      and no emission changes the world.
    - Capturing: a chain of derivations from [m] allocates new loggers
      and new maps only; [m]'s fields and the content of its attribute
      map stay as they were, the derived logger's map holds [m]'s
      attributes plus those bound along the chain, and an entry emitted
      through [m] afterwards carries exactly [m]'s attributes.  Entries
      emitted through the siblings [m.With("a", 1)] and [m.With("b", 2)]
      carry [m]'s attributes plus [a], respectively plus [b].
    - Slog (console handler): a chain of derivations changes nothing in
      the world, so the receiver emits as before; the derived handler
      holds the receiver's attributes followed by the bound ones, and
      each sibling's line is rendered from the receiver's attributes and
      its own.
    - Zerolog: the derived logger's context is the receiver's followed
      by the bound field, and its events carry just that. *)
Theorem With_leaves_receiver_unchanged :
  (forall (W : Type) (n : logger.NullLogger) (ops : list logger.Derive) (w : W),
      @logger.chain _ _ logger.NullLogger_is_Logger ops n w = Returns n w
      /\ forall op msg kvs,
           @logger.emit _ _ logger.NullLogger_is_Logger op n msg kvs w
           = Returns tt w)
  /\ (forall s m ml ops,
        logtesting.loggers s !! m = Some ml ->
        wfMap s (logtesting.attrs ml) ->
        wfSlice s (logtesting.Entries ml) ->
        exists c s1 mlc,
          @logger.chain _ _ logtesting.MockLogger_is_Logger ops m s
          = Returns c s1
          /\ logtesting.loggers s1 !! m = Some ml
          /\ logtesting.mapContent s1 (logtesting.attrs ml)
             = logtesting.mapContent s (logtesting.attrs ml)
          /\ (ops <> [] -> length (logtesting.loggers s) <= c)
          /\ logtesting.loggers s1 !! c = Some mlc
          /\ logtesting.mapContent s1 (logtesting.attrs mlc)
             = fold_left bindInto ops
                 (logtesting.mapContent s (logtesting.attrs ml))
          /\ forall level msg kvs,
             exists s2 e,
               (logtesting.MockLogger_log m level msg kvs ;;;
                logtesting.MockLogger_LastEntry m) s1
               = Returns (Some (length (logtesting.cells s1))) s2
               /\ logtesting.cells s2 !! length (logtesting.cells s1) = Some e
               /\ entryView s2 e
                  = (level, msg, kvs,
                     logtesting.mapContent s (logtesting.attrs ml),
                     logtesting.group ml))
  /\ (forall s m ml level msg kvs,
        logtesting.loggers s !! m = Some ml ->
        wfMap s (logtesting.attrs ml) ->
        wfSlice s (logtesting.Entries ml) ->
        exists a b s2 s3 s4 ea eb,
          (a <- logtesting.MockLogger_With m "a" (AInt 1) ;;
           b <- logtesting.MockLogger_With m "b" (AInt 2) ;;
           ret (a, b)) s = Returns (a, b) s2
          /\ a <> b
          /\ (logtesting.MockLogger_log a level msg kvs ;;;
              logtesting.MockLogger_LastEntry a) s2
             = Returns (Some (length (logtesting.cells s2))) s3
          /\ logtesting.cells s3 !! length (logtesting.cells s2) = Some ea
          /\ entryView s3 ea
             = (level, msg, kvs,
                <["a" := AInt 1]> (logtesting.mapContent s (logtesting.attrs ml)),
                logtesting.group ml)
          /\ (logtesting.MockLogger_log b level msg kvs ;;;
              logtesting.MockLogger_LastEntry b) s3
             = Returns (Some (length (logtesting.cells s3))) s4
          /\ logtesting.cells s4 !! length (logtesting.cells s3) = Some eb
          /\ entryView s4 eb
             = (level, msg, kvs,
                <["b" := AInt 2]> (logtesting.mapContent s (logtesting.attrs ml)),
                logtesting.group ml))
  /\ (forall (P : gmap string any),
        (<["a" := AInt 1]> P) !! "b" = P !! "b"
        /\ (<["b" := AInt 2]> P) !! "a" = P !! "a")
  /\ (forall h ops w,
        @logger.chain _ _ logslog.SlogLogger_is_Logger ops (consoleLogger h) w
        = Returns (consoleLogger (bindAll h ops)) w
        /\ logslog.attrs (bindAll h ops)
           = logslog.attrs h ++ map (boundAttr (logslog.groupFieldName h)) ops
        /\ forall op msg kvs,
             (_ <- @logger.chain _ _ logslog.SlogLogger_is_Logger ops
                     (consoleLogger h) ;;
              @logger.emit _ _ logslog.SlogLogger_is_Logger op
                (consoleLogger h) msg kvs) w
             = @logger.emit _ _ logslog.SlogLogger_is_Logger op
                 (consoleLogger h) msg kvs w)
  /\ (forall h key value op msg kvs w,
        op <> logger.OpFatal ->
        let child := bindAll h [logger.OpWith key value] in
        logslog.SlogLogger_With (consoleLogger h) key value w
        = Returns (consoleLogger child) w
        /\ logslog.attrs child = logslog.attrs h ++ [slog_Any key value]
        /\ @logger.emit _ _ logslog.SlogLogger_is_Logger op
             (consoleLogger child) msg kvs w
           = Returns tt
               (if logslog.ConsoleHandler_Enabled h (emitLevel op)
                then wrote w (logslog.writer h)
                       (shownLine child (recordOf w (emitLevel op) msg kvs))
                else w))
  /\ (forall l key value,
        logzerolog.context (logzerolog.logger (logzerolog.ZerologLogger_With l key value))
        = logzerolog.context (logzerolog.logger l) ++ [(key, value)]
        /\ forall op msg kvs (w : logzerolog.ZWorld),
             logzerolog.leveled op (logzerolog.ZerologLogger_With l key value)
               msg kvs w
             = Returns tt
                 (if (logzerolog.level (logzerolog.logger l)
                      <=? logzerolog.levelOf op)%Z
                  then w ++ [logzerolog.mkSent
                               (logzerolog.out (logzerolog.logger l))
                               (logzerolog.console (logzerolog.logger l))
                               (logzerolog.levelOf op)
                               (logzerolog.context (logzerolog.logger l)
                                ++ [(key, value)] ++ wellFormedPairs kvs)
                               msg]
                  else w)).
Proof.
  split.
  { intros W n ops w. split; [apply null_chain |].
    intros op msg kvs. destruct op; reflexivity. }
  split.
  { intros s m ml ops H Hwm Hws.
    destruct (chain_mock ops s m ml H Hwm)
      as (c & s1 & mlc & Hr & He & Hl & _ & Hm & _ & _ & Hfresh).
    exists c, s1, mlc.
    split; [exact Hr |].
    split; [eapply extends_logger; eauto |].
    split; [now apply (extends_map s s1) |].
    split; [exact Hfresh |]. split; [exact Hl |]. split; [exact Hm |].
    intros level msg kvs.
    destruct (log_view s1 m ml level msg kvs
                (extends_logger s s1 m ml He H) (extends_slice s s1 _ He Hws))
      as (s2 & e & Hr2 & Hc2 & Hv2 & _).
    exists s2, e. split; [exact Hr2 |]. split; [exact Hc2 |].
    rewrite Hv2. destruct (extends_map s s1 _ He Hwm) as [_ ->]. reflexivity. }
  split; [intros; now apply mock_siblings |].
  split.
  { intros P. split; now rewrite lookup_insert_ne. }
  split.
  { intros h ops w. split; [apply chain_console |]. split; [reflexivity |].
    intros op msg kvs. unfold bind at 1. now rewrite chain_console. }
  split.
  { intros h key value op msg kvs w Hop child.
    split; [exact (derive_console h (logger.OpWith key value) w) |].
    split; [reflexivity |].
    now rewrite emit_console_returns. }
  intros l key value. split; [reflexivity |].
  intros op msg kvs w. apply zerolog_With_fields.
Qed.

End Isolation.

(** The chain [With("a", 1).With("b", 2)] from a new mock logger, the
    siblings [With("a", 1)] and [With("b", 2)] of that logger, and the
    sibling [With("a", 1)] of the default console logger emitting
    [Info("m")]. *)
Lemma With_leaves_receiver_unchanged_witness :
  (exists c s1 mlc,
      @logger.chain _ _ logtesting.MockLogger_is_Logger
        [logger.OpWith "a" (AInt 1); logger.OpWith "b" (AInt 2)] 0 freshMockStore
      = Returns c s1
      /\ logtesting.loggers s1 !! 0
         = Some (logtesting.mkMockLogger (logtesting.mkSlice 0 0 0) (Some 0) "")
      /\ logtesting.mapContent s1 (Some 0) = logtesting.mapContent freshMockStore (Some 0)
      /\ logtesting.loggers s1 !! c = Some mlc
      /\ logtesting.mapContent s1 (logtesting.attrs mlc)
         = <["b" := AInt 2]> (<["a" := AInt 1]>
             (logtesting.mapContent freshMockStore (Some 0))))
  /\ (exists a b s2 s3 s4 ea eb,
        (a <- logtesting.MockLogger_With 0 "a" (AInt 1) ;;
         b <- logtesting.MockLogger_With 0 "b" (AInt 2) ;;
         ret (a, b)) freshMockStore = Returns (a, b) s2
        /\ a <> b
        /\ (logtesting.MockLogger_log a "info" "x" [] ;;;
            logtesting.MockLogger_LastEntry a) s2
           = Returns (Some (length (logtesting.cells s2))) s3
        /\ logtesting.cells s3 !! length (logtesting.cells s2) = Some ea
        /\ entryView s3 ea
           = ("info", "x", [],
              <["a" := AInt 1]> (logtesting.mapContent freshMockStore (Some 0)), "")
        /\ (logtesting.MockLogger_log b "info" "x" [] ;;;
            logtesting.MockLogger_LastEntry b) s3
           = Returns (Some (length (logtesting.cells s3))) s4
        /\ logtesting.cells s4 !! length (logtesting.cells s3) = Some eb
        /\ entryView s4 eb
           = ("info", "x", [],
              <["b" := AInt 2]> (logtesting.mapContent freshMockStore (Some 0)), ""))
  /\ @logger.emit _ _ (@logslog.SlogLogger_is_Logger exampleEngine) logger.OpInfo
       (@consoleLogger exampleEngine
          (bindAll (cfgHandler defaultConfig) [logger.OpWith "a" (AInt 1)]))
       "m" [] exampleWorld
     = Returns tt
         (wrote exampleWorld Stdout
            (lineHead exampleTime LevelInfo +:+ "m" +:+
             pairText ["a"] (Int64Value 1) +:+ LF)).
Proof.
  destruct (@With_leaves_receiver_unchanged exampleEngine)
    as (_ & Hmock & Hsib & _ & _ & Hslog & _).
  split; [| split].
  - destruct (Hmock freshMockStore 0
                (logtesting.mkMockLogger (logtesting.mkSlice 0 0 0) (Some 0) "")
                [logger.OpWith "a" (AInt 1); logger.OpWith "b" (AInt 2)]
                eq_refl)
      as (c & s1 & mlc & Hr & Hl & Hm & _ & Hc & Hcm & _).
    + simpl. lia.
    + unfold wfSlice. simpl. lia.
    + exists c, s1, mlc. repeat split; assumption.
  - apply (Hsib freshMockStore 0
             (logtesting.mkMockLogger (logtesting.mkSlice 0 0 0) (Some 0) "")
             "info" "x" [] eq_refl).
    + simpl. lia.
    + unfold wfSlice. simpl. lia.
  - destruct (Hslog (cfgHandler defaultConfig) "a" (AInt 1) logger.OpInfo
                "m" [] exampleWorld) as (_ & _ & He); [discriminate |].
    refine (eq_trans He _). vm_compute. reflexivity.
Defined.

(** ** A remark on the json format

    The [ReplaceAttr] closure that [New] hands to the standard library's
    handler asserts that every attribute under the key [level] holds a
    [slog.Level]; on a built-in level it renames the two custom levels,
    on any other value under that key the assertion panics. *)
Lemma replaceAttr_renames_custom_levels :
  logslog.replaceAttr [] (mkAttr LevelKey (LevelValue logslog.LevelTrace))
    = Some (mkAttr LevelKey (StringValue "TRACE"))
  /\ logslog.replaceAttr [] (mkAttr LevelKey (LevelValue logslog.LevelFatal))
     = Some (mkAttr LevelKey (StringValue "FATAL"))
  /\ logslog.replaceAttr [] (mkAttr LevelKey (LevelValue LevelInfo))
     = Some (mkAttr LevelKey (LevelValue LevelInfo))
  /\ logslog.replaceAttr [] (mkAttr "level" (StringValue "high")) = None.
Proof. repeat split. Qed.

(** ** The capturing backend: what an emission does to the store *)

Section MockRuns.
Import logtesting.

Lemma emit_mock op m msg kvs s :
  @logger.emit _ _ MockLogger_is_Logger op m msg kvs s
  = MockLogger_log m (levelName op) msg kvs s.
Proof. destruct op; reflexivity. Qed.

Lemma growcap_fits c : c + 1 <= growcap c (c + 1).
Proof.
  unfold growcap.
  destruct (c + c <? c + 1)%nat eqn:H1; [lia |].
  apply Nat.ltb_ge in H1.
  destruct (c <? 256)%nat; [lia |].
  assert (1 <= (c + 3 * 256) / 4) by (apply Nat.div_le_lower_bound; lia).
  lia.
Qed.

Lemma log_run s m ml level msg kvs :
  loggers s !! m = Some ml -> wfSlice s (Entries ml) ->
  let e := mkLogEntry level msg kvs (Some (length (maps s))) (group ml) in
  exists s' sl',
    MockLogger_log m level msg kvs s = Returns tt s'
    /\ loggers s' = <[m := mkMockLogger sl' (attrs ml) (group ml)]> (loggers s)
    /\ maps s' = maps s ++ [mapContent s (attrs ml)]
    /\ cells s' = cells s
    /\ len sl' = len (Entries ml) + 1
    /\ wfSlice s' sl'
    /\ sliceElems s' sl' = sliceElems s (Entries ml) ++ [e]
    /\ (forall sl, wfSlice s sl -> wfSlice s' sl)
    /\ (forall sl, wfSlice s sl -> outOfReach (Entries ml) sl ->
          sliceElems s' sl = sliceElems s sl /\ outOfReach sl' sl)
    /\ (len (Entries ml) < cap (Entries ml) ->
          sl' = mkSlice (array (Entries ml)) (len (Entries ml) + 1)
                  (cap (Entries ml))
          /\ arrays s'
             = <[array (Entries ml) :=
                   <[len (Entries ml) := e]> (arrayData s (array (Entries ml)))]>
                 (arrays s))
    /\ (cap (Entries ml) <= len (Entries ml) ->
          array sl' = length (arrays s)).
Proof.
  intros H (Ha & Hlc & Hcd) e.
  unfold MockLogger_log, bind, loadLogger. rewrite H. simpl.
  unfold append. simpl. fold e.
  destruct (len (Entries ml) <? cap (Entries ml))%nat eqn:Hlt; simpl.
  - apply Nat.ltb_lt in Hlt.
    eexists. eexists. split; [reflexivity |]. simpl.
    split; [reflexivity |]. split; [reflexivity |]. split; [reflexivity |].
    split; [reflexivity |].
    unfold arrayData in *. simpl.
    split.
    { unfold wfSlice, arrayData. simpl. rewrite length_insert.
      split; [exact Ha |]. split; [lia |].
      rewrite list_lookup_insert_eq by lia. simpl. now rewrite length_insert. }
    split.
    { unfold sliceElems, arrayData. simpl.
      rewrite list_lookup_insert_eq by lia. simpl.
      replace (len (Entries ml) + 1) with (S (len (Entries ml))) by lia.
      destruct (lookup_lt_is_Some_2 (default [] (arrays s !! array (Entries ml)))
                  (len (Entries ml))) as [x Hx]; [lia |].
      erewrite take_S_r by (apply list_lookup_insert_eq; lia).
      now rewrite take_insert_ge by lia. }
    split.
    { intros sl (Hs1 & Hs2 & Hs3). unfold wfSlice, arrayData in *. simpl.
      rewrite length_insert. split; [exact Hs1 |]. split; [exact Hs2 |].
      destruct (Nat.eq_dec (array sl) (array (Entries ml))) as [Heq | Hneq].
      - rewrite Heq in *. rewrite list_lookup_insert_eq by lia. simpl.
        now rewrite length_insert.
      - now rewrite list_lookup_insert_ne by congruence. }
    split.
    { intros sl (Hs1 & Hs2 & Hs3) Hout. split.
      - unfold sliceElems, arrayData. simpl.
        destruct (Nat.eq_dec (array sl) (array (Entries ml))) as [Heq | Hneq].
        + destruct Hout as [Hout | Hout]; [congruence |].
          rewrite Heq. rewrite list_lookup_insert_eq by lia. simpl.
          now rewrite take_insert_ge by lia.
        + now rewrite list_lookup_insert_ne by congruence.
      - unfold outOfReach in *. simpl. destruct Hout; [now left | right; lia]. }
    split; [intros _; split; reflexivity | lia].
  - apply Nat.ltb_ge in Hlt.
    assert (Hlen : len (Entries ml) = cap (Entries ml)) by lia.
    eexists. eexists. split; [reflexivity |]. simpl.
    split; [reflexivity |]. split; [reflexivity |]. split; [reflexivity |].
    split; [reflexivity |].
    split.
    { unfold wfSlice, arrayData. simpl. rewrite length_app. simpl.
      split; [lia |].
      assert (Hg : len (Entries ml) + 1
                   <= growcap (cap (Entries ml)) (len (Entries ml) + 1))
        by (rewrite Hlen; apply growcap_fits).
      split; [exact Hg |].
      rewrite lookup_snoc. simpl.
      rewrite length_app. simpl. rewrite length_replicate.
      unfold sliceElems. rewrite length_take. unfold arrayData in *. simpl. lia. }
    split.
    { unfold sliceElems at 1, arrayData. simpl. rewrite lookup_snoc. simpl.
      change (sliceElems (mkStore _ _ _ _) (Entries ml))
        with (sliceElems s (Entries ml)).
      rewrite cons_middle, app_assoc.
      rewrite take_app_length'; [reflexivity |].
      rewrite length_app. simpl. unfold sliceElems. rewrite length_take.
      unfold arrayData in *. simpl. lia. }
    split.
    { intros sl (Hs1 & Hs2 & Hs3). unfold wfSlice, arrayData in *. simpl.
      rewrite length_app. split; [lia |]. split; [exact Hs2 |].
      now rewrite lookup_app_l. }
    split.
    { intros sl (Hs1 & Hs2 & Hs3) Hout. split.
      - unfold sliceElems, arrayData. simpl. now rewrite lookup_app_l.
      - left. simpl. lia. }
    split; [lia | reflexivity].
Qed.

Lemma maps_grow s s' r :
  (exists M, maps s' = maps s ++ M) -> wfMap s r ->
  wfMap s' r /\ mapContent s' r = mapContent s r.
Proof.
  intros [M HM] H. destruct r as [a|]; simpl in *; [| easy].
  rewrite HM. split; [rewrite length_app; lia |].
  now rewrite lookup_app_l.
Qed.

Lemma MockLogger_eta ml : mkMockLogger (Entries ml) (attrs ml) (group ml) = ml.
Proof. now destruct ml. Qed.

(** A run of calls through the logger at [m]: its slice grows by one
    entry per call, in call order, each with the logger's attributes and
    group; the store keeps everything else it had. *)
Lemma emitAll_run calls :
  forall s m ml,
    loggers s !! m = Some ml -> wfSlice s (Entries ml) -> wfMap s (attrs ml) ->
    exists s' sl' new,
      @emitAll _ _ MockLogger_is_Logger calls m s = Returns tt s'
      /\ loggers s' = <[m := mkMockLogger sl' (attrs ml) (group ml)]> (loggers s)
      /\ (exists M, maps s' = maps s ++ M)
      /\ cells s' = cells s
      /\ wfSlice s' sl'
      /\ sliceElems s' sl' = sliceElems s (Entries ml) ++ new
      /\ map (entryView s') new
         = map (callView (mapContent s (attrs ml)) (group ml)) calls
      /\ Forall (fun e => wfMap s' (Attrs e)) new
      /\ (forall sl, wfSlice s sl -> wfSlice s' sl)
      /\ (forall sl, wfSlice s sl -> outOfReach (Entries ml) sl ->
            sliceElems s' sl = sliceElems s sl /\ outOfReach sl' sl).
Proof.
  induction calls as [|[[op msg] kvs] calls IH]; intros s m ml H Hws Hwm.
  - exists s, (Entries ml), []. simpl. unfold ret.
    split; [reflexivity |].
    split; [rewrite MockLogger_eta; symmetry; now apply list_insert_id |].
    split; [exists []; now rewrite app_nil_r |].
    split; [reflexivity |]. split; [exact Hws |].
    split; [now rewrite app_nil_r |]. split; [reflexivity |].
    split; [constructor |]. split; [trivial |].
    intros sl _ Hout. split; [reflexivity | exact Hout].
  - assert (Hm : m < length (loggers s)) by (eapply lookup_lt_Some; eauto).
    simpl. unfold bind. rewrite emit_mock.
    destruct (log_run s m ml (levelName op) msg kvs H Hws)
      as (s1 & sl1 & Hr1 & Hl1 & Hm1 & Hc1 & Hlen1 & Hws1 & He1 & Hkeep1 & Hout1 & _ & _).
    rewrite Hr1.
    assert (Hgrow1 : exists M, maps s1 = maps s ++ M) by eauto.
    destruct (maps_grow s s1 _ Hgrow1 Hwm) as [Hwm1 Hcont1].
    assert (H1 : loggers s1 !! m
                 = Some (mkMockLogger sl1 (attrs ml) (group ml)))
      by (rewrite Hl1; now apply list_lookup_insert_eq).
    destruct (IH s1 m _ H1 Hws1 Hwm1)
      as (s' & sl' & new & Hr & Hl & Hgrow & Hc & Hws' & He & Hv & Hwf & Hkeep & Hout).
    simpl in *.
    exists s', sl', (mkLogEntry (levelName op) msg kvs (Some (length (maps s)))
                   (group ml) :: new).
    split; [exact Hr |].
    split; [rewrite Hl, Hl1; now rewrite list_insert_insert_eq |].
    split.
    { destruct Hgrow as [M HM]. exists ([mapContent s (attrs ml)] ++ M).
      rewrite HM, Hm1. now rewrite <- app_assoc. }
    split; [congruence |]. split; [exact Hws' |].
    split; [rewrite He, He1; now rewrite <- app_assoc |].
    assert (Hnew : wfMap s1 (Some (length (maps s))))
      by (simpl; rewrite Hm1, length_app; simpl; lia).
    destruct (maps_grow s1 s' _ Hgrow Hnew) as [Hnew' Hcont'].
    split.
    { simpl. f_equal; [| rewrite Hv, Hcont1; reflexivity].
      unfold entryView. simpl mapContent at 1. simpl in Hcont'.
      simpl. rewrite Hcont'. rewrite Hm1, lookup_snoc. reflexivity. }
    split; [constructor; [exact Hnew' | exact Hwf] |].
    split; [intros sl Hsl; apply Hkeep, Hkeep1, Hsl |].
    intros sl Hsl Ho. destruct (Hout1 sl Hsl Ho) as [Hv1 Ho1].
    destruct (Hout sl (Hkeep1 sl Hsl) Ho1) as [Hv2 Ho2].
    split; [congruence | exact Ho2].
Qed.

Lemma GetEntries_run s m ml :
  loggers s !! m = Some ml ->
  MockLogger_GetEntries m s = Returns (sliceElems s (Entries ml)) s.
Proof.
  intros H. unfold MockLogger_GetEntries, bind, loadLogger. now rewrite H.
Qed.

Lemma count_loop level entries :
  forall n,
    fold_left (fun count entry =>
                 if String.eqb (Level entry) level then count + 1 else count)
      entries n
    = n + length (List.filter (atLevel level) entries).
Proof.
  induction entries as [|e es IH]; intros n; simpl; [lia |].
  rewrite IH. unfold atLevel at 2.
  destruct (String.eqb (Level e) level); simpl; lia.
Qed.

Lemma CountEntries_run s m ml level :
  loggers s !! m = Some ml ->
  MockLogger_CountEntries m level s
  = Returns (length (List.filter (atLevel level) (sliceElems s (Entries ml)))) s.
Proof.
  intros H. unfold MockLogger_CountEntries, bind, loadLogger, readSlice, ret.
  rewrite H. now rewrite count_loop.
Qed.

Lemma HasEntry_run s m ml level message :
  loggers s !! m = Some ml ->
  MockLogger_HasEntry m level message s
  = Returns (existsb (isEntry level message) (sliceElems s (Entries ml))) s.
Proof.
  intros H. unfold MockLogger_HasEntry, bind, loadLogger, readSlice, ret.
  now rewrite H.
Qed.

(** Entries that show what the calls of a list should leave behind also
    count and match like those calls. *)
Lemma views_count s content g level message :
  forall new calls,
    map (entryView s) new = map (callView content g) calls ->
    length (List.filter (atLevel level) new)
    = length (List.filter (callAt level) calls)
    /\ existsb (isEntry level message) new
       = existsb (callIs level message) calls.
Proof.
  induction new as [|e new IH]; intros [|[[op msg] kvs] calls] Hv;
    simpl in Hv; try discriminate; [split; reflexivity |].
  injection Hv as Hl Hm _ _ _ Hrest.
  destruct (IH calls Hrest) as [IHc IHe].
  simpl. unfold atLevel at 1, isEntry at 1, callAt at 1, callIs at 1. simpl.
  rewrite Hl, Hm, IHe. split; [| reflexivity].
  destruct (String.eqb (levelName op) level); simpl; now rewrite IHc.
Qed.

(** X1.  The entries a mock logger shows after a run of calls through it are
    the entries it showed before followed by one entry per call, in call
    order: each holds the lower-case name of the method (so [Fatal] is
    recorded, and returns, like the others), the message, the key/value
    sequence as passed, the attributes bound to the logger and its
    group. *)
Theorem mock_records_calls_in_order (s : Store) (m : nat) (ml : MockLogger)
    (calls : list Call) :
  loggers s !! m = Some ml ->
  wfSlice s (Entries ml) ->
  wfMap s (attrs ml) ->
  exists s' new,
    @emitAll _ _ MockLogger_is_Logger calls m s = Returns tt s'
    /\ MockLogger_GetEntries m s'
       = Returns (sliceElems s (Entries ml) ++ new) s'
    /\ map (entryView s') new
       = map (callView (mapContent s (attrs ml)) (group ml)) calls.
Proof.
  intros H Hws Hwm.
  assert (Hm : m < length (loggers s)) by (eapply lookup_lt_Some; eauto).
  destruct (emitAll_run calls s m ml H Hws Hwm)
    as (s' & sl' & new & Hr & Hl & _ & _ & _ & He & Hv & _).
  exists s', new. split; [exact Hr |]. split; [| exact Hv].
  erewrite GetEntries_run
    by (rewrite Hl; now apply list_lookup_insert_eq).
  simpl. now rewrite He.
Qed.

(** X2.  [CountEntries] and [HasEntry] after a run of calls through the
    logger: the count of a level is the count before plus the number of
    calls of the method of that name, and an entry with a level and a
    message is found exactly when it was there before or one of the
    calls was that method with that message. *)
Theorem mock_counts_and_finds_calls (s : Store) (m : nat) (ml : MockLogger)
    (calls : list Call) :
  loggers s !! m = Some ml ->
  wfSlice s (Entries ml) ->
  wfMap s (attrs ml) ->
  exists s',
    @emitAll _ _ MockLogger_is_Logger calls m s = Returns tt s'
    /\ (forall level,
          MockLogger_CountEntries m level s'
          = Returns
              (length (List.filter (atLevel level) (sliceElems s (Entries ml)))
               + length (List.filter (callAt level) calls)) s')
    /\ (forall level message,
          MockLogger_HasEntry m level message s'
          = Returns
              (existsb (isEntry level message) (sliceElems s (Entries ml))
               || existsb (callIs level message) calls) s').
Proof.
  intros H Hws Hwm.
  assert (Hm : m < length (loggers s)) by (eapply lookup_lt_Some; eauto).
  destruct (emitAll_run calls s m ml H Hws Hwm)
    as (s' & sl' & new & Hr & Hl & _ & _ & _ & He & Hv & _).
  assert (H' : loggers s' !! m = Some (mkMockLogger sl' (attrs ml) (group ml)))
    by (rewrite Hl; now apply list_lookup_insert_eq).
  exists s'. split; [exact Hr |]. split.
  - intros level. rewrite (CountEntries_run s' m _ level H'). simpl.
    rewrite He, List.filter_app, length_app.
    destruct (views_count s' _ _ level "" new calls Hv) as [-> _]. reflexivity.
  - intros level message. rewrite (HasEntry_run s' m _ level message H'). simpl.
    rewrite He, existsb_app.
    destruct (views_count s' _ _ level message new calls Hv) as [_ ->].
    reflexivity.
Qed.

(** X3.  [Reset] empties the entries of its receiver and of no other logger:
    the receiver then shows no entry, counts none and finds none, while
    every other logger of the store, a logger derived from the receiver
    or the one it was derived from included, shows what it showed
    before.  The receiver keeps its attributes and its group: after
    calls made through it, its entries are exactly those of the calls. *)
Theorem Reset_empties_the_receiver_only (s : Store) (m : nat)
    (ml : MockLogger) :
  loggers s !! m = Some ml ->
  exists s',
    MockLogger_Reset m s = Returns tt s'
    /\ MockLogger_GetEntries m s' = Returns [] s'
    /\ (forall level, MockLogger_CountEntries m level s' = Returns 0 s')
    /\ (forall level message,
          MockLogger_HasEntry m level message s' = Returns false s')
    /\ (forall m' ml',
          m' <> m -> loggers s !! m' = Some ml' -> wfSlice s (Entries ml') ->
          MockLogger_GetEntries m' s'
          = Returns (sliceElems s (Entries ml')) s')
    /\ (wfMap s (attrs ml) ->
        forall calls,
        exists s'' new,
          @emitAll _ _ MockLogger_is_Logger calls m s' = Returns tt s''
          /\ MockLogger_GetEntries m s'' = Returns new s''
          /\ map (entryView s'') new
             = map (callView (mapContent s (attrs ml)) (group ml)) calls).
Proof.
  intros H.
  assert (Hm : m < length (loggers s)) by (eapply lookup_lt_Some; eauto).
  pose (ml0 := mkMockLogger (mkSlice (length (arrays s)) 0 0) (attrs ml) (group ml)).
  pose (s' := mkStore (<[m := ml0]> (loggers s)) (arrays s ++ [[]]) (maps s)
                (cells s)).
  assert (H' : loggers s' !! m = Some ml0)
    by (simpl; now apply list_lookup_insert_eq).
  exists s'. split.
  { unfold MockLogger_Reset, bind, loadLogger. now rewrite H. }
  split; [now rewrite (GetEntries_run s' m ml0 H') |].
  split; [intros level; now rewrite (CountEntries_run s' m ml0 level H') |].
  split; [intros level message; now rewrite (HasEntry_run s' m ml0 level message H') |].
  split.
  { intros m' ml' Hne H1 (Ha & _).
    rewrite (GetEntries_run s' m' ml')
      by (simpl; now rewrite list_lookup_insert_ne by congruence).
    unfold sliceElems, arrayData. simpl. now rewrite lookup_app_l. }
  intros Hwm calls.
  assert (Hws0 : wfSlice s' (Entries ml0)).
  { unfold wfSlice, arrayData. simpl. rewrite length_app. simpl.
    split; [lia |]. split; [lia |]. lia. }
  destruct (emitAll_run calls s' m ml0 H' Hws0 Hwm)
    as (s'' & sl'' & new & Hr & Hl & _ & _ & _ & He & Hv & _).
  exists s'', new. split; [exact Hr |]. split; [| exact Hv].
  erewrite GetEntries_run
    by (rewrite Hl; apply list_lookup_insert_eq; simpl;
        rewrite length_insert; exact Hm).
  simpl. rewrite He. reflexivity.
Qed.

Lemma chain_run ops :
  forall s m ml,
    loggers s !! m = Some ml -> wfMap s (attrs ml) ->
    exists c s1 r,
      @logger.chain _ _ MockLogger_is_Logger ops m s = Returns c s1
      /\ extends s s1
      /\ loggers s1 !! c
         = Some (mkMockLogger (Entries ml) r (lastGroup ops (group ml)))
      /\ wfMap s1 r
      /\ mapContent s1 r = fold_left bindInto ops (mapContent s (attrs ml)).
Proof.
  induction ops as [|d ops IH]; intros s m ml H Hw.
  - exists m, s, (attrs ml). simpl. unfold ret.
    split; [reflexivity |]. split; [apply extends_refl |].
    split; [now rewrite MockLogger_eta |]. split; [exact Hw | reflexivity].
  - simpl. unfold bind. rewrite (derive_run s m ml d H).
    set (s' := mkStore _ _ _ _).
    pose (child := mkMockLogger (Entries ml) (Some (length (maps s)))
                     (match d with logger.OpWithGroup g => g | _ => group ml end)).
    assert (Hc : loggers s' !! length (loggers s) = Some child)
      by apply lookup_snoc.
    assert (Hwc : wfMap s' (attrs child))
      by (simpl; rewrite length_app; simpl; lia).
    destruct (IH s' (length (loggers s)) child Hc Hwc)
      as (c & s1 & r & Hr & He & Hl & Hwm & Hm).
    exists c, s1, r. rewrite Hr.
    split; [reflexivity |].
    split; [eapply extends_trans; [| exact He]; exact (derive_extends s m ml d H) |].
    split; [rewrite Hl; subst child; simpl; now destruct d |].
    split; [exact Hwm |].
    rewrite Hm. f_equal. subst s' child. simpl. now rewrite lookup_snoc.
Qed.

Lemma lookup_bindInto key ops :
  forall P : gmap string any,
    fold_left bindInto ops P !! key = lastBound key ops (P !! key).
Proof.
  unfold lastBound.
  induction ops as [|d ops IH]; intros P; [reflexivity |].
  simpl. rewrite IH. f_equal.
  destruct d as [k v | err | g]; simpl; [| | reflexivity].
  - destruct (String.eqb k key) eqn:Hk.
    + apply String.eqb_eq in Hk. subst. apply lookup_insert_eq.
    + apply String.eqb_neq in Hk. now apply lookup_insert_ne.
  - destruct (String.eqb "error" key) eqn:Hk.
    + apply String.eqb_eq in Hk. subst. apply lookup_insert_eq.
    + apply String.eqb_neq in Hk. now apply lookup_insert_ne.
Qed.

(** X4.  Entries emitted through a logger derived by a chain of [With],
    [WithError] and [WithGroup] calls.  The chain returns a logger of its
    own, and what it shows after a run of calls is what the receiver
    showed when the chain was made followed by one entry per call.  In
    those entries each key holds the value of the last call of the chain
    that bound it ([WithError] binds the error's text under [error]),
    and otherwise what the receiver held; the group is the name given to
    the last [WithGroup] of the chain, the receiver's when there is
    none. *)
Theorem derived_entries_carry_last_bindings (s : Store) (m : nat)
    (ml : MockLogger) (ops : list logger.Derive) (calls : list Call) :
  loggers s !! m = Some ml ->
  wfSlice s (Entries ml) ->
  wfMap s (attrs ml) ->
  exists c s1 s2 new content,
    @logger.chain _ _ MockLogger_is_Logger ops m s = Returns c s1
    /\ @emitAll _ _ MockLogger_is_Logger calls c s1 = Returns tt s2
    /\ MockLogger_GetEntries c s2
       = Returns (sliceElems s (Entries ml) ++ new) s2
    /\ map (entryView s2) new
       = map (callView content (lastGroup ops (group ml))) calls
    /\ (forall key,
          content !! key
          = lastBound key ops (mapContent s (attrs ml) !! key)).
Proof.
  intros H Hws Hwm.
  destruct (chain_run ops s m ml H Hwm) as (c & s1 & r & Hr & He & Hl & Hwr & Hm).
  assert (Hws1 : wfSlice s1 (Entries ml)) by (eapply extends_slice; eauto).
  destruct (emitAll_run calls s1 c _ Hl Hws1 Hwr)
    as (s2 & sl2 & new & Hr2 & Hl2 & _ & _ & _ & He2 & Hv2 & _).
  exists c, s1, s2, new, (fold_left bindInto ops (mapContent s (attrs ml))).
  split; [exact Hr |]. split; [exact Hr2 |].
  split.
  { erewrite GetEntries_run
      by (rewrite Hl2; apply list_lookup_insert_eq; eapply lookup_lt_Some; eauto).
    simpl. rewrite He2. simpl.
    destruct He as (_ & _ & Ha & _). unfold sliceElems, arrayData.
    now rewrite Ha. }
  split; [rewrite Hv2; simpl; now rewrite Hm |].
  intros key. apply lookup_bindInto.
Qed.

(** X5.  Two loggers derived from the same receiver start from the same
    slice header, and each appends behind it.  When the receiver's
    backing array is full ([len = cap]), each append moves to an array
    of its own and either logger shows the receiver's entries followed
    by its own entry.  When the array has room ([len < cap]), both
    appends write the same slot of the shared array: after
    [a.Info(..)] and then [b.Info(..)], the entry [a] shows last is
    the one emitted through [b], with [b]'s attributes and group. *)
Theorem siblings_append_into_one_slot (s : Store) (m : nat) (ml : MockLogger)
    (d1 d2 : logger.Derive) (op1 op2 : logger.Emit) (msg1 msg2 : string)
    (kvs1 kvs2 : list any) :
  loggers s !! m = Some ml ->
  wfSlice s (Entries ml) ->
  wfMap s (attrs ml) ->
  let P := mapContent s (attrs ml) in
  let view1 := callView (bindInto P d1) (lastGroup [d1] (group ml))
                 (op1, msg1, kvs1) in
  let view2 := callView (bindInto P d2) (lastGroup [d2] (group ml))
                 (op2, msg2, kvs2) in
  exists a b s' ea eb,
    (a <- @logger.derive _ _ MockLogger_is_Logger d1 m ;;
     b <- @logger.derive _ _ MockLogger_is_Logger d2 m ;;
     @logger.emit _ _ MockLogger_is_Logger op1 a msg1 kvs1 ;;;
     @logger.emit _ _ MockLogger_is_Logger op2 b msg2 kvs2 ;;;
     ret (a, b)) s = Returns (a, b) s'
    /\ a <> b
    /\ MockLogger_GetEntries a s'
       = Returns (sliceElems s (Entries ml) ++ [ea]) s'
    /\ MockLogger_GetEntries b s'
       = Returns (sliceElems s (Entries ml) ++ [eb]) s'
    /\ entryView s' eb = view2
    /\ entryView s' ea
       = (if (len (Entries ml) <? cap (Entries ml))%nat then view2 else view1).
Proof.
  intros H Hws Hwm P view1 view2.
  assert (Hm : m < length (loggers s)) by (eapply lookup_lt_Some; eauto).
  (* the two derivations *)
  pose (gA := match d1 with logger.OpWithGroup g => g | _ => group ml end).
  pose (gB := match d2 with logger.OpWithGroup g => g | _ => group ml end).
  pose (A := mkMockLogger (Entries ml) (Some (length (maps s))) gA).
  pose (s1 := mkStore (loggers s ++ [A]) (arrays s)
                (maps s ++ [bindInto P d1]) (cells s)).
  pose (B := mkMockLogger (Entries ml) (Some (length (maps s1))) gB).
  pose (s2 := mkStore (loggers s1 ++ [B]) (arrays s1)
                (maps s1 ++ [bindInto P d2]) (cells s1)).
  pose (a := length (loggers s)).
  pose (b := length (loggers s1)).
  assert (Hab : a <> b) by (subst a b; simpl; rewrite length_app; simpl; lia).
  assert (H1 : loggers s1 !! m = Some ml)
    by (simpl; now apply lookup_app_l_Some).
  assert (HP1 : mapContent s1 (attrs ml) = P).
  { destruct (attrs ml) as [r|] eqn:Hr; simpl in *; [| reflexivity].
    unfold P. simpl. now rewrite lookup_app_l. }
  assert (HA2 : loggers s2 !! a = Some A).
  { simpl. rewrite lookup_app_l by (rewrite length_app; simpl; lia).
    apply lookup_snoc. }
  assert (HB2 : loggers s2 !! b = Some B) by apply lookup_snoc.
  assert (Hws2 : wfSlice s2 (Entries ml)) by exact Hws.
  (* the emission through a *)
  destruct (log_run s2 a A (levelName op1) msg1 kvs1 HA2 Hws2)
    as (s3 & slA & Hr3 & Hl3 & Hm3 & _ & HlenA & HwsA & HeA & Hkeep3 & Hout3
        & Hroom3 & Hfull3).
  simpl in Hl3, Hm3, HlenA, HeA, Hroom3, Hfull3.
  assert (HB3 : loggers s3 !! b = Some B)
    by (rewrite Hl3; rewrite list_lookup_insert_ne by exact Hab; exact HB2).
  assert (Hws3 : wfSlice s3 (Entries ml)) by (apply Hkeep3; exact Hws2).
  assert (Hold3 : sliceElems s3 (Entries ml) = sliceElems s (Entries ml)).
  { destruct (Hout3 (Entries ml) Hws2) as [-> _]; [right; simpl; lia |].
    reflexivity. }
  (* the emission through b *)
  destruct (log_run s3 b B (levelName op2) msg2 kvs2 HB3 Hws3)
    as (s4 & slB & Hr4 & Hl4 & Hm4 & _ & HlenB & HwsB & HeB & Hkeep4 & Hout4
        & Hroom4 & _).
  simpl in Hl4, Hm4, HlenB, HeB, Hroom4.
  set (eA := mkLogEntry (levelName op1) msg1 kvs1 (Some (length (maps s2))) gA)
    in *.
  set (eB := mkLogEntry (levelName op2) msg2 kvs2 (Some (length (maps s3))) gB)
    in *.
  assert (HA4 : loggers s4 !! a = Some (mkMockLogger slA (attrs A) (group A))).
  { rewrite Hl4. rewrite list_lookup_insert_ne by congruence.
    rewrite Hl3. apply list_lookup_insert_eq. eapply lookup_lt_Some; eauto. }
  assert (HB4 : loggers s4 !! b = Some (mkMockLogger slB (attrs B) (group B))).
  { rewrite Hl4. apply list_lookup_insert_eq. eapply lookup_lt_Some; eauto. }
  assert (HmapA : mapContent s4 (Some (length (maps s2))) = bindInto P d1).
  { simpl. rewrite Hm4, Hm3.
    rewrite lookup_app_l by (rewrite !length_app; simpl; lia).
    rewrite lookup_snoc. simpl.
    rewrite lookup_app_l by (rewrite !length_app; simpl; lia).
    now rewrite lookup_snoc. }
  assert (HmapB : mapContent s4 (Some (length (maps s3))) = bindInto P d2).
  { simpl. rewrite Hm4, lookup_snoc. simpl.
    rewrite Hm3. rewrite lookup_app_l by (simpl; rewrite !length_app; simpl; lia).
    simpl. rewrite lookup_snoc. reflexivity. }
  assert (HgA : gA = lastGroup [d1] (group ml)) by (now destruct d1).
  assert (HgB : gB = lastGroup [d2] (group ml)) by (now destruct d2).
  assert (Hrun : (a <- @logger.derive _ _ MockLogger_is_Logger d1 m ;;
                  b <- @logger.derive _ _ MockLogger_is_Logger d2 m ;;
                  @logger.emit _ _ MockLogger_is_Logger op1 a msg1 kvs1 ;;;
                  @logger.emit _ _ MockLogger_is_Logger op2 b msg2 kvs2 ;;;
                  ret (a, b)) s = Returns (a, b) s4).
  { unfold bind. rewrite (derive_run s m ml d1 H). fold P gA A s1.
    rewrite (derive_run s1 m ml d2 H1). rewrite HP1. fold gB B s2.
    rewrite emit_mock. fold a b. rewrite Hr3. cbv beta iota.
    rewrite emit_mock. fold b. rewrite Hr4. reflexivity. }
  destruct (len (Entries ml) <? cap (Entries ml))%nat eqn:Hlt.
  - (* room: b's append lands in the slot a's append used *)
    apply Nat.ltb_lt in Hlt.
    destruct (Hroom3 Hlt) as [HslA Harr3].
    destruct (Hroom4 Hlt) as [HslB Harr4].
    exists a, b, s4, eB, eB.
    split; [exact Hrun |]. split; [exact Hab |].
    split.
    { rewrite (GetEntries_run s4 a _ HA4). simpl. f_equal.
      rewrite <- Hold3. rewrite <- HeB. rewrite HslA, HslB. reflexivity. }
    split; [rewrite (GetEntries_run s4 b _ HB4); simpl; now rewrite HeB, Hold3 |].
    assert (Hv : entryView s4 eB = view2)
      by (unfold entryView, view2, callView, eB; cbn [Level Message KeysAndValues Attrs Group];
          rewrite HmapB, HgB; reflexivity).
    split; exact Hv.
  - (* full: a's append went to an array of its own *)
    apply Nat.ltb_ge in Hlt.
    exists a, b, s4, eA, eB.
    split; [exact Hrun |]. split; [exact Hab |].
    split.
    { rewrite (GetEntries_run s4 a _ HA4). simpl. f_equal.
      destruct (Hout4 slA HwsA) as [-> _].
      - left. simpl. rewrite (Hfull3 Hlt).
        destruct Hws2 as [Hlt2 _]. simpl in Hlt2 |- *. lia.
      - exact HeA. }
    split; [rewrite (GetEntries_run s4 b _ HB4); simpl; now rewrite HeB, Hold3 |].
    split.
    + unfold entryView, view2, callView, eB; cbn [Level Message KeysAndValues Attrs Group].
      rewrite HmapB, HgB; reflexivity.
    + unfold entryView, view1, callView, eA; cbn [Level Message KeysAndValues Attrs Group].
      rewrite HmapA, HgA; reflexivity.
Qed.










Lemma last_of_view s sl old e :
  wfSlice s sl -> sliceElems s sl = old ++ [e] ->
  len sl <> 0 /\ arrayData s (array sl) !! (len sl - 1) = Some e.
Proof.
  intros (_ & Hlc & Hcd) Hv. unfold sliceElems in Hv.
  assert (Hlen : len sl = length old + 1).
  { apply (f_equal length) in Hv. rewrite length_take, length_app in Hv.
    simpl in Hv. lia. }
  split; [lia |].
  rewrite <- (lookup_take_lt _ (len sl)) by lia.
  rewrite Hv. replace (len sl - 1) with (length old) by lia.
  apply lookup_snoc.
Qed.

(** X7.  [log] gives every entry a map of its own, a copy of the logger's
    attributes.  Writing a key into the map of the entry that
    [LastEntry] returns therefore changes that one map: it then holds
    the logger's attributes and the key written, while every map the
    store had before the emission (the attributes of this and of every
    other logger, the maps of the entries captured earlier) keeps its
    content. *)
Theorem entry_attributes_are_a_copy (s : Store) (m : nat) (ml : MockLogger)
    (level msg : string) (kvs : list any) (key : string) (value : any) :
  loggers s !! m = Some ml ->
  wfSlice s (Entries ml) ->
  wfMap s (attrs ml) ->
  exists e s' sl',
    writeIntoLastEntry m level msg kvs key value s = Returns (Some e) s'
    /\ Attrs e = Some (length (maps s))
    /\ mapContent s' (Attrs e) = <[key := value]> (mapContent s (attrs ml))
    /\ (forall r, wfMap s r -> mapContent s' r = mapContent s r)
    /\ loggers s' !! m = Some (mkMockLogger sl' (attrs ml) (group ml)).
Proof.
  intros H Hws Hwm.
  assert (Hm : m < length (loggers s)) by (eapply lookup_lt_Some; eauto).
  destruct (log_run s m ml level msg kvs H Hws)
    as (s1 & sl1 & Hr1 & Hl1 & Hm1 & Hc1 & _ & Hws1 & He1 & _).
  simpl in He1.
  set (e := mkLogEntry level msg kvs (Some (length (maps s))) (group ml)) in *.
  assert (H1 : loggers s1 !! m = Some (mkMockLogger sl1 (attrs ml) (group ml)))
    by (rewrite Hl1; now apply list_lookup_insert_eq).
  destruct (last_of_view s1 sl1 _ e Hws1 He1) as [Hne Hlast].
  exists e. eexists. exists sl1. split.
  { unfold writeIntoLastEntry, bind at 1. rewrite Hr1. unfold bind at 1.
    rewrite (LastEntry_copy s1 m _ e H1 Hne Hlast).
    unfold bind, loadCell. simpl. rewrite lookup_snoc. simpl. reflexivity. }
  simpl. split; [reflexivity |].
  split.
  { rewrite Hm1. rewrite list_lookup_insert_eq by (rewrite length_app; simpl; lia).
    simpl. now rewrite lookup_snoc. }
  split.
  { intros [r|] Hr; simpl in *; [| reflexivity].
    rewrite list_lookup_insert_ne by lia.
    rewrite Hm1. now rewrite lookup_app_l. }
  exact H1.
Qed.

End MockRuns.

(** A logger that holds one entry, then [Info("started", "port", 80)]
    and [Fatal("stopped")] through it. *)
Lemma mock_records_calls_in_order_witness :
  exists s' new,
    @emitAll _ _ logtesting.MockLogger_is_Logger
      [(logger.OpInfo, "started", [AString "port"; AInt 80]);
       (logger.OpFatal, "stopped", [])] 0 oneEntryStore
    = Returns tt s'
    /\ logtesting.MockLogger_GetEntries 0 s'
       = Returns ([logtesting.mkLogEntry "info" "x" [] (Some 1) ""] ++ new) s'
    /\ map (entryView s') new
       = [("info", "started", [AString "port"; AInt 80], ∅, "");
          ("fatal", "stopped", [], ∅, "")].
Proof.
  apply (mock_records_calls_in_order oneEntryStore 0
           (logtesting.mkMockLogger (logtesting.mkSlice 1 1 1) (Some 0) "")
           [(logger.OpInfo, "started", [AString "port"; AInt 80]);
            (logger.OpFatal, "stopped", [])]).
  - reflexivity.
  - unfold wfSlice. simpl. lia.
  - simpl. lia.
Defined.

(** The same run: two entries at [info] afterwards, one at [fatal], and
    the entry [fatal]/[stopped] is found. *)
Lemma mock_counts_and_finds_calls_witness :
  exists s',
    @emitAll _ _ logtesting.MockLogger_is_Logger
      [(logger.OpInfo, "started", [AString "port"; AInt 80]);
       (logger.OpFatal, "stopped", [])] 0 oneEntryStore
    = Returns tt s'
    /\ logtesting.MockLogger_CountEntries 0 "info" s' = Returns 2 s'
    /\ logtesting.MockLogger_CountEntries 0 "fatal" s' = Returns 1 s'
    /\ logtesting.MockLogger_HasEntry 0 "fatal" "stopped" s' = Returns true s'
    /\ logtesting.MockLogger_HasEntry 0 "error" "stopped" s' = Returns false s'.
Proof.
  destruct (mock_counts_and_finds_calls oneEntryStore 0
              (logtesting.mkMockLogger (logtesting.mkSlice 1 1 1) (Some 0) "")
              [(logger.OpInfo, "started", [AString "port"; AInt 80]);
               (logger.OpFatal, "stopped", [])])
    as (s' & Hr & Hc & Hh).
  - reflexivity.
  - unfold wfSlice. simpl. lia.
  - simpl. lia.
  - exists s'. split; [exact Hr |].
    split; [exact (Hc "info") |]. split; [exact (Hc "fatal") |].
    split; [exact (Hh "fatal" "stopped") | exact (Hh "error" "stopped")].
Defined.

(** [Reset] on the logger that holds one entry. *)
Lemma Reset_empties_the_receiver_only_witness :
  exists s',
    logtesting.MockLogger_Reset 0 oneEntryStore = Returns tt s'
    /\ logtesting.MockLogger_GetEntries 0 s' = Returns [] s'
    /\ logtesting.MockLogger_CountEntries 0 "info" s' = Returns 0 s'.
Proof.
  destruct (Reset_empties_the_receiver_only oneEntryStore 0
              (logtesting.mkMockLogger (logtesting.mkSlice 1 1 1) (Some 0) "")
              eq_refl)
    as (s' & Hr & Hg & Hc & _).
  exists s'. split; [exact Hr |]. split; [exact Hg | exact (Hc "info")].
Defined.

(** [New().With("k", 1).WithGroup("a").WithError(e).With("k", 2)
    .WithGroup("b")] and one call through it: the entry holds [k = 2],
    the error's text and the group [b]. *)
Lemma derived_entries_carry_last_bindings_witness :
  exists c s1 s2 new content,
    @logger.chain _ _ logtesting.MockLogger_is_Logger
      [logger.OpWith "k" (AInt 1); logger.OpWithGroup "a";
       logger.OpWithError (mkError "boom"); logger.OpWith "k" (AInt 2);
       logger.OpWithGroup "b"] 0 freshMockStore = Returns c s1
    /\ @emitAll _ _ logtesting.MockLogger_is_Logger
         [(logger.OpWarn, "w", [])] c s1 = Returns tt s2
    /\ logtesting.MockLogger_GetEntries c s2 = Returns ([] ++ new) s2
    /\ map (entryView s2) new = [("warn", "w", [], content, "b")]
    /\ content !! "k" = Some (AInt 2)
    /\ content !! "error" = Some (AString "boom")
    /\ content !! "other" = None.
Proof.
  destruct (derived_entries_carry_last_bindings freshMockStore 0
              (logtesting.mkMockLogger (logtesting.mkSlice 0 0 0) (Some 0) "")
              [logger.OpWith "k" (AInt 1); logger.OpWithGroup "a";
               logger.OpWithError (mkError "boom"); logger.OpWith "k" (AInt 2);
               logger.OpWithGroup "b"]
              [(logger.OpWarn, "w", [])])
    as (c & s1 & s2 & new & content & Hc & Hr & Hg & Hv & Hk).
  - reflexivity.
  - unfold wfSlice. simpl. lia.
  - simpl. lia.
  - exists c, s1, s2, new, content.
    split; [exact Hc |]. split; [exact Hr |]. split; [exact Hg |].
    split; [exact Hv |].
    split; [exact (Hk "k") |]. split; [exact (Hk "error") | exact (Hk "other")].
Defined.

(** The store after three entries, whose backing array of four has room
    for one more, and the new store, whose array is full. *)
Lemma siblings_append_into_one_slot_witness :
  (exists a b s' ea eb,
     (a <- @logger.derive _ _ logtesting.MockLogger_is_Logger
             (logger.OpWith "a" (AInt 1)) 0 ;;
      b <- @logger.derive _ _ logtesting.MockLogger_is_Logger
             (logger.OpWith "b" (AInt 2)) 0 ;;
      @logger.emit _ _ logtesting.MockLogger_is_Logger logger.OpInfo a "x" [] ;;;
      @logger.emit _ _ logtesting.MockLogger_is_Logger logger.OpInfo b "y" [] ;;;
      ret (a, b)) threeEntryStore = Returns (a, b) s'
     /\ a <> b
     /\ logtesting.MockLogger_GetEntries a s'
        = Returns (logtesting.sliceElems threeEntryStore
                     (logtesting.mkSlice 3 3 4) ++ [ea]) s'
     /\ logtesting.MockLogger_GetEntries b s'
        = Returns (logtesting.sliceElems threeEntryStore
                     (logtesting.mkSlice 3 3 4) ++ [eb]) s'
     /\ entryView s' eb = ("info", "y", [], {["b" := AInt 2]}, "")
     /\ entryView s' ea = ("info", "y", [], {["b" := AInt 2]}, ""))
  /\ (exists a b s' ea eb,
        (a <- @logger.derive _ _ logtesting.MockLogger_is_Logger
                (logger.OpWith "a" (AInt 1)) 0 ;;
         b <- @logger.derive _ _ logtesting.MockLogger_is_Logger
                (logger.OpWith "b" (AInt 2)) 0 ;;
         @logger.emit _ _ logtesting.MockLogger_is_Logger logger.OpInfo a "x" [] ;;;
         @logger.emit _ _ logtesting.MockLogger_is_Logger logger.OpInfo b "y" [] ;;;
         ret (a, b)) freshMockStore = Returns (a, b) s'
        /\ a <> b
        /\ logtesting.MockLogger_GetEntries a s' = Returns ([] ++ [ea]) s'
        /\ logtesting.MockLogger_GetEntries b s' = Returns ([] ++ [eb]) s'
        /\ entryView s' eb = ("info", "y", [], {["b" := AInt 2]}, "")
        /\ entryView s' ea = ("info", "x", [], {["a" := AInt 1]}, "")).
Proof.
  split.
  - apply (siblings_append_into_one_slot threeEntryStore 0
             (logtesting.mkMockLogger (logtesting.mkSlice 3 3 4) (Some 0) "")
             (logger.OpWith "a" (AInt 1)) (logger.OpWith "b" (AInt 2))
             logger.OpInfo logger.OpInfo "x" "y" [] []).
    + reflexivity.
    + unfold wfSlice. simpl. lia.
    + simpl. lia.
  - apply (siblings_append_into_one_slot freshMockStore 0
             (logtesting.mkMockLogger (logtesting.mkSlice 0 0 0) (Some 0) "")
             (logger.OpWith "a" (AInt 1)) (logger.OpWith "b" (AInt 2))
             logger.OpInfo logger.OpInfo "x" "y" [] []).
    + reflexivity.
    + unfold wfSlice. simpl. lia.
    + simpl. lia.
Defined.


(** [m.Info("x"); e := m.LastEntry(); e.Attrs["k"] = 1] on a new
    logger. *)
Lemma entry_attributes_are_a_copy_witness :
  exists e s' sl',
    writeIntoLastEntry 0 "info" "x" [] "k" (AInt 1) freshMockStore
    = Returns (Some e) s'
    /\ logtesting.Attrs e = Some 1
    /\ logtesting.mapContent s' (logtesting.Attrs e) = {["k" := AInt 1]}
    /\ (forall r, wfMap freshMockStore r ->
          logtesting.mapContent s' r = logtesting.mapContent freshMockStore r)
    /\ logtesting.loggers s' !! 0
       = Some (logtesting.mkMockLogger sl' (Some 0) "").
Proof.
  apply (entry_attributes_are_a_copy freshMockStore 0
           (logtesting.mkMockLogger (logtesting.mkSlice 0 0 0) (Some 0) "")
           "info" "x" [] "k" (AInt 1)).
  - reflexivity.
  - unfold wfSlice. simpl. lia.
  - simpl. lia.
Defined.

(** ** The capturing backend: which loggers an emission can reach *)

Section MockFrame.
Import logtesting.

(** X8.  Calls through one logger change what another logger shows only if
    the other's slice lies over the same backing array and ends behind
    the receiver's.  Every other logger of the store (one made by a
    separate [New], the logger the receiver was derived from, a logger
    derived from the receiver before the calls) shows after the calls
    what it showed before. *)
Theorem emissions_leave_other_views_alone (s : Store) (m : nat)
    (ml : MockLogger) (calls : list Call) (m' : nat) (ml' : MockLogger) :
  loggers s !! m = Some ml ->
  wfSlice s (Entries ml) ->
  wfMap s (attrs ml) ->
  m' <> m ->
  loggers s !! m' = Some ml' ->
  wfSlice s (Entries ml') ->
  outOfReach (Entries ml) (Entries ml') ->
  exists s',
    @emitAll _ _ MockLogger_is_Logger calls m s = Returns tt s'
    /\ MockLogger_GetEntries m' s' = Returns (sliceElems s (Entries ml')) s'
    /\ loggers s' !! m' = Some ml'.
Proof.
  intros H Hws Hwm Hne H' Hws' Hout.
  destruct (emitAll_run calls s m ml H Hws Hwm)
    as (s' & sl' & new & Hr & Hl & _ & _ & _ & _ & _ & _ & _ & Hreach).
  assert (Hl' : loggers s' !! m' = Some ml')
    by (rewrite Hl; rewrite list_lookup_insert_ne by congruence; exact H').
  exists s'. split; [exact Hr |]. split; [| exact Hl'].
  rewrite (GetEntries_run s' m' ml' Hl').
  destruct (Hreach (Entries ml') Hws' Hout) as [-> _]. reflexivity.
Qed.

End MockFrame.

(** Two loggers made by [New]: calls through the second leave the first
    as it was. *)
Lemma emissions_leave_other_views_alone_witness :
  exists s',
    @emitAll _ _ logtesting.MockLogger_is_Logger
      [(logger.OpInfo, "a", []); (logger.OpWarn, "b", [])] 1 twoLoggerStore
    = Returns tt s'
    /\ logtesting.MockLogger_GetEntries 0 s'
       = Returns [logtesting.mkLogEntry "info" "x" [] (Some 1) ""] s'
    /\ logtesting.loggers s' !! 0
       = Some (logtesting.mkMockLogger (logtesting.mkSlice 1 1 1) (Some 0) "").
Proof.
  apply (emissions_leave_other_views_alone twoLoggerStore 1
           (logtesting.mkMockLogger (logtesting.mkSlice 2 0 0) (Some 2) "")
           [(logger.OpInfo, "a", []); (logger.OpWarn, "b", [])] 0
           (logtesting.mkMockLogger (logtesting.mkSlice 1 1 1) (Some 0) "")).
  - reflexivity.
  - unfold wfSlice. simpl. lia.
  - simpl. lia.
  - discriminate.
  - reflexivity.
  - unfold wfSlice. simpl. lia.
  - left. simpl. lia.
Defined.

(** ** The example service *)

Section ExampleService.
Import logtesting.

(** X9.  Without a logger ([nil]) the service runs on the null logger: a
    login leaves the world as it was, whatever the world is, and fails
    exactly for the user ID 0. *)
Theorem service_without_logger_is_silent (L W : Type) (HL : logger.Logger L W)
    (userID : Z) (username : string) (w : W) :
  (svc <- @example.NewUserService L W HL None ;;
   example.Login svc userID username) w
  = Returns (if (userID =? 0)%Z then Some example.invalidUserID else None) w.
Proof.
  unfold example.NewUserService, example.Login, bind. simpl.
  destruct (userID =? 0)%Z; reflexivity.
Qed.

Ltac map_lookup :=
  repeat first
    [ rewrite lookup_snoc
    | rewrite lookup_app_l by (rewrite ?length_app; simpl; lia)
    | progress simpl ].

Lemma service_login_failed s m ml username :
  loggers s !! m = Some ml ->
  wfSlice s (Entries ml) ->
  wfMap s (attrs ml) ->
  let P := mapContent s (attrs ml) in
  let old := sliceElems s (Entries ml) in
  exists c c2 s' first e,
    (svc <- @example.NewUserService _ _ MockLogger_is_Logger (Some m) ;;
     err <- example.Login svc 0 username ;;
     ret (example.log svc, err)) s
    = Returns (example.IGiven c, Some example.invalidUserID) s'
    /\ c <> m /\ c2 <> c /\ c2 <> m
    /\ MockLogger_GetEntries m s' = Returns old s'
    /\ MockLogger_GetEntries c s' = Returns (old ++ [first]) s'
    /\ MockLogger_GetEntries c2 s' = Returns (old ++ [first; e]) s'
    /\ entryView s' first
       = ("info", "user logging in",
          [AString "user_id"; AInt 0; AString "username"; AString username],
          P, "user-service")
    /\ entryView s' e
       = ("error", "login failed", [],
          <["error" := AString "invalid user ID"]> P, "user-service").
Proof.
  intros H Hws Hwm P old.
  assert (Hm : m < length (loggers s)) by (eapply lookup_lt_Some; eauto).
  pose (c := length (loggers s)).
  pose (C := mkMockLogger (Entries ml) (Some (length (maps s))) "user-service").
  pose (s1 := mkStore (loggers s ++ [C]) (arrays s) (maps s ++ [P]) (cells s)).
  assert (HC1 : loggers s1 !! c = Some C) by apply lookup_snoc.
  assert (Hws1 : wfSlice s1 (Entries ml)) by exact Hws.
  destruct (log_run s1 c C "info" "user logging in"
              [AString "user_id"; AInt 0; AString "username"; AString username]
              HC1 Hws1)
    as (s2 & slC & Hr2 & Hl2 & Hm2 & _ & _ & HwsC & HeC & Hkeep2 & Hout2 & _).
  simpl in Hl2, Hm2, HeC.
  set (eC := mkLogEntry "info" "user logging in" _ _ _) in *.
  assert (HC2 : loggers s2 !! c = Some (mkMockLogger slC (attrs C) (group C))).
  { rewrite Hl2. apply list_lookup_insert_eq. rewrite length_app. simpl.
    subst c. lia. }
  pose (c2 := length (loggers s2)).
  pose (D := mkMockLogger slC (Some (length (maps s2))) "user-service").
  pose (s3 := mkStore (loggers s2 ++ [D]) (arrays s2)
                (maps s2 ++ [<["error" := AString "invalid user ID"]>
                               (mapContent s2 (attrs C))])
                (cells s2)).
  assert (HD3 : loggers s3 !! c2 = Some D) by apply lookup_snoc.
  assert (HwsC3 : wfSlice s3 slC) by exact HwsC.
  destruct (log_run s3 c2 D "error" "login failed" [] HD3 HwsC3)
    as (s4 & slD & Hr4 & Hl4 & Hm4 & _ & _ & HwsD & HeD & Hkeep4 & Hout4 & _).
  simpl in Hl4, Hm4, HeD.
  set (eD := mkLogEntry "error" "login failed" _ _ _) in *.
  assert (Hlen2 : length (loggers s2) = S (length (loggers s))).
  { rewrite Hl2, length_insert, length_app. simpl. lia. }
  assert (Hcm : c <> m) by (subst c; lia).
  assert (Hc2c : c2 <> c) by (subst c c2; lia).
  assert (Hc2m : c2 <> m) by (subst c2; lia).
  exists c, c2, s4, eC, eD.
  split.
  { unfold example.NewUserService.
    cbn [logger.WithGroup example.Iface_is_Logger MockLogger_is_Logger].
    unfold bind at 1 2 3.
    rewrite (WithGroup_run s m ml "user-service" H). fold P C s1 c.
    unfold ret at 1 2. cbv beta iota. unfold bind at 1. unfold example.Login.
    cbn [example.log logger.Info logger.Error logger.WithError
         example.Iface_is_Logger MockLogger_is_Logger Z.eqb].
    unfold bind at 1. unfold MockLogger_Info. rewrite Hr2.
    cbv beta iota. unfold bind at 1 2. unfold MockLogger_WithError.
    assert (HW : MockLogger_With c "error"
                   (AString (Error_text example.invalidUserID)) s2
                 = Returns c2 s3)
      by (rewrite (With_run s2 c _ _ _ HC2); reflexivity).
    rewrite HW. unfold ret at 1. cbv beta iota.
    unfold bind at 1. unfold MockLogger_Error. rewrite Hr4. reflexivity. }
  split; [exact Hcm |]. split; [exact Hc2c |]. split; [exact Hc2m |].
  assert (Hold2 : sliceElems s2 (Entries ml) = old
                  /\ outOfReach slC (Entries ml)).
  { destruct (Hout2 (Entries ml) Hws1) as [Hv Ho]; [right; simpl; lia |].
    split; [exact Hv | exact Ho]. }
  destruct Hold2 as [Hold2 Ho2].
  split.
  { rewrite (GetEntries_run s4 m ml).
    - f_equal. destruct (Hout4 (Entries ml)) as [-> _];
        [apply Hkeep2; exact Hws1 | exact Ho2 | exact Hold2].
    - rewrite Hl4. rewrite list_lookup_insert_ne by congruence.
      simpl. rewrite lookup_app_l by (rewrite Hlen2; lia).
      rewrite Hl2. rewrite list_lookup_insert_ne by congruence.
      simpl. now apply lookup_app_l_Some. }
  split.
  { rewrite (GetEntries_run s4 c (mkMockLogger slC (attrs C) (group C))).
    - f_equal. simpl. destruct (Hout4 slC HwsC3) as [-> _]; [right; simpl; lia |].
      exact HeC.
    - rewrite Hl4. rewrite list_lookup_insert_ne by congruence.
      simpl. rewrite lookup_app_l by (rewrite Hlen2; subst c; lia).
      exact HC2. }
  split.
  { rewrite (GetEntries_run s4 c2 (mkMockLogger slD (attrs D) (group D))).
    - f_equal. simpl. rewrite HeD.
      change (sliceElems s3 slC) with (sliceElems s2 slC). rewrite HeC.
      now rewrite <- app_assoc.
    - rewrite Hl4. apply list_lookup_insert_eq. simpl. rewrite length_app.
      simpl. subst c2. lia. }
  assert (HP2 : mapContent s2 (attrs C) = P).
  { simpl. rewrite Hm2. map_lookup. reflexivity. }
  split.
  - unfold entryView, eC. cbn [Level Message KeysAndValues Attrs Group].
    do 2 f_equal. simpl. rewrite Hm4. simpl. rewrite Hm2. map_lookup.
    reflexivity.
  - unfold entryView, eD. cbn [Level Message KeysAndValues Attrs Group].
    do 2 f_equal. simpl. rewrite Hm4. map_lookup. rewrite Hm2. map_lookup.
    reflexivity.
Qed.

Lemma service_login_ok s m ml userID username :
  loggers s !! m = Some ml ->
  wfSlice s (Entries ml) ->
  wfMap s (attrs ml) ->
  (userID =? 0)%Z = false ->
  let P := mapContent s (attrs ml) in
  let old := sliceElems s (Entries ml) in
  exists c s' first second,
    (svc <- @example.NewUserService _ _ MockLogger_is_Logger (Some m) ;;
     err <- example.Login svc userID username ;;
     ret (example.log svc, err)) s
    = Returns (example.IGiven c, None) s'
    /\ c <> m
    /\ MockLogger_GetEntries m s' = Returns old s'
    /\ MockLogger_GetEntries c s' = Returns (old ++ [first; second]) s'
    /\ entryView s' first
       = ("info", "user logging in",
          [AString "user_id"; AInt userID; AString "username"; AString username],
          P, "user-service")
    /\ entryView s' second
       = ("info", "login successful", [AString "user_id"; AInt userID],
          P, "user-service").
Proof.
  intros H Hws Hwm Hid P old.
  assert (Hm : m < length (loggers s)) by (eapply lookup_lt_Some; eauto).
  pose (c := length (loggers s)).
  pose (C := mkMockLogger (Entries ml) (Some (length (maps s))) "user-service").
  pose (s1 := mkStore (loggers s ++ [C]) (arrays s) (maps s ++ [P]) (cells s)).
  assert (HC1 : loggers s1 !! c = Some C) by apply lookup_snoc.
  assert (Hws1 : wfSlice s1 (Entries ml)) by exact Hws.
  destruct (log_run s1 c C "info" "user logging in"
              [AString "user_id"; AInt userID; AString "username";
               AString username] HC1 Hws1)
    as (s2 & slC & Hr2 & Hl2 & Hm2 & _ & _ & HwsC & HeC & Hkeep2 & Hout2 & _).
  simpl in Hl2, Hm2, HeC.
  set (eC := mkLogEntry "info" "user logging in" _ _ _) in *.
  pose (C2 := mkMockLogger slC (attrs C) (group C)).
  assert (HC2 : loggers s2 !! c = Some C2).
  { rewrite Hl2. apply list_lookup_insert_eq. rewrite length_app. simpl.
    subst c. lia. }
  destruct (log_run s2 c C2 "info" "login successful"
              [AString "user_id"; AInt userID] HC2 HwsC)
    as (s3 & slD & Hr3 & Hl3 & Hm3 & _ & _ & HwsD & HeD & Hkeep3 & Hout3 & _).
  simpl in Hl3, Hm3, HeD.
  set (eD := mkLogEntry "info" "login successful" _ _ _) in *.
  assert (Hcm : c <> m) by (subst c; lia).
  exists c, s3, eC, eD.
  split.
  { unfold example.NewUserService.
    cbn [logger.WithGroup example.Iface_is_Logger MockLogger_is_Logger].
    unfold bind at 1 2 3.
    rewrite (WithGroup_run s m ml "user-service" H). fold P C s1 c.
    unfold ret at 1 2. cbv beta iota. unfold bind at 1. unfold example.Login.
    rewrite Hid.
    cbn [example.log logger.Info example.Iface_is_Logger MockLogger_is_Logger].
    unfold bind at 1. unfold MockLogger_Info. rewrite Hr2.
    cbv beta iota. unfold bind at 1. rewrite Hr3. reflexivity. }
  split; [exact Hcm |].
  destruct (Hout2 (Entries ml) Hws1) as [Hold2 Ho2]; [right; simpl; lia |].
  split.
  { rewrite (GetEntries_run s3 m ml).
    - f_equal. destruct (Hout3 (Entries ml)) as [-> _];
        [apply Hkeep2; exact Hws1 | exact Ho2 | exact Hold2].
    - rewrite Hl3. rewrite list_lookup_insert_ne by congruence.
      rewrite Hl2. rewrite list_lookup_insert_ne by congruence.
      simpl. now apply lookup_app_l_Some. }
  split.
  { rewrite (GetEntries_run s3 c (mkMockLogger slD (attrs C2) (group C2))).
    - f_equal. simpl. rewrite HeD, HeC. now rewrite <- app_assoc.
    - rewrite Hl3. apply list_lookup_insert_eq. eapply lookup_lt_Some; eauto. }
  split.
  - unfold entryView, eC. cbn [Level Message KeysAndValues Attrs Group].
    do 2 f_equal. simpl. rewrite Hm3. map_lookup. rewrite Hm2. map_lookup.
    reflexivity.
  - unfold entryView, eD. cbn [Level Message KeysAndValues Attrs Group].
    do 2 f_equal. simpl. rewrite Hm3. map_lookup. rewrite Hm2. map_lookup.
    reflexivity.
Qed.

(** X10.  The service derives its own logger with [WithGroup], so with a mock
    logger handed to [NewUserService] nothing the service logs reaches
    that mock: after a login the mock shows the entries it showed
    before.  The service's logger shows them followed by the entries of
    its [Info] calls, with the mock's attributes and the group
    [user-service].  The [login failed] entry of a failed login is
    emitted through a further logger, derived with [WithError]; it is
    appended to the entries of that logger only. *)
Theorem service_entries_stay_with_the_service (s : Store) (m : nat)
    (ml : MockLogger) (userID : Z) (username : string) :
  loggers s !! m = Some ml ->
  wfSlice s (Entries ml) ->
  wfMap s (attrs ml) ->
  let P := mapContent s (attrs ml) in
  let old := sliceElems s (Entries ml) in
  exists c s' new,
    (svc <- @example.NewUserService _ _ MockLogger_is_Logger (Some m) ;;
     err <- example.Login svc userID username ;;
     ret (example.log svc, err)) s
    = Returns (example.IGiven c,
               if (userID =? 0)%Z then Some example.invalidUserID else None) s'
    /\ c <> m
    /\ MockLogger_GetEntries m s' = Returns old s'
    /\ MockLogger_GetEntries c s' = Returns (old ++ new) s'
    /\ map (entryView s') new
       = ("info", "user logging in",
          [AString "user_id"; AInt userID; AString "username"; AString username],
          P, "user-service")
         :: (if (userID =? 0)%Z then []
             else [("info", "login successful",
                    [AString "user_id"; AInt userID], P, "user-service")])
    /\ ((userID =? 0)%Z = true ->
        exists c2 e,
          c2 <> c /\ c2 <> m
          /\ MockLogger_GetEntries c2 s' = Returns (old ++ new ++ [e]) s'
          /\ entryView s' e
             = ("error", "login failed", [],
                <["error" := AString "invalid user ID"]> P, "user-service")).
Proof.
  intros H Hws Hwm P old.
  destruct (userID =? 0)%Z eqn:Hid.
  - apply Z.eqb_eq in Hid. subst userID.
    destruct (service_login_failed s m ml username H Hws Hwm)
      as (c & c2 & s' & first & e & Hr & Hcm & Hc2c & Hc2m & Hgm & Hgc & Hgc2
          & Hv1 & Hv2).
    exists c, s', [first].
    split; [exact Hr |]. split; [exact Hcm |]. split; [exact Hgm |].
    split; [exact Hgc |]. split; [simpl; now rewrite Hv1 |].
    intros _. exists c2, e.
    split; [exact Hc2c |]. split; [exact Hc2m |]. split; [exact Hgc2 | exact Hv2].
  - destruct (service_login_ok s m ml userID username H Hws Hwm Hid)
      as (c & s' & first & second & Hr & Hcm & Hgm & Hgc & Hv1 & Hv2).
    exists c, s', [first; second].
    split; [exact Hr |]. split; [exact Hcm |]. split; [exact Hgm |].
    split; [exact Hgc |]. split; [simpl; now rewrite Hv1, Hv2 |].
    discriminate.
Qed.

End ExampleService.

(** A failed and a successful login of a service built on a new mock
    logger. *)
Lemma service_entries_stay_with_the_service_witness :
  (exists c s' new,
     (svc <- @example.NewUserService _ _ logtesting.MockLogger_is_Logger (Some 0) ;;
      err <- @example.Login _ _ logtesting.MockLogger_is_Logger svc 0 "invalid" ;;
      ret (example.log svc, err)) freshMockStore
     = Returns (example.IGiven c, Some example.invalidUserID) s'
     /\ c <> 0
     /\ logtesting.MockLogger_GetEntries 0 s' = Returns [] s'
     /\ logtesting.MockLogger_GetEntries c s' = Returns ([] ++ new) s'
     /\ map (entryView s') new
        = [("info", "user logging in",
            [AString "user_id"; AInt 0; AString "username"; AString "invalid"],
            ∅, "user-service")])
  /\ (exists c s' new,
        (svc <- @example.NewUserService _ _ logtesting.MockLogger_is_Logger (Some 0) ;;
         err <- @example.Login _ _ logtesting.MockLogger_is_Logger svc 123 "john" ;;
         ret (example.log svc, err)) freshMockStore
        = Returns (example.IGiven c, None) s'
        /\ c <> 0
        /\ logtesting.MockLogger_GetEntries 0 s' = Returns [] s'
        /\ logtesting.MockLogger_GetEntries c s' = Returns ([] ++ new) s'
        /\ map (entryView s') new
           = [("info", "user logging in",
               [AString "user_id"; AInt 123; AString "username"; AString "john"],
               ∅, "user-service");
              ("info", "login successful",
               [AString "user_id"; AInt 123], ∅, "user-service")]).
Proof.
  split.
  - destruct (service_entries_stay_with_the_service freshMockStore 0
                (logtesting.mkMockLogger (logtesting.mkSlice 0 0 0) (Some 0) "")
                0 "invalid" eq_refl)
      as (c & s' & new & Hr & Hc & Hm & Hg & Hv & _).
    + unfold wfSlice. simpl. lia.
    + simpl. lia.
    + exists c, s', new. repeat split; assumption.
  - destruct (service_entries_stay_with_the_service freshMockStore 0
                (logtesting.mkMockLogger (logtesting.mkSlice 0 0 0) (Some 0) "")
                123 "john" eq_refl)
      as (c & s' & new & Hr & Hc & Hm & Hg & Hv & _).
    + unfold wfSlice. simpl. lia.
    + simpl. lia.
    + exists c, s', new. repeat split; assumption.
Defined.

Section ExampleOnConsole.
Import logslog.
Context {E : JSONEngine}.

(** X11.  The service on the slog backend with a console handler [h].  The
    service's logger is [h] with the group [user-service] bound behind
    [h]'s own attributes.  A login writes, when [info] is enabled, the
    line [user logging in] with the user ID and the name; a failed login
    then writes, when [error] is enabled, the line [login failed] of a
    handler that also holds the error; a successful one writes the line
    [login successful].  Nothing else is written, and the login fails
    exactly for the user ID 0. *)
Theorem service_lines_on_the_console (h : ConsoleHandler) (userID : Z)
    (username : string) (w : World) :
  let h1 := bindAll h [logger.OpWithGroup "user-service"] in
  let h2 := bindAll h [logger.OpWithGroup "user-service";
                       logger.OpWithError example.invalidUserID] in
  let put (on : bool) (w' : World) (line : string) : World :=
    if on then wrote w' (writer h) line else w' in
  let w1 := put (ConsoleHandler_Enabled h LevelInfo) w
              (shownLine h1
                 (recordOf w LevelInfo "user logging in"
                    [AString "user_id"; AInt userID;
                     AString "username"; AString username])) in
  (svc <- example.NewUserService (Some (consoleLogger h)) ;;
   example.Login svc userID username) w
  = if (userID =? 0)%Z
    then Returns (Some example.invalidUserID)
           (put (ConsoleHandler_Enabled h LevelError) w1
              (shownLine h2 (recordOf w LevelError "login failed" [])))
    else Returns None
           (put (ConsoleHandler_Enabled h LevelInfo) w1
              (shownLine h1
                 (recordOf w LevelInfo "login successful"
                    [AString "user_id"; AInt userID]))).
Proof.
  intros h1 h2 put w1.
  unfold example.NewUserService.
  cbn [logger.WithGroup example.Iface_is_Logger].
  unfold bind at 1 2 3.
  pose proof (derive_console h (logger.OpWithGroup "user-service") w) as Hd.
  cbn [logger.derive] in Hd. rewrite Hd. fold h1.
  unfold ret at 1 2. cbv beta iota. unfold example.Login.
  cbn [example.log logger.Info logger.Error logger.WithError
       example.Iface_is_Logger SlogLogger_is_Logger].
  unfold bind at 1. unfold SlogLogger_Info. rewrite log_console.
  change (ConsoleHandler_Enabled h1 LevelInfo)
    with (ConsoleHandler_Enabled h LevelInfo).
  change (writer h1) with (writer h).
  match goal with
  | |- context [if ConsoleHandler_Enabled h LevelInfo then ?a else w] =>
      change (if ConsoleHandler_Enabled h LevelInfo then a else w) with w1
  end.
  destruct (userID =? 0)%Z.
  - unfold bind at 1 2.
    pose proof (derive_console h1 (logger.OpWithError example.invalidUserID) w1)
      as Hd2.
    cbn [logger.derive logger.WithError SlogLogger_is_Logger] in Hd2.
    rewrite Hd2.
    unfold ret at 1. cbv beta iota. unfold bind at 1.
    unfold h1. rewrite bindAll_cons. fold h2.
    unfold SlogLogger_Error. rewrite log_console.
    change (ConsoleHandler_Enabled h2 LevelError)
      with (ConsoleHandler_Enabled h LevelError).
    change (writer h2) with (writer h).
    replace (recordOf w1 LevelError "login failed" [])
      with (recordOf w LevelError "login failed" [])
      by (unfold w1, put; now destruct (ConsoleHandler_Enabled h LevelInfo)).
    reflexivity.
  - unfold bind at 1. rewrite log_console.
    change (ConsoleHandler_Enabled h1 LevelInfo)
      with (ConsoleHandler_Enabled h LevelInfo).
    change (writer h1) with (writer h).
    replace (recordOf w1 LevelInfo "login successful"
               [AString "user_id"; AInt userID])
      with (recordOf w LevelInfo "login successful"
              [AString "user_id"; AInt userID])
      by (unfold w1, put; now destruct (ConsoleHandler_Enabled h LevelInfo)).
    reflexivity.
Qed.

End ExampleOnConsole.

(** The login of the user 0 on the default console logger. *)
Lemma service_lines_on_the_console_witness :
  (svc <- @example.NewUserService _ _ (@logslog.SlogLogger_is_Logger exampleEngine)
            (Some (@logslog.New exampleEngine defaultConfig)) ;;
   @example.Login _ _ (@logslog.SlogLogger_is_Logger exampleEngine)
     svc 0 "invalid") exampleWorld
  = Returns (Some example.invalidUserID)
      (mkWorld exampleTime (fun _ => None)
         [(Stdout,
           lineHead exampleTime LevelInfo +:+ bracket "user-service" +:+
           "user logging in" +:+
           pairText ["user_id"] (Int64Value 0) +:+
           pairText ["username"] (StringValue "invalid") +:+ LF);
          (Stdout,
           lineHead exampleTime LevelError +:+ bracket "user-service" +:+
           "login failed" +:+
           pairText ["error"] (OtherValue "invalid user ID") +:+ LF)]).
Proof.
  refine (eq_trans
            (@service_lines_on_the_console exampleEngine
               (cfgHandler defaultConfig) 0 "invalid" exampleWorld) _).
  vm_compute. reflexivity.
Defined.

(** The login without a logger, in a world of any kind. *)
Lemma service_without_logger_is_silent_witness :
  (svc <- @example.NewUserService nat logtesting.Store
            logtesting.MockLogger_is_Logger None ;;
   @example.Login _ _ logtesting.MockLogger_is_Logger svc 0 "invalid")
    freshMockStore
  = Returns (Some example.invalidUserID) freshMockStore.
Proof.
  exact (service_without_logger_is_silent nat logtesting.Store
           logtesting.MockLogger_is_Logger 0 "invalid" freshMockStore).
Defined.

(** ** The console handler: groups opened on the handler *)

Section HandlerGroups.
Import logslog.

Lemma leaves_under attr :
  forall path,
    Forall (fun p => exists rest, fst p = path ++ rest) (leaves path attr).
Proof.
  induction attr as [k v Hk | k g IH] using Attr_nested_ind; intros path.
  - rewrite leaves_leaf by assumption. repeat constructor. now exists [k].
  - rewrite leaves_group. unfold leavesOf.
    induction IH as [|x g Hx _ IHg]; simpl; [constructor |].
    apply Forall_app. split; [| apply IHg].
    eapply Forall_impl; [apply Hx |].
    intros p [rest Hp]. exists (k :: rest). rewrite Hp.
    now rewrite <- app_assoc.
Qed.

Lemma leavesOf_under attrs :
  forall path,
    Forall (fun p => exists rest, fst p = path ++ rest) (leavesOf path attrs).
Proof.
  intros path. unfold leavesOf.
  induction attrs as [|a attrs IH]; simpl; [constructor |].
  apply Forall_app. split; [apply leaves_under | exact IH].
Qed.

(** X12.  [WithGroup] on the console handler.  A handler with the group
    [name] opened prints every pair under the dot-joined names of its
    groups, [name] last: the pairs of a record, and also the pairs of
    the attributes the handler held before the group was opened.  The
    bracketed group of the line is found as before, the group field
    being compared with the bare key.  Opening a group and binding
    attributes can therefore be done in either order, and the empty
    name opens no group. *)
Theorem handler_group_qualifies_every_pair (h : ConsoleHandler) (name : string)
    (bound : list Attr) (r : slog_Record) (w : World) :
  name <> "" ->
  let gfn := groupFieldName h in
  let path := groups h ++ [name] in
  ConsoleHandler_Handle (ConsoleHandler_WithGroup h name) r w
  = Returns (sinkErr w (writer h))
      (wrote w (writer h)
         (lineHead (rTime r) (rLevel r) +:+
          bracketIfAny (shownGroup gfn (attrs h) (rAttrs r)) +:+ rMessage r +:+
          pairsText (leavesOf path (List.filter (notUnder gfn) (attrs h))) +:+
          pairsText (leavesOf path (List.filter (notUnder gfn) (rAttrs r))) +:+
          LF))
  /\ Forall (fun p => exists rest, fst p = path ++ rest)
       (leavesOf path (List.filter (notUnder gfn) (attrs h ++ rAttrs r)))
  /\ ConsoleHandler_WithGroup (ConsoleHandler_WithAttrs h bound) name
     = ConsoleHandler_WithAttrs (ConsoleHandler_WithGroup h name) bound
  /\ ConsoleHandler_WithGroup h "" = h.
Proof.
  intros Hname gfn path.
  apply String.eqb_neq in Hname.
  split.
  { rewrite Handle_writes_line. unfold ConsoleHandler_WithGroup.
    rewrite Hname. reflexivity. }
  split; [apply leavesOf_under |].
  split; [unfold ConsoleHandler_WithGroup; rewrite Hname; reflexivity |].
  reflexivity.
Qed.

(** X13.  The line depends on the call-time attributes under the group field
    through the text of the first of them only, and not at all when the
    handler holds a group of its own: none of them is printed as a pair,
    and with a non-empty handler-level group none of them is shown in
    the brackets either. *)
Theorem line_reads_call_time_group_once (h : ConsoleHandler) (r : slog_Record)
    (attrs' : list Attr) (w : World) :
  let gfn := groupFieldName h in
  List.filter (notUnder gfn) attrs' = List.filter (notUnder gfn) (rAttrs r) ->
  textUnder gfn (attrs h) <> ""
  \/ textUnder gfn attrs' = textUnder gfn (rAttrs r) ->
  ConsoleHandler_Handle h (withAttrs r attrs') w = ConsoleHandler_Handle h r w.
Proof.
  intros gfn Hf Hg. rewrite !Handle_writes_line. do 2 f_equal.
  unfold shownLine, lineWith, attrsText, withAttrs. simpl. fold gfn.
  rewrite Hf. do 3 f_equal.
  unfold shownGroup. fold gfn.
  destruct Hg as [Hne | Heq].
  - apply String.eqb_neq in Hne. now rewrite Hne.
  - now rewrite Heq.
Qed.

(** X14.  The [ReplaceAttr] closure that [New] installs.  It fails (the type
    assertion panics) exactly on an attribute whose key is [level] and
    whose value is not a [slog.Level], under whatever groups; every
    attribute under another key is returned as it is; a level is
    returned as it is unless it is one of the two custom levels, which
    become the strings [TRACE] and [FATAL]. *)
Theorem replaceAttr_fails_on_foreign_level_values (groups : list string)
    (a : Attr) :
  (replaceAttr groups a = None
   <-> Key a = LevelKey /\ forall l, Val a <> LevelValue l)
  /\ (Key a <> LevelKey -> replaceAttr groups a = Some a)
  /\ (forall l,
        a = mkAttr LevelKey (LevelValue l) ->
        replaceAttr groups a
        = Some (if (l =? LevelTrace)%Z then mkAttr LevelKey (StringValue "TRACE")
                else if (l =? LevelFatal)%Z
                     then mkAttr LevelKey (StringValue "FATAL")
                     else a))
  /\ replaceAttr groups a = replaceAttr [] a.
Proof.
  split.
  { unfold replaceAttr. destruct (String.eqb (Key a) LevelKey) eqn:Hk.
    - apply String.eqb_eq in Hk. destruct (Val a) eqn:Hv;
        try (split; [intros _; split; [exact Hk | discriminate] | reflexivity]).
      split.
      + destruct (l =? LevelTrace)%Z; [discriminate |].
        destruct (l =? LevelFatal)%Z; discriminate.
      + intros [_ Hno]. exfalso. now apply (Hno l).
    - apply String.eqb_neq in Hk. split; [discriminate |].
      intros [Hk' _]. contradiction. }
  split.
  { intros Hk. apply String.eqb_neq in Hk. unfold replaceAttr. now rewrite Hk. }
  split.
  { intros l ->. unfold replaceAttr. cbn [Key Val]. rewrite String.eqb_refl.
    destruct (l =? LevelTrace)%Z; [reflexivity |].
    destruct (l =? LevelFatal)%Z; reflexivity. }
  reflexivity.
Qed.

End HandlerGroups.

(** The group [db] opened on a handler that holds [app=x]; the record
    brings [host=h]. *)
Lemma handler_group_qualifies_every_pair_witness :
  logslog.ConsoleHandler_Handle
    (logslog.ConsoleHandler_WithGroup
       (logslog.ConsoleHandler_WithAttrs plainHandler
          [mkAttr "app" (StringValue "x")]) "db")
    (mkRecord exampleTime "m" LevelInfo [mkAttr "host" (StringValue "h")])
    exampleWorld
  = Returns None
      (wrote exampleWorld Stdout
         (lineHead exampleTime LevelInfo +:+ "m" +:+
          pairText ["db"; "app"] (StringValue "x") +:+
          pairText ["db"; "host"] (StringValue "h") +:+ LF)).
Proof.
  destruct (handler_group_qualifies_every_pair
              (logslog.ConsoleHandler_WithAttrs plainHandler
                 [mkAttr "app" (StringValue "x")]) "db" []
              (mkRecord exampleTime "m" LevelInfo [mkAttr "host" (StringValue "h")])
              exampleWorld) as (H & _).
  - discriminate.
  - refine (eq_trans H _). vm_compute. reflexivity.
Defined.

(** On the handler bound to the group [svc], the record with the
    call-time attribute [_group=x] gives the line of the record without
    it. *)
Lemma line_reads_call_time_group_once_witness :
  logslog.ConsoleHandler_Handle svcHandler
    (withAttrs groupedRecord []) exampleWorld
  = logslog.ConsoleHandler_Handle svcHandler groupedRecord exampleWorld.
Proof.
  apply (line_reads_call_time_group_once svcHandler groupedRecord []
           exampleWorld).
  - reflexivity.
  - left. discriminate.
Defined.

(** The user attribute [level=high] and the built-in level attribute. *)
Lemma replaceAttr_fails_on_foreign_level_values_witness :
  logslog.replaceAttr ["request"] (mkAttr "level" (StringValue "high")) = None
  /\ logslog.replaceAttr [] (mkAttr LevelKey (LevelValue logslog.LevelFatal))
     = Some (mkAttr LevelKey (StringValue "FATAL")).
Proof.
  split.
  - destruct (replaceAttr_fails_on_foreign_level_values ["request"]
                (mkAttr "level" (StringValue "high"))) as (H & _).
    apply H. split; [reflexivity | discriminate].
  - destruct (replaceAttr_fails_on_foreign_level_values []
                (mkAttr LevelKey (LevelValue logslog.LevelFatal)))
      as (_ & _ & H & _).
    exact (H logslog.LevelFatal eq_refl).
Defined.

(** ** Level names *)

Section LevelNames.

Lemma ToLower_ascii s : asciiOnly s = true -> ToLower s = foldCase s.
Proof.
  induction s as [|c s IH]; [reflexivity |].
  intros H. simpl in H. apply andb_true_iff in H as [Hc Hs].
  specialize (IH Hs).
  destruct c as [b0 b1 b2 b3 b4 b5 b6 b7].
  destruct b7; [destruct b0, b1, b2, b3, b4, b5, b6; discriminate Hc |].
  destruct b0, b1, b2, b3, b4, b5, b6; simpl; rewrite IH; reflexivity.
Qed.

(** X15.  [parseLevel], of either backend, reads a level name in any letter
    case: two ASCII strings that differ in the case of their letters
    only are parsed to the same level. *)
Theorem parseLevel_ignores_letter_case (s t : string) :
  asciiOnly s = true ->
  asciiOnly t = true ->
  foldCase s = foldCase t ->
  logslog.parseLevel s = logslog.parseLevel t
  /\ logzerolog.parseLevel s = logzerolog.parseLevel t.
Proof.
  intros Hs Ht Hst.
  unfold logslog.parseLevel, logzerolog.parseLevel. cbv zeta.
  rewrite (ToLower_ascii s Hs), (ToLower_ascii t Ht), Hst. split; reflexivity.
Qed.

(** X16.  A level string enables the same methods on the slog and on the
    zerolog backend, with one exception: [panic] is a level of the
    zerolog backend only, where it disables all five methods, while the
    slog backend reads it as an unknown name, that is as [info]. *)
Theorem backends_enable_the_same_methods (level : string) :
  (ToLower level <> "panic" ->
   forall op,
     (logslog.parseLevel level <=? emitLevel (leveledEmit op))%Z
     = (logzerolog.parseLevel level <=? logzerolog.levelOf op)%Z)
  /\ (ToLower level = "panic" ->
      logslog.parseLevel level = LevelInfo
      /\ forall op,
           (logzerolog.parseLevel level <=? logzerolog.levelOf op)%Z = false).
Proof.
  unfold logslog.parseLevel, logzerolog.parseLevel. cbv zeta.
  set (l := ToLower level). split.
  - intros Hp op.
    destruct (String.eqb l "trace"); [now destruct op |].
    destruct (String.eqb l "debug"); [now destruct op |].
    destruct (String.eqb l "info"); [now destruct op |].
    destruct (String.eqb l "warn" || String.eqb l "warning");
      [now destruct op |].
    destruct (String.eqb l "error"); [now destruct op |].
    destruct (String.eqb l "fatal"); [now destruct op |].
    destruct (String.eqb l "panic") eqn:He; [| now destruct op].
    apply String.eqb_eq in He. contradiction.
  - intros ->. split; [reflexivity |]. intros op. now destruct op.
Qed.

End LevelNames.

(** [WARNING] and [Warning]; the level strings [Error] and [PANIC]. *)
Lemma parseLevel_ignores_letter_case_witness :
  logslog.parseLevel "WARNING" = logslog.parseLevel "Warning"
  /\ logzerolog.parseLevel "WARNING" = logzerolog.parseLevel "Warning".
Proof.
  apply (parseLevel_ignores_letter_case "WARNING" "Warning"); reflexivity.
Defined.

Lemma backends_enable_the_same_methods_witness :
  (logslog.parseLevel "Error" <=? emitLevel (leveledEmit logzerolog.LWarn))%Z
  = (logzerolog.parseLevel "Error" <=? logzerolog.levelOf logzerolog.LWarn)%Z
  /\ logslog.parseLevel "PANIC" = LevelInfo
  /\ (logzerolog.parseLevel "PANIC"
      <=? logzerolog.levelOf logzerolog.LError)%Z = false.
Proof.
  destruct (backends_enable_the_same_methods "Error") as (H1 & _).
  destruct (backends_enable_the_same_methods "PANIC") as (_ & H2).
  split; [apply H1; discriminate |].
  destruct (H2 eq_refl) as [Hs Hz]. split; [exact Hs | exact (Hz logzerolog.LError)].
Defined.

(** ** Well-formed key/value sequences *)

Section WellFormed.





End WellFormed.

(** ** The zerolog adapter: context and level *)

Section Zerolog.
Import logzerolog.

Lemma zderive_fields ops :
  forall l,
    logger (fold_left zderive ops l)
    = mkZerolog (out (logger l)) (console (logger l)) (level (logger l))
        (context (logger l) ++ map zfield ops).
Proof.
  induction ops as [|d ops IH]; intros l; simpl.
  - rewrite app_nil_r. now destruct l as [[]].
  - rewrite IH. destruct d; simpl; now rewrite <- app_assoc.
Qed.

(** X18.  Derivations on the zerolog adapter add to the context and change
    nothing else: after a chain of [With], [WithError] and [WithGroup]
    the logger holds the receiver's fields followed by one field per
    call, in call order ([WithError] under [error], [WithGroup] under
    [group]), a key bound twice being held twice; output and level are
    the receiver's.  An event sent through the derived logger carries
    these fields followed by the pairs of the call. *)
Theorem zerolog_chain_accumulates_context (l : ZerologLogger)
    (ops : list logger.Derive) (op : Leveled) (msg : string)
    (kvs : list any) (w : ZWorld) :
  let l' := fold_left zderive ops l in
  context (logger l') = context (logger l) ++ map zfield ops
  /\ level (logger l') = level (logger l)
  /\ out (logger l') = out (logger l)
  /\ console (logger l') = console (logger l)
  /\ leveled op l' msg kvs w
     = Returns tt
         (if (level (logger l) <=? levelOf op)%Z
          then w ++ [mkSent (out (logger l)) (console (logger l)) (levelOf op)
                       (context (logger l) ++ map zfield ops
                        ++ wellFormedPairs kvs) msg]
          else w).
Proof.
  intros l'. unfold l'.
  rewrite leveled_sends, zderive_fields. simpl.
  repeat split. now rewrite <- app_assoc.
Qed.

(** X19.  The level gate of the zerolog adapter.  A logger made by [New],
    also after any derivations, sends the event of a leveled call
    exactly when the configured level, parsed (an empty one as [info]),
    is at most the level of the method; the event goes to the
    configured writer ([os.Stdout] when there is none), through the
    console writer exactly when the format is empty or [console].
    Under the levels [fatal] and [panic] none of the five methods sends
    anything. *)
Theorem zerolog_level_gate (cfg : Config) (ops : list logger.Derive)
    (op : Leveled) (msg : string) (kvs : list any) (w : ZWorld) :
  leveled op (fold_left zderive ops (New cfg)) msg kvs w
  = Returns tt
      (if (parseLevel (zcfgLevelString cfg) <=? levelOf op)%Z
       then w ++ [mkSent (zcfgWriter cfg) (zcfgConsole cfg) (levelOf op)
                    (map zfield ops ++ wellFormedPairs kvs) msg]
       else w)
  /\ (ToLower (zcfgLevelString cfg) = "fatal"
      \/ ToLower (zcfgLevelString cfg) = "panic" ->
      leveled op (fold_left zderive ops (New cfg)) msg kvs w = Returns tt w).
Proof.
  assert (Hrun : leveled op (fold_left zderive ops (New cfg)) msg kvs w
                 = Returns tt
                     (if (parseLevel (zcfgLevelString cfg) <=? levelOf op)%Z
                      then w ++ [mkSent (zcfgWriter cfg) (zcfgConsole cfg)
                                   (levelOf op)
                                   (map zfield ops ++ wellFormedPairs kvs) msg]
                      else w)).
  { rewrite leveled_sends, zderive_fields. simpl.
    unfold zcfgLevelString, zcfgWriter, zcfgConsole.
    destruct (String.eqb (Format cfg) ""); reflexivity. }
  split; [exact Hrun |].
  intros Hl. rewrite Hrun. unfold parseLevel. cbv zeta.
  destruct Hl as [-> | ->]; now destruct op.
Qed.

End Zerolog.


(** [New(Config{}).With("k", 1).WithGroup("g").With("k", 2).Warn("m")]
    and [New(Config{Level: "PANIC"}).Error("m")]. *)
Lemma zerolog_chain_accumulates_context_witness :
  logzerolog.leveled logzerolog.LWarn
    (fold_left zderive
       [logger.OpWith "k" (AInt 1); logger.OpWithGroup "g";
        logger.OpWith "k" (AInt 2)] (logzerolog.New defaultZConfig)) "m" [] []
  = Returns tt
      [logzerolog.mkSent Stdout true logzerolog.WarnLevel
         [("k", AInt 1); ("group", AString "g"); ("k", AInt 2)] "m"].
Proof.
  destruct (zerolog_chain_accumulates_context (logzerolog.New defaultZConfig)
              [logger.OpWith "k" (AInt 1); logger.OpWithGroup "g";
               logger.OpWith "k" (AInt 2)] logzerolog.LWarn "m" [] [])
    as (_ & _ & _ & _ & H).
  exact H.
Defined.

Lemma zerolog_level_gate_witness :
  logzerolog.leveled logzerolog.LError
    (fold_left zderive [] (logzerolog.New (logzerolog.mkConfig "PANIC" "" None)))
    "m" [] []
  = Returns tt [].
Proof.
  destruct (zerolog_level_gate (logzerolog.mkConfig "PANIC" "" None) []
              logzerolog.LError "m" [] []) as (_ & H).
  apply H. right. reflexivity.
Defined.

(** ** The console line without its colours *)

Section VisibleLine.
Import logslog.

Lemma escFree_app s t : escFree (s +:+ t) = escFree s && escFree t.
Proof.
  induction s as [|c s IH]; [now rewrite append_nil_l |].
  rewrite append_cons. simpl. rewrite IH. now rewrite andb_assoc.
Qed.

Lemma visible_plain s t :
  escFree s = true -> visibleFrom false (s +:+ t) = s +:+ visibleFrom false t.
Proof.
  induction s as [|c s IH]; intros H; [now rewrite !append_nil_l |].
  simpl in H. apply andb_true_iff in H as [Hc Hs].
  rewrite !append_cons. simpl. apply negb_true_iff in Hc. rewrite Hc.
  now rewrite IH.
Qed.

Lemma escFree_digit d : d < 10 -> escFree (itoa (Z.of_nat d)) = true.
Proof.
  intros H. do 10 (destruct d as [|d]; [reflexivity |]). lia.
Qed.

Lemma escFree_two_digits n : escFree (two_digits n) = true.
Proof.
  unfold two_digits. rewrite escFree_app.
  rewrite !escFree_digit by (apply Nat.mod_upper_bound; lia). reflexivity.
Qed.

Lemma escFree_Time_Format t :
  escFree (Zone t) = true -> escFree (Time_Format t) = true.
Proof.
  intros H. unfold Time_Format.
  rewrite !escFree_app, !escFree_two_digits, H.
  now destruct (Mon t).
Qed.

Lemma visible_pair path v t :
  escFree (Join path ".") = true -> escFree (Value_String v) = true ->
  visibleFrom false (pairText path v +:+ t)
  = plainPair path v +:+ visibleFrom false t.
Proof.
  intros Hp Hv. unfold pairText, plainPair. norm_str.
  cbn [visibleFrom Ascii.eqb Bool.eqb andb].
  rewrite (visible_plain _ _ Hp).
  cbn [visibleFrom Ascii.eqb Bool.eqb andb].
  rewrite (visible_plain _ _ Hv). reflexivity.
Qed.

Lemma visible_pairs ps :
  forall t,
    forallb (fun p => escFree (Join (fst p) ".")
                      && escFree (Value_String (snd p))) ps = true ->
    visibleFrom false (pairsText ps +:+ t)
    = plainPairs ps +:+ visibleFrom false t.
Proof.
  induction ps as [|p ps IH]; intros t H.
  - unfold pairsText, plainPairs. simpl. now rewrite !append_nil_l.
  - simpl in H. apply andb_true_iff in H as [Hp Hps].
    apply andb_true_iff in Hp as [Hk Hv].
    rewrite pairsText_cons, append_assoc, (visible_pair _ _ _ Hk Hv).
    rewrite (IH t Hps). unfold plainPairs. simpl map.
    rewrite concat_empty_cons. now rewrite append_assoc.
Qed.

Lemma visible_sgr code text t :
  code = "90" \/ code = "36" ->
  escFree text = true ->
  visibleFrom false (sgr code text +:+ t) = text +:+ visibleFrom false t.
Proof.
  intros [-> | ->] H; norm_str;
    cbn [visibleFrom Ascii.eqb Bool.eqb andb];
    rewrite (visible_plain _ _ H);
    cbn [visibleFrom Ascii.eqb Bool.eqb andb]; reflexivity.
Qed.

Lemma visible_level level t :
  visibleFrom false
    (getLevelColor level +:+ getLevelString level +:+ ESC +:+ "[0m" +:+ t)
  = getLevelString level +:+ visibleFrom false t.
Proof.
  unfold getLevelColor, getLevelString.
  destruct (level =? LevelTrace)%Z, (level =? LevelDebug)%Z,
    (level =? LevelInfo)%Z, (level =? LevelWarn)%Z, (level =? LevelError)%Z,
    (level =? LevelFatal)%Z;
    cbn [orb]; norm_str; cbn [visibleFrom Ascii.eqb Bool.eqb andb];
    reflexivity.
Qed.

Lemma visible_bracket g t :
  escFree g = true ->
  visibleFrom false (bracketIfAny g +:+ t)
  = (if String.eqb g "" then "" else "[" +:+ g +:+ "] ")
    +:+ visibleFrom false t.
Proof.
  intros H. unfold bracketIfAny, bracket.
  destruct (String.eqb g ""); [now rewrite !append_nil_l |].
  norm_str. cbn [visibleFrom Ascii.eqb Bool.eqb andb].
  rewrite (visible_plain _ _ H).
  cbn [visibleFrom Ascii.eqb Bool.eqb andb]. reflexivity.
Qed.

(** X20.  What a console line reads like with its colour sequences taken out.
    If none of the texts that go into the line (the zone of the time
    stamp, the displayed group, the message, the dotted keys and the
    values) holds an escape byte, the visible text of the line [Handle]
    writes is the time stamp, the three-letter level code, the group in
    square brackets if one is displayed, the message and one [key=value]
    per pair, each separated by one space, and a line feed. *)
Theorem visible_text_of_a_console_line (h : ConsoleHandler) (r : slog_Record)
    (w : World) :
  escFreeLine h r = true ->
  exists line,
    ConsoleHandler_Handle h r w
    = Returns (sinkErr w (writer h)) (wrote w (writer h) line)
    /\ visibleText line = plainLine h r.
Proof.
  intros H. unfold escFreeLine in H.
  apply andb_true_iff in H as [H Hps].
  apply andb_true_iff in H as [H Hmsg].
  apply andb_true_iff in H as [Hzone Hg].
  unfold linePairs in Hps. rewrite forallb_app in Hps.
  apply andb_true_iff in Hps as [Hph Hpr].
  exists (shownLine h r). split; [apply Handle_writes_line |].
  unfold visibleText, shownLine, lineWith, lineHead, attrsText, plainLine,
    linePairs.
  cbv zeta. rewrite !append_assoc.
  rewrite visible_sgr by (auto using escFree_Time_Format).
  rewrite (visible_plain " ") by reflexivity.
  rewrite visible_level.
  rewrite (visible_plain " ") by reflexivity.
  rewrite (visible_bracket _ _ Hg).
  rewrite (visible_plain _ _ Hmsg).
  rewrite (visible_pairs _ _ Hph), (visible_pairs _ _ Hpr).
  unfold plainPairs. rewrite map_app, concat_empty_app.
  rewrite !append_assoc. reflexivity.
Qed.

End VisibleLine.

(** The line of [WithGroup("svc").Info("server started", "port", 8080)]
    on the default console logger. *)
Lemma visible_text_of_a_console_line_witness :
  exists line,
    logslog.ConsoleHandler_Handle svcHandler
      (mkRecord exampleTime "server started" LevelInfo
         [mkAttr "port" (Int64Value 8080)]) exampleWorld
    = Returns None (wrote exampleWorld Stdout line)
    /\ visibleText line
       = "15 Oct 25 12:23 AWST INF [svc] server started port=8080" +:+ LF.
Proof.
  apply (visible_text_of_a_console_line svcHandler
           (mkRecord exampleTime "server started" LevelInfo
              [mkAttr "port" (Int64Value 8080)]) exampleWorld).
  reflexivity.
Defined.

(** ** The slog backend over the standard library's JSON handler *)

Section JSONBackend.
Import logslog.
Context {E : JSONEngine}.

(** X21.  On the [json] format the adapter hands everything to the standard
    library's handler and adds nothing of its own.  [New] wraps the
    handler made for the configured writer, level and [ReplaceAttr]; a
    derivation binds one attribute through the handler's [WithAttrs],
    [WithGroup] binding the group's name under the group field like any
    other attribute instead of opening a group on the handler; an
    emission asks the handler's [Enabled] and, if it agrees, passes the
    record to its [Handle], whose error is dropped. *)
Theorem json_backend_delegates_to_the_engine (cfg : Config)
    (d : logger.Derive) (msg : string) (kvs : list any) (w : World) :
  cfgConsole cfg = false ->
  let wrap j := mkSlogLogger (mkLogger (JSON (mkJSONHandler j)))
                  (cfgGroupField cfg) in
  New cfg = wrap (NewJSONHandler (cfgWriter cfg) (cfgOptions cfg))
  /\ (forall j,
        logger.derive d (wrap j) w
        = match stdJSON_WithAttrs j [boundAttr (cfgGroupField cfg) d] w with
          | Returns j' w' => Returns (wrap j') w'
          | Exits code w' => Exits code w'
          | Panics why w' => Panics why w'
          end)
  /\ (forall j level,
        SlogLogger_log (wrap j) level msg kvs w
        = if stdJSON_Enabled j level
          then match stdJSON_Handle j (recordOf w level msg kvs) w with
               | Returns _ w' => Returns tt w'
               | Exits code w' => Exits code w'
               | Panics why w' => Panics why w'
               end
          else Returns tt w).
Proof.
  intros Hc wrap.
  split; [exact (New_json cfg Hc) |].
  split.
  - intros j. unfold wrap.
    assert (Hw : forall x y a,
               argsToAttrSlice [x; y] = [a] ->
               Logger_With (mkLogger (JSON (mkJSONHandler j))) [x; y] w
               = match stdJSON_WithAttrs j [a] w with
                 | Returns j' w' =>
                     Returns (mkLogger (JSON (mkJSONHandler j'))) w'
                 | Exits code w' => Exits code w'
                 | Panics why w' => Panics why w'
                 end).
    { intros x y a Ha. unfold Logger_With. rewrite Ha. simpl.
      unfold JSONHandler_WithAttrs, bind. simpl.
      destruct (stdJSON_WithAttrs j [a] w); reflexivity. }
    destruct d as [key value | err | group];
      cbn [logger.derive logger.With logger.WithError logger.WithGroup
           SlogLogger_is_Logger];
      unfold SlogLogger_With, SlogLogger_WithError, SlogLogger_WithGroup,
        bind; cbn [logger groupFieldName'];
      [ rewrite (Hw (AString key) value
                   (boundAttr (cfgGroupField cfg) (logger.OpWith key value))
                   eq_refl)
      | rewrite (Hw (AString "error") (AError err)
                   (boundAttr (cfgGroupField cfg) (logger.OpWithError err))
                   eq_refl)
      | rewrite (Hw (AString (cfgGroupField cfg)) (AString group)
                   (boundAttr (cfgGroupField cfg) (logger.OpWithGroup group))
                   eq_refl) ];
      destruct (stdJSON_WithAttrs j _ w); reflexivity.
  - intros j level. unfold wrap, SlogLogger_log, Logger_Log. simpl.
    unfold JSONHandler_Enabled. simpl.
    destruct (stdJSON_Enabled j level); simpl; [| reflexivity].
    unfold bind, time_Now, JSONHandler_Handle, recordOf. simpl.
    destruct (stdJSON_Handle j _ w); reflexivity.
Qed.

End JSONBackend.

(** [WithGroup("svc")] on the default logger in the [json] format, over
    the engine of the examples. *)
Lemma json_backend_delegates_to_the_engine_witness :
  @logslog.New exampleEngine (logslog.mkConfig "" "json" None "")
  = @logslog.mkSlogLogger exampleEngine
      (mkLogger (@logslog.JSON exampleEngine
         (@logslog.mkJSONHandler exampleEngine
            (@NewJSONHandler exampleEngine Stdout
               (mkOptions (Some LevelInfo) (Some logslog.replaceAttr))))))
      "_group".
Proof.
  destruct (@json_backend_delegates_to_the_engine exampleEngine
              (logslog.mkConfig "" "json" None "")
              (logger.OpWithGroup "svc") "m" [] exampleWorld eq_refl)
    as (H & _).
  exact H.
Defined.

(** ** The output format *)

Section Formats.
Context {E : JSONEngine}.

(** X22.  The two backends read the format string differently.  The slog
    backend writes JSON for the format [json] and through the console
    handler for every other string; the zerolog backend writes through
    the console writer for the empty format and for [console], and JSON
    for every other string.  They agree exactly on the empty format, on
    [console] and on [json]: any other format, [JSON] or [text] say,
    gives console lines on slog and JSON on zerolog. *)
Theorem backends_agree_on_known_formats_only (level format : string)
    (writer : option Writer) (groupFieldName : string) :
  isConsole (logslog.New (logslog.mkConfig level format writer groupFieldName))
  = negb (String.eqb format "json")
  /\ logzerolog.console
       (logzerolog.logger
          (logzerolog.New (logzerolog.mkConfig level format writer)))
     = (String.eqb format "" || String.eqb format "console")
  /\ (isConsole
        (logslog.New (logslog.mkConfig level format writer groupFieldName))
      = logzerolog.console
          (logzerolog.logger
             (logzerolog.New (logzerolog.mkConfig level format writer)))
      <-> format = "" \/ format = "console" \/ format = "json").
Proof.
  assert (Hs : isConsole
                 (logslog.New
                    (logslog.mkConfig level format writer groupFieldName))
               = negb (String.eqb format "json")).
  { unfold isConsole, logslog.New. simpl.
    destruct (String.eqb format "") eqn:H0.
    - apply String.eqb_eq in H0. subst format. reflexivity.
    - destruct (String.eqb format "json"); reflexivity. }
  assert (Hz : logzerolog.console
                 (logzerolog.logger
                    (logzerolog.New (logzerolog.mkConfig level format writer)))
               = (String.eqb format "" || String.eqb format "console")).
  { unfold logzerolog.New. simpl.
    destruct (String.eqb format "") eqn:H0; reflexivity. }
  split; [exact Hs |]. split; [exact Hz |].
  rewrite Hs, Hz.
  destruct (String.eqb format "") eqn:H0;
    [apply String.eqb_eq in H0; subst format; split; [auto | reflexivity] |].
  destruct (String.eqb format "console") eqn:H1;
    [apply String.eqb_eq in H1; subst format; split; [auto | reflexivity] |].
  destruct (String.eqb format "json") eqn:H2;
    [apply String.eqb_eq in H2; subst format; split; [auto | reflexivity] |].
  apply String.eqb_neq in H0, H1, H2. simpl.
  split; [discriminate | intros [? | [? | ?]]; contradiction].
Qed.

End Formats.

(** The format [JSON]. *)
Lemma backends_agree_on_known_formats_only_witness :
  @isConsole exampleEngine
    (@logslog.New exampleEngine (logslog.mkConfig "" "JSON" None "")) = true
  /\ logzerolog.console
       (logzerolog.logger (logzerolog.New (logzerolog.mkConfig "" "JSON" None)))
     = false.
Proof.
  destruct (@backends_agree_on_known_formats_only exampleEngine "" "JSON" None "")
    as (Hs & Hz & _).
  split; [exact Hs | exact Hz].
Defined.
